(** * sequence_viewer: viewport, LOD, selection and tick-layout core

    A shallow embedding of the Python sources of the sequence viewer and the
    properties stated about them.

    Conventions of the embedding.
    - Python [int] is [Z].
    - Python [float] is modelled by the exact rational it denotes ([Q]);
      rounding error of IEEE arithmetic is not modelled.  Every concrete
      input used below is chosen so that the float computation takes the
      same branches as the exact one.
    - Python [str] is [string]; [len] is [String.length].
    - Mutable objects are records; a method is a function from the record
      (and its arguments) to the new record and the returned value.
    - A [while] loop runs on fuel; running out of fuel is a distinct
      outcome, and totality is proved where the loop does terminate. *)

From Stdlib Require Import ZArith List Ascii String Bool Lia.
From Stdlib Require Import DecimalString DecimalZ.
From Stdlib Require Import QArith Qround Qabs Qpower Lqa.
Import ListNotations.
Local Open Scope Z_scope.

(* ------------------------------------------------------------------ *)
(** ** Float helpers: Python's [max], [min], [abs], [round], [int] on the
       rationals that stand for floats *)
(* ------------------------------------------------------------------ *)

Module Float.
Local Open Scope Q_scope.

Definition ltb (a b : Q) : bool := negb (Qle_bool b a).
Definition leb (a b : Q) : bool := Qle_bool a b.
Definition geb (a b : Q) : bool := Qle_bool b a.
Definition gtb (a b : Q) : bool := negb (Qle_bool a b).

(** [max(a, b)]: the first argument unless the second is greater. *)
Definition max (a b : Q) : Q := if ltb a b then b else a.
(** [min(a, b)]: the first argument unless the second is smaller. *)
Definition min (a b : Q) : Q := if ltb b a then b else a.

(** [int(x)]: truncation toward zero. *)
Definition to_int (x : Q) : Z := if ltb x 0 then Qceiling x else Qfloor x.

(** [round(x)] on a float: to the nearest integer, ties to the even one. *)
Definition round (x : Q) : Z :=
  let f := Qfloor x in
  let d := x - inject_Z f in
  if ltb d (1 # 2) then f
  else if ltb (1 # 2) d then (f + 1)%Z
  else if Z.even f then f else (f + 1)%Z.

End Float.

(* ------------------------------------------------------------------ *)
(** ** sequence_viewer/sequence_viewer_model.py *)
(* ------------------------------------------------------------------ *)

Module SequenceViewerModel.

Record t : Type := mk {
  _sequences : list string;
  max_sequence_length : Z;
  selection_start_row : option Z;
  selection_start_col : option Z;
  current_selection_cols : option (Z * Z)
}.

(** [__init__] *)
Definition init : t := mk [] 0 None None None.

Definition len (s : string) : Z := Z.of_nat (String.length s).

(** [get_row_count] *)
Definition get_row_count (m : t) : Z := Z.of_nat (List.length (_sequences m)).

(** [add_sequence]: appends, refreshes the cached maximum, returns the row
    index of the appended sequence. *)
Definition add_sequence (m : t) (sequence : string) : t * Z :=
  let seqs := _sequences m ++ [sequence] in
  let seq_len := len sequence in
  let mx := if seq_len >? max_sequence_length m then seq_len
            else max_sequence_length m in
  (mk seqs mx (selection_start_row m) (selection_start_col m)
      (current_selection_cols m),
   Z.of_nat (List.length seqs) - 1).

(** [clear_selection] *)
Definition clear_selection (m : t) : t :=
  mk (_sequences m) (max_sequence_length m) None None None.

(** [clear_sequences] *)
Definition clear_sequences (m : t) : t :=
  clear_selection (mk [] 0 (selection_start_row m) (selection_start_col m)
                      (current_selection_cols m)).

(** [start_selection] *)
Definition start_selection (m : t) (row col : Z) : t * bool :=
  let row_count := get_row_count m in
  if row_count =? 0 then (clear_selection m, false)
  else if (row <? 0) || (row >=? row_count) || (col <? 0)
  then (clear_selection m, false)
  else (mk (_sequences m) (max_sequence_length m) (Some row) (Some col)
           (current_selection_cols m),
        true).

(** [_clamp_column_index] *)
Definition _clamp_column_index (m : t) (col : Z) : option Z :=
  if max_sequence_length m <=? 0 then None
  else Some (Z.max 0 (Z.min col (max_sequence_length m - 1))).

(** [update_selection] *)
Definition update_selection (m : t) (current_row current_col : Z)
  : t * option (Z * Z * Z * Z) :=
  match selection_start_row m, selection_start_col m with
  | Some start_row, Some start_col =>
      match _clamp_column_index m start_col,
            _clamp_column_index m current_col with
      | Some clamped_start_col, Some clamped_current_col =>
          let row_count := get_row_count m in
          if row_count =? 0 then (clear_selection m, None)
          else
            let row_start := Z.max 0 (Z.min start_row current_row) in
            let row_end := Z.min (row_count - 1) (Z.max start_row current_row) in
            let col_start := Z.min clamped_start_col clamped_current_col in
            let col_end := Z.max clamped_start_col clamped_current_col in
            let cols := if (col_start >=? 0) && (col_end >=? 0)
                        then Some (col_start, col_end) else None in
            (mk (_sequences m) (max_sequence_length m)
                (selection_start_row m) (selection_start_col m) cols,
             Some (row_start, row_end, col_start, col_end))
      | _, _ => (clear_selection m, None)
      end
  | _, _ => (m, None)
  end.

(** [get_selection_center_nt] *)
Definition get_selection_center_nt (m : t) : option Q :=
  match current_selection_cols m with
  | None => None
  | Some (s, e) =>
      if max_sequence_length m <=? 0 then None
      else
        let '(s, e) := if s >? e then (e, s) else (s, e) in
        let center_nt := (inject_Z (s + e + 1) / 2.0)%Q in
        Some (Float.max 0.0 (Float.min center_nt
                                       (inject_Z (max_sequence_length m))))
  end.

(** The calls the longest-row cache is stated over. *)
Inductive store_call : Type :=
| AddSequence (sequence : string)
| ClearSequences.

Definition run_call (m : t) (c : store_call) : t :=
  match c with
  | AddSequence s => fst (add_sequence m s)
  | ClearSequences => clear_sequences m
  end.

Definition run_calls (cs : list store_call) : t := fold_left run_call cs init.

(** Maximum of the stored lengths, 0 for no sequence (Python's
    [max(..., default=0)]). *)
Definition max_len_of (seqs : list string) : Z :=
  fold_right (fun s acc => Z.max (len s) acc) 0 seqs.

(** The cache agrees with the rows. *)
Definition cache_ok (m : t) : Prop :=
  max_sequence_length m = max_len_of (_sequences m).

(** The anchor, when present, names an existing row and a non-negative
    column: what [start_selection] establishes and the other methods keep. *)
Definition anchor_ok (m : t) : Prop :=
  (forall r : Z, selection_start_row m = Some r -> 0 <= r < get_row_count m) /\
  (forall c : Z, selection_start_col m = Some c -> 0 <= c).


(** Python's [max((len(s) for s in seqs), default=0)]. *)
Definition py_max_len (seqs : list string) : Z :=
  match seqs with
  | [] => 0
  | s :: rest => fold_left (fun acc x => Z.max acc (len x)) rest (len s)
  end.

(** [recalc_max_sequence_length] *)
Definition recalc_max_sequence_length (m : t) : t * Z :=
  let mx := py_max_len (_sequences m) in
  (mk (_sequences m) mx (selection_start_row m) (selection_start_col m)
      (current_selection_cols m),
   mx).

(** Python's [xs[i]]: indices from [-len] to [len - 1], a negative one
    counting from the end; [None] stands for [IndexError]. *)
Definition py_index {A : Type} (xs : list A) (i : Z) : option A :=
  let n := Z.of_nat (List.length xs) in
  if (0 <=? i) && (i <? n) then nth_error xs (Z.to_nat i)
  else if (- n <=? i) && (i <? 0) then nth_error xs (Z.to_nat (n + i))
  else None.

(** [get_sequence] *)
Definition get_sequence (m : t) (row_index : Z) : option string :=
  py_index (_sequences m) row_index.

(** [get_selection_column_range] *)
Definition get_selection_column_range (m : t) : option (Z * Z) :=
  current_selection_cols m.

End SequenceViewerModel.

(* ------------------------------------------------------------------ *)
(** ** graphics/sequence_item/sequence_item_model.py *)
(* ------------------------------------------------------------------ *)

Module SequenceItemModel.
Local Open Scope Q_scope.

(** The three mode tags [TEXT_MODE = "text"], [BOX_MODE = "box"],
    [LINE_MODE = "line"]. *)
Inductive mode : Type := TEXT_MODE | BOX_MODE | LINE_MODE.

Definition mode_tag (md : mode) : string :=
  match md with
  | TEXT_MODE => "text"
  | BOX_MODE => "box"
  | LINE_MODE => "line"
  end%string.

Definition mode_of_tag (s : string) : option mode :=
  if String.eqb s "text" then Some TEXT_MODE
  else if String.eqb s "box" then Some BOX_MODE
  else if String.eqb s "line" then Some LINE_MODE
  else None.

Definition _TEXT_BOX_THRESHOLD : Q := 8.0.
Definition _BOX_LINE_THRESHOLD : Q := 5.0.

Record t : Type := mk {
  sequence : string;
  length : Z;
  char_width : Q;
  char_height : Z;
  default_char_width : Q;
  selection_range : option (Z * Z);
  base_font_size : Q;
  display_mode : mode;
  current_font_size : Q;
  box_height : Q;
  line_height : Q;
  _lod_max_mode : option mode
}.

(** The font-size ladder of [_update_display_state]. *)
Definition snapped_size (base_font : Q) (scale : Q) : Q :=
  if Float.geb scale 1.8 then 12.0
  else if Float.geb scale 1.2 then 10.0
  else if Float.geb scale 0.7 then 8.0
  else Float.max 1.0 (base_font * scale).

(** The mode selection of [_update_display_state]. *)
Definition mode_of_font_size (size : Q) : mode :=
  if Float.geb size _TEXT_BOX_THRESHOLD then TEXT_MODE
  else if Float.geb size _BOX_LINE_THRESHOLD then BOX_MODE
  else LINE_MODE.

(** [_update_display_state] *)
Definition _update_display_state (m : t) : t :=
  let default := if Float.leb (default_char_width m) 0 then 12.0
                 else default_char_width m in
  let cw := Float.max (char_width m) 0.001 in
  let base_cw := Float.max default 0.001 in
  let scale := cw / base_cw in
  let size := snapped_size (base_font_size m) scale in
  let md := mode_of_font_size size in
  let box_reference_height :=
    Float.min (inject_Z (char_height m) * 0.7) size in
  mk (sequence m) (length m) (char_width m) (char_height m) default
     (selection_range m) (base_font_size m) md size
     (Float.max box_reference_height 1.0)
     (inject_Z (char_height m) * 0.3)
     (_lod_max_mode m).

(** [__init__] (the colour map plays no part in the state modelled). *)
Definition init (sequence : string) (char_width char_height : Q) : t :=
  let cw := Float.max char_width 0.001 in
  let ch := Z.max 1 (Float.round char_height) in
  _update_display_state
    (mk sequence (Z.of_nat (String.length sequence)) cw ch cw None
        (inject_Z ch * 0.6) TEXT_MODE (inject_Z ch * 0.6)
        (inject_Z ch * 0.7) (inject_Z ch * 0.3) None).

Definition with_char_width (m : t) (w : Q) : t :=
  mk (sequence m) (length m) w (char_height m) (default_char_width m)
     (selection_range m) (base_font_size m) (display_mode m)
     (current_font_size m) (box_height m) (line_height m) (_lod_max_mode m).

(** [set_char_width] *)
Definition set_char_width (m : t) (new_width : Q) : t :=
  _update_display_state (with_char_width m (Float.max new_width 0.001)).

(** What every call of [set_char_width] keeps, from the constructor on. *)
Definition item_ok (m : t) : Prop :=
  0.001 <= char_width m /\ 0.001 <= default_char_width m /\
  1 <= current_font_size m /\ 1 <= box_height m /\
  display_mode m = mode_of_font_size (current_font_size m).

(** [_mode_order] *)
Definition _mode_order (md : mode) : Z :=
  match md with
  | TEXT_MODE => 0
  | BOX_MODE => 1
  | LINE_MODE => 2
  end.

(** [set_lod_max_mode]: the argument is [None] or a tag; a tag that is none
    of the three modes leaves the override as it was. *)
Definition set_lod_max_mode (m : t) (tag : option string) : t :=
  let set o :=
    mk (sequence m) (length m) (char_width m) (char_height m)
       (default_char_width m) (selection_range m) (base_font_size m)
       (display_mode m) (current_font_size m) (box_height m) (line_height m) o
  in
  match tag with
  | None => set None
  | Some s =>
      match mode_of_tag s with
      | Some md => set (Some md)
      | None => m
      end
  end.

(** [get_effective_mode] *)
Definition get_effective_mode (m : t) : mode :=
  let base_mode := display_mode m in
  match _lod_max_mode m with
  | None => base_mode
  | Some max_mode =>
      if (_mode_order base_mode <? _mode_order max_mode)%Z then max_mode
      else base_mode
  end.

(** The rank of the data model: Text > Box > Line. *)
Definition rank (md : mode) : Z :=
  match md with
  | TEXT_MODE => 2
  | BOX_MODE => 1
  | LINE_MODE => 0
  end.

(** The policy in the words of the specification: [scale] is the plain
    quotient of the two widths. *)
Definition spec_scale (char_width base_char_width : Q) : Q :=
  char_width / base_char_width.

Definition spec_font_size (base_font scale : Q) : Q :=
  if Float.geb scale 1.8 then 12
  else if Float.geb scale 1.2 then 10
  else if Float.geb scale 0.7 then 8
  else Float.max 1 (base_font * scale).


Definition with_selection (m : t) (r : option (Z * Z)) : t :=
  mk (sequence m) (length m) (char_width m) (char_height m)
     (default_char_width m) r (base_font_size m) (display_mode m)
     (current_font_size m) (box_height m) (line_height m) (_lod_max_mode m).

(** [set_selection]: the stored range is half-open. *)
Definition set_selection (m : t) (start_col end_col : Z) : t :=
  let start := Z.max 0 (Z.min start_col end_col) in
  let end_ := Z.min (length m) (Z.max start_col end_col + 1) in
  if (start >=? end_)%Z then with_selection m None
  else with_selection m (Some (start, end_)).

(** [clear_selection] *)
Definition clear_selection (m : t) : t := with_selection m None.

End SequenceItemModel.

(** The part of [SequenceGraphicsItem] the view drives: the item forwards
    to its model, and [set_char_width] skips changes below 0.0001. *)
Module SequenceGraphicsItem.
Local Open Scope Q_scope.

Definition t : Type := SequenceItemModel.t.

Definition init (sequence : string) (char_width char_height : Q) : t :=
  SequenceItemModel.init sequence char_width char_height.

Definition set_char_width (it : t) (new_width : Q) : t :=
  let new_width := if Float.leb new_width 0 then 0.001 else new_width in
  if Float.ltb (Qabs (new_width - SequenceItemModel.char_width it)) 0.0001
  then it
  else SequenceItemModel.set_char_width it new_width.


(** [set_selection] and [clear_selection] forward to the model. *)
Definition set_selection (it : t) (start_col end_col : Z) : t :=
  SequenceItemModel.set_selection it start_col end_col.

Definition clear_selection (it : t) : t :=
  SequenceItemModel.clear_selection it.

(** The columns [paint] goes over for an exposed rectangle reaching from
    [exposed_left] to [exposed_right]: [None] when nothing of the row is
    exposed, else [(start_index, end_index)], the second excluded. *)
Definition paint_window (it : t) (exposed_left exposed_right : Q)
  : option (Z * Z) :=
  let cw := SequenceItemModel.char_width it in
  let length := SequenceItemModel.length it in
  let total_width := inject_Z length * cw in
  let visible_left := Float.max exposed_left 0.0 in
  let visible_right := Float.min exposed_right total_width in
  if Float.leb visible_right visible_left then None
  else
    let start_index := Z.max 0 (Qfloor (visible_left / cw)) in
    let end_index := Z.min length (Qceiling (visible_right / cw)) in
    Some (start_index, end_index).

(** The cells [paint] washes with the selection brush in Text and Box
    mode: [range(sel_left_index, sel_right_index)], empty when there is no
    selection. *)
Definition highlight_window (it : t) (start_index end_index : Z)
  : option (Z * Z) :=
  match SequenceItemModel.selection_range it with
  | None => None
  | Some (sel_start, sel_end) =>
      let sel_left_index := Z.max sel_start start_index in
      let sel_right_index := Z.min sel_end end_index in
      if (sel_right_index >? sel_left_index)%Z
      then Some (sel_left_index, sel_right_index)
      else None
  end.

End SequenceGraphicsItem.

(* ------------------------------------------------------------------ *)
(** ** The Qt objects the view owns, as far as the view uses them *)
(* ------------------------------------------------------------------ *)

(** [QScrollBar]: an integer value kept inside [minimum, maximum];
    [setValue] bounds its argument to that range. *)
Module QScrollBar.

Record t : Type := mk { minimum : Z; maximum : Z; value : Z }.

Definition bound (s : t) (v : Z) : Z := Z.max (minimum s) (Z.min v (maximum s)).

Definition setValue (s : t) (v : Z) : t :=
  mk (minimum s) (maximum s) (bound s v).

Definition setMaximum (s : t) (mx : Z) : t :=
  let s' := mk (minimum s) (Z.max (minimum s) mx) (value s) in
  mk (minimum s') (maximum s') (bound s' (value s)).

End QScrollBar.

(** [QVariantAnimation]: only the state the view reads and writes.  The
    easing curve and the clock belong to Qt; a frame is the interpolated
    value Qt hands to the [valueChanged] slot. *)
Module QVariantAnimation.

Inductive state : Type := Stopped | Running.

Record t : Type := mk {
  anim_state : state;
  duration : Z;
  startValue : option Q;
  endValue : option Q;
  currentValue : option Q
}.

Definition init : t := mk Stopped 250 None None None.

Definition is_running (a : t) : bool :=
  match anim_state a with Running => true | Stopped => false end.

Definition setDuration (a : t) (d : Z) : t :=
  mk (anim_state a) d (startValue a) (endValue a) (currentValue a).
Definition setStartValue (a : t) (x : Q) : t :=
  mk (anim_state a) (duration a) (Some x) (endValue a) (currentValue a).
Definition setEndValue (a : t) (x : Q) : t :=
  mk (anim_state a) (duration a) (startValue a) (Some x) (currentValue a).
Definition start (a : t) : t :=
  mk Running (duration a) (startValue a) (endValue a) (startValue a).
(** Qt sets the current value, then emits [valueChanged]. *)
Definition setCurrentValue (a : t) (x : Q) : t :=
  mk (anim_state a) (duration a) (startValue a) (endValue a) (Some x).
Definition finish (a : t) : t :=
  mk Stopped (duration a) (startValue a) (endValue a) (currentValue a).

End QVariantAnimation.

(* ------------------------------------------------------------------ *)
(** ** sequence_viewer/sequence_viewer_view.py *)
(* ------------------------------------------------------------------ *)

Module SequenceViewerView.
Local Open Scope Q_scope.

Record t : Type := mk {
  char_width : Q;
  char_height : Z;
  trailing_padding_line_px : Q;
  trailing_padding_text_px : Q;
  max_sequence_length : Z;
  sequence_items : list SequenceGraphicsItem.t;
  _zoom_animation : QVariantAnimation.t;
  _zoom_center_nt : option Q;
  _zoom_view_width_px : option Q;
  (* the scene rectangle, the viewport and the horizontal scroll bar *)
  scene_width : Q;
  scene_height : Q;
  viewport_width : Z;
  hbar : QScrollBar.t
}.

Definition with_hbar (v : t) (h : QScrollBar.t) : t :=
  mk (char_width v) (char_height v) (trailing_padding_line_px v)
     (trailing_padding_text_px v) (max_sequence_length v) (sequence_items v)
     (_zoom_animation v) (_zoom_center_nt v) (_zoom_view_width_px v)
     (scene_width v) (scene_height v) (viewport_width v) h.

Definition with_animation (v : t) (a : QVariantAnimation.t)
           (center_nt view_width_px : option Q) : t :=
  mk (char_width v) (char_height v) (trailing_padding_line_px v)
     (trailing_padding_text_px v) (max_sequence_length v) (sequence_items v)
     a center_nt view_width_px
     (scene_width v) (scene_height v) (viewport_width v) (hbar v).

Definition with_items (v : t) (cw : Q) (items : list SequenceGraphicsItem.t)
  : t :=
  mk cw (char_height v) (trailing_padding_line_px v)
     (trailing_padding_text_px v) (max_sequence_length v) items
     (_zoom_animation v) (_zoom_center_nt v) (_zoom_view_width_px v)
     (scene_width v) (scene_height v) (viewport_width v) (hbar v).

Section Geometry.

(** The maximum Qt gives the horizontal scroll bar for a scene width and a
    viewport width; the view never sets it itself. *)
Variable qt_hbar_maximum : Q -> Z -> Z.

(** [scene.setSceneRect(0, 0, width, height)] followed by Qt's refresh of
    the scroll range. *)
Definition setSceneRect (v : t) (max_len : Z) (width height : Q) : t :=
  mk (char_width v) (char_height v) (trailing_padding_line_px v)
     (trailing_padding_text_px v) max_len (sequence_items v)
     (_zoom_animation v) (_zoom_center_nt v) (_zoom_view_width_px v)
     width height (viewport_width v)
     (QScrollBar.setMaximum (hbar v)
        (qt_hbar_maximum width (viewport_width v))).

(** [__init__] for a viewport of the given width. *)
Definition init (char_width char_height : Q) (viewport_width : Z) : t :=
  mk char_width (Float.round char_height) 80.0 30.0 0 []
     QVariantAnimation.init None None 0 0 viewport_width
     (QScrollBar.mk 0 0 0).

(** [_current_trailing_padding] *)
Definition _current_trailing_padding (v : t) : Q :=
  match sequence_items v with
  | [] => trailing_padding_text_px v
  | first :: _ =>
      match SequenceItemModel.display_mode first with
      | SequenceItemModel.LINE_MODE => trailing_padding_line_px v
      | _ => trailing_padding_text_px v
      end
  end.

Definition item_len (it : SequenceGraphicsItem.t) : Z :=
  Z.of_nat (String.length (SequenceItemModel.sequence it)).

(** [_update_scene_rect] *)
Definition _update_scene_rect (v : t) : t :=
  match sequence_items v with
  | [] => setSceneRect v 0 0 0
  | first :: others =>
      let max_len :=
        fold_left (fun acc it => Z.max acc (item_len it)) others
                  (item_len first) in
      let trailing_padding := _current_trailing_padding v in
      let width := inject_Z max_len * char_width v + trailing_padding in
      let height :=
        inject_Z (Z.of_nat (List.length (sequence_items v)) * char_height v) in
      setSceneRect v max_len width height
  end.

(** [add_sequence_item] *)
Definition add_sequence_item (v : t) (sequence_string : string) : t :=
  let item :=
    SequenceGraphicsItem.init sequence_string (char_width v)
                              (inject_Z (char_height v)) in
  _update_scene_rect
    (with_items v (char_width v) (sequence_items v ++ [item])).

(** [_effective_char_width] *)
Definition _effective_char_width (v : t) : Q :=
  let settled :=
    match sequence_items v with
    | first :: _ => SequenceItemModel.char_width first
    | [] => char_width v
    end in
  if QVariantAnimation.is_running (_zoom_animation v) then
    match QVariantAnimation.currentValue (_zoom_animation v) with
    | Some current_value => current_value
    | None => settled
    end
  else settled.

(** [current_char_width] and [_get_current_char_width] *)
Definition current_char_width (v : t) : Q := _effective_char_width v.

(** [compute_min_char_width] *)
Definition compute_min_char_width (v : t) : Q :=
  match sequence_items v with
  | [] => char_width v
  | _ :: _ =>
      let max_len := max_sequence_length v in
      if (max_len <=? 0)%Z then char_width v
      else if (viewport_width v <=? 0)%Z then char_width v
      else
        let trailing_padding :=
          Float.max (trailing_padding_line_px v)
                    (_current_trailing_padding v) in
        let available_width := inject_Z (viewport_width v) - trailing_padding in
        if Float.leb available_width 0 then 0.000001
        else Float.max (available_width / inject_Z max_len) 0.000001
  end.

(** The left edge [_recenter_horizontally] aims at, when it gets that far. *)
Definition ideal_left (v : t) (center_nt view_width_px : Q) : Q :=
  let center_nt :=
    if (max_sequence_length v >? 0)%Z
    then Float.max 0.0 (Float.min center_nt
                                  (inject_Z (max_sequence_length v)))
    else center_nt in
  let cw := _effective_char_width v in
  let center_x := center_nt * cw in
  let ideal := center_x - view_width_px / 2.0 in
  let max_left := Float.max 0.0 (scene_width v - view_width_px) in
  Float.max 0.0 (Float.min ideal max_left).

(** [_recenter_horizontally] *)
Definition _recenter_horizontally (v : t) (center_nt view_width_px : Q) : t :=
  let go (view_width_px : Q) : t :=
    if Float.leb (scene_width v) 0 then v
    else
      let ideal := ideal_left v center_nt view_width_px in
      let current_left := inject_Z (QScrollBar.value (hbar v)) in
      if Float.ltb (Qabs (ideal - current_left)) 0.5 then v
      else with_hbar v (QScrollBar.setValue (hbar v) (Float.round ideal))
  in
  if Float.leb view_width_px 0 then
    let view_width_px := inject_Z (viewport_width v) in
    if Float.leb view_width_px 0 then v else go view_width_px
  else go view_width_px.

(** [apply_char_width] *)
Definition apply_char_width (v : t) (new_char_width : Q)
           (center_nt view_width_px : option Q) : t :=
  let view_width_px :=
    match view_width_px with
    | None => inject_Z (viewport_width v)
    | Some w => w
    end in
  let unchanged := Float.ltb (Qabs (new_char_width - char_width v)) 0.0001 in
  match unchanged, center_nt with
  | true, None => v
  | _, _ =>
      let items :=
        map (fun it => SequenceGraphicsItem.set_char_width it new_char_width)
            (sequence_items v) in
      let applied_width :=
        match items with
        | first :: _ => SequenceItemModel.char_width first
        | [] => new_char_width
        end in
      let v1 := _update_scene_rect (with_items v applied_width items) in
      match center_nt with
      | Some c => _recenter_horizontally v1 c view_width_px
      | None => v1
      end
  end.

(** [start_zoom_animation] *)
Definition start_zoom_animation (v : t) (target_char_width center_nt : Q)
           (view_width_px : option Q) : t :=
  let view_width_px :=
    match view_width_px with
    | None => inject_Z (viewport_width v)
    | Some w => w
    end in
  let current_char_width := _effective_char_width v in
  if Float.ltb (Qabs (target_char_width - current_char_width)) 0.0001 then
    apply_char_width v target_char_width (Some center_nt) (Some view_width_px)
  else if QVariantAnimation.is_running (_zoom_animation v) then
    with_animation v
      (QVariantAnimation.setEndValue (_zoom_animation v) target_char_width)
      (_zoom_center_nt v) (Some view_width_px)
  else
    let a := QVariantAnimation.setDuration (_zoom_animation v) 180 in
    let a := QVariantAnimation.setStartValue a current_char_width in
    let a := QVariantAnimation.setEndValue a target_char_width in
    with_animation v (QVariantAnimation.start a)
                   (Some center_nt) (Some view_width_px).

(** [_on_zoom_value_changed], the slot of the animation's [valueChanged]. *)
Definition _on_zoom_value_changed (v : t) (value : Q) : t :=
  match _zoom_center_nt v, _zoom_view_width_px v with
  | Some center_nt, Some view_width_px =>
      apply_char_width v value (Some center_nt) (Some view_width_px)
  | _, _ => v
  end.

(** One animation frame: Qt stores the interpolated value and calls the slot. *)
Definition animation_frame (v : t) (value : Q) : t :=
  _on_zoom_value_changed
    (with_animation v
       (QVariantAnimation.setCurrentValue (_zoom_animation v) value)
       (_zoom_center_nt v) (_zoom_view_width_px v))
    value.

(** A whole animation: the frames in order, the last one being the end
    value, after which the animation stops. *)
Definition run_animation (v : t) (frames : list Q) : t :=
  let v' := fold_left animation_frame frames v in
  with_animation v' (QVariantAnimation.finish (_zoom_animation v'))
                 (_zoom_center_nt v') (_zoom_view_width_px v').

(** Screen pixel (viewport x) of a content position: its scene x at the
    effective width, less the scroll offset. *)
Definition screen_x (v : t) (nt : Q) : Q :=
  nt * _effective_char_width v - inject_Z (QScrollBar.value (hbar v)).

End Geometry.


Section Selection.

Variable qt_hbar_maximum : Q -> Z -> Z.

(** [for row_index, item in enumerate(items)]: the items with their
    indices from [row_index] on. *)
Fixpoint map_enumerate {A B : Type} (f : Z -> A -> B) (row_index : Z)
         (items : list A) : list B :=
  match items with
  | [] => []
  | item :: rest => f row_index item :: map_enumerate f (row_index + 1)%Z rest
  end.

(** [clear_visual_selection] *)
Definition clear_visual_selection (v : t) : t :=
  with_items v (char_width v)
             (map SequenceGraphicsItem.clear_selection (sequence_items v)).

(** [set_visual_selection] *)
Definition set_visual_selection (v : t)
           (row_start row_end col_start col_end : Z) : t :=
  with_items v (char_width v)
    (map_enumerate
       (fun row_index item =>
          if ((row_start <=? row_index) && (row_index <=? row_end)
              && (col_start >=? 0) && (col_end >=? 0))%Z
          then SequenceGraphicsItem.set_selection item col_start col_end
          else SequenceGraphicsItem.clear_selection item)
       0%Z (sequence_items v)).

(** [clear_items] *)
Definition clear_items (v : t) : t :=
  mk (char_width v) (char_height v) (trailing_padding_line_px v)
     (trailing_padding_text_px v) 0 []
     (_zoom_animation v) (_zoom_center_nt v) (_zoom_view_width_px v)
     0 0 (viewport_width v)
     (QScrollBar.setMaximum (hbar v)
        (qt_hbar_maximum 0 (viewport_width v))).

(** [scene_pos_to_row_col]; [None] stands for the [ZeroDivisionError] of a
    zero row height. *)
Definition scene_pos_to_row_col (v : t) (scene_x scene_y : Q)
  : option (Z * Z) :=
  if (char_height v =? 0)%Z then None
  else
    let row := Float.to_int (inject_Z (Qfloor (scene_y / inject_Z (char_height v)))) in
    let current_cw := _effective_char_width v in
    let current_cw :=
      if Float.leb current_cw 0
      then (if Float.gtb (char_width v) 0 then char_width v else 0.000001)
      else current_cw in
    let col := Float.to_int (inject_Z (Qfloor (scene_x / current_cw))) in
    Some (row, col).

(** [zoom_to_nt_range] *)
Definition zoom_to_nt_range (v : t) (start_nt end_nt : Q) : t :=
  match sequence_items v with
  | [] => v
  | _ :: _ =>
      let a := start_nt in
      let b := end_nt in
      let '(span_nt, center_nt) :=
        if Qeq_bool a b then (1.0, a)
        else
          let left_nt := Float.min a b in
          let right_nt := Float.max a b in
          (Float.max (right_nt - left_nt) 1.0, (left_nt + right_nt) / 2.0) in
      let viewport_width_px := inject_Z (viewport_width v) in
      if Float.leb viewport_width_px 0 then v
      else
        let desired_char_width := viewport_width_px / span_nt in
        let min_char_width := compute_min_char_width v in
        let max_char_width := 90.0 in
        let new_char_width :=
          Float.max min_char_width
                    (Float.min desired_char_width max_char_width) in
        let v1 :=
          if Float.gtb (Qabs (new_char_width - char_width v)) 0.0001
          then
            _update_scene_rect qt_hbar_maximum
              (with_items v new_char_width
                 (map (fun it =>
                         SequenceGraphicsItem.set_char_width it new_char_width)
                      (sequence_items v)))
          else v in
        _recenter_horizontally v1 center_nt viewport_width_px
  end.

(** The width [zoom_to_nt_range] asks for, before it is applied. *)
Definition range_char_width (v : t) (start_nt end_nt : Q) : Q :=
  let span_nt :=
    if Qeq_bool start_nt end_nt then 1.0
    else Float.max (Float.max start_nt end_nt - Float.min start_nt end_nt)
                   1.0 in
  Float.max (compute_min_char_width v)
            (Float.min (inject_Z (viewport_width v) / span_nt) 90.0).

End Selection.

End SequenceViewerView.

(* ------------------------------------------------------------------ *)
(** ** features/sequence_viewer/sequence_viewer_controller.py *)
(* ------------------------------------------------------------------ *)

Module SequenceViewerController.
Local Open Scope Q_scope.

(** What the handlers read from a [QWheelEvent]: whether
    [event.modifiers() & Qt.ControlModifier] is set, [angleDelta().y()]
    and [pos().x()]. *)
Record QWheelEvent : Type := mkWheel {
  control_modifier : bool;
  angle_delta_y : Z;
  pos_x : Z
}.

Record t : Type := mk {
  _is_selecting : bool;
  _wheel_zoom_streak_dir : option Z;
  _wheel_zoom_streak_len : Z;
  _wheel_zoom_base_factor : Q;
  _wheel_zoom_accel_factor : Q
}.

(** [__init__] *)
Definition init : t := mk false None 0 1.22 1.06.

Definition with_streak (c : t) (dir : Z) (len : Z) : t :=
  mk (_is_selecting c) (Some dir) len
     (_wheel_zoom_base_factor c) (_wheel_zoom_accel_factor c).

Section Wheel.

(** [math.pow] on floats, and Qt's scroll range (see the view). *)
Variable pow : Q -> Q -> Q.
Variable qt_hbar_maximum : Q -> Z -> Z.

Definition steps_of (delta : Z) : Q := inject_Z delta / 120.0.

Definition direction_of (steps : Q) : Z :=
  if Float.gtb steps 0 then 1%Z else (-1)%Z.

(** The streak bookkeeping of [handle_wheel_event]. *)
Definition bump_streak (c : t) (direction : Z) : t :=
  match _wheel_zoom_streak_dir c with
  | Some d =>
      if (d =? direction)%Z
      then with_streak c d (_wheel_zoom_streak_len c + 1)
      else with_streak c direction 1
  | None => with_streak c direction 1
  end.

(** The zoom factor of one wheel event, from the streak already bumped. *)
Definition zoom_factor (c : t) (steps : Q) (direction : Z) : Q :=
  let streak_boost :=
    pow (_wheel_zoom_accel_factor c)
        (inject_Z (Z.max 0 (_wheel_zoom_streak_len c - 1))) in
  let per_step_factor := _wheel_zoom_base_factor c * streak_boost in
  let magnitude_factor := pow per_step_factor (Qabs steps) in
  if (direction >? 0)%Z then magnitude_factor else 1.0 / magnitude_factor.

(** [handle_wheel_event]: the returned flag, the controller and the view
    afterwards. *)
Definition handle_wheel_event (c : t) (model : SequenceViewerModel.t)
           (view : SequenceViewerView.t) (event : QWheelEvent)
  : bool * t * SequenceViewerView.t :=
  if negb (control_modifier event) then (false, c, view)
  else
    let delta := angle_delta_y event in
    match (delta =? 0)%Z, SequenceViewerView.sequence_items view with
    | true, _ | _, [] => (true, c, view)
    | false, _ :: _ =>
        let steps := steps_of delta in
        let direction := direction_of steps in
        let c := bump_streak c direction in
        let view_width_px :=
          inject_Z (SequenceViewerView.viewport_width view) in
        if Float.leb view_width_px 0 then (true, c, view)
        else
          let current_cw := SequenceViewerView.current_char_width view in
          let current_cw :=
            if Float.leb current_cw 0
            then Float.max (SequenceViewerView.char_width view) 0.001
            else current_cw in
          let center_nt :=
            match SequenceViewerModel.get_selection_center_nt model with
            | Some center_nt => center_nt
            | None =>
                let old_left_px :=
                  inject_Z (QScrollBar.value (SequenceViewerView.hbar view)) in
                let cursor_x := inject_Z (pos_x event) in
                let scene_x := old_left_px + cursor_x in
                scene_x / current_cw
            end in
          let factor := zoom_factor c steps direction in
          let target_cw := current_cw * factor in
          let min_char_width :=
            SequenceViewerView.compute_min_char_width view in
          let max_char_width := 90.0 in
          let target_cw :=
            Float.max min_char_width (Float.min target_cw max_char_width) in
          if Float.ltb (Qabs (target_cw - current_cw)) 0.0001
          then (true, c, view)
          else
            (true, c,
             SequenceViewerView.start_zoom_animation qt_hbar_maximum view
               target_cw center_nt (Some view_width_px))
    end.

(** What becomes of a wheel event delivered to the view. *)
Inductive wheel_outcome : Type :=
| Consumed
| SuperWheelEvent (event : QWheelEvent).

(** [SequenceViewerView.wheelEvent]: the controller, when there is one,
    sees the event first; an event it declines goes to
    [QGraphicsView.wheelEvent], the ordinary scroll. *)
Definition wheelEvent (controller : option t) (model : SequenceViewerModel.t)
           (view : SequenceViewerView.t) (event : QWheelEvent)
  : wheel_outcome * option t * SequenceViewerView.t :=
  match controller with
  | Some c =>
      match handle_wheel_event c model view event with
      | (true, c', view') => (Consumed, Some c', view')
      | (false, c', view') => (SuperWheelEvent event, Some c', view')
      end
  | None => (SuperWheelEvent event, None, view)
  end.

(** One wheel event delivered to controller and view; the model is only
    read. *)
Definition feed_wheel (model : SequenceViewerModel.t)
           (st : t * SequenceViewerView.t) (event : QWheelEvent)
  : t * SequenceViewerView.t :=
  let r := handle_wheel_event (fst st) model (snd st) event in
  (snd (fst r), snd r).

(** The target a wheel event leaves in the animation. *)
Definition target_of (view : SequenceViewerView.t) : option Q :=
  QVariantAnimation.endValue (SequenceViewerView._zoom_animation view).

End Wheel.


Section Mouse.

Variable qt_hbar_maximum : Q -> Z -> Z.

(** What the handlers read from a [QMouseEvent]: whether [event.button()]
    is [Qt.LeftButton], and the scene point [mapToScene(event.pos())]. *)
Record QMouseEvent : Type := mkMouse {
  left_button : bool;
  scene_x : Q;
  scene_y : Q
}.

Definition with_selecting (c : t) (b : bool) : t :=
  mk b (_wheel_zoom_streak_dir c) (_wheel_zoom_streak_len c)
     (_wheel_zoom_base_factor c) (_wheel_zoom_accel_factor c).

(** [add_sequence] *)
Definition add_sequence (model : SequenceViewerModel.t)
           (view : SequenceViewerView.t) (sequence_string : string)
  : SequenceViewerModel.t * SequenceViewerView.t :=
  (fst (SequenceViewerModel.add_sequence model sequence_string),
   SequenceViewerView.add_sequence_item qt_hbar_maximum view sequence_string).

(** [clear] *)
Definition clear (c : t) (model : SequenceViewerModel.t)
           (view : SequenceViewerView.t)
  : t * SequenceViewerModel.t * SequenceViewerView.t :=
  (mk false None 0 (_wheel_zoom_base_factor c) (_wheel_zoom_accel_factor c),
   SequenceViewerModel.clear_sequences model,
   SequenceViewerView.clear_items qt_hbar_maximum view).

(** The view after a selection update: the range drawn, or nothing. *)
Definition show_range (view : SequenceViewerView.t)
           (sel_range : option (Z * Z * Z * Z)) : SequenceViewerView.t :=
  match sel_range with
  | Some (row_start, row_end, col_start, col_end) =>
      SequenceViewerView.set_visual_selection view
        row_start row_end col_start col_end
  | None => SequenceViewerView.clear_visual_selection view
  end.

(** [handle_mouse_press]; the outer [None] is the exception of
    [scene_pos_to_row_col]. *)
Definition handle_mouse_press (c : t) (model : SequenceViewerModel.t)
           (view : SequenceViewerView.t) (event : QMouseEvent)
  : option (bool * t * SequenceViewerModel.t * SequenceViewerView.t) :=
  if negb (left_button event) then Some (false, c, model, view)
  else
    let row_count := SequenceViewerModel.get_row_count model in
    if (row_count =? 0)%Z then
      Some (true, c, SequenceViewerModel.clear_selection model,
            SequenceViewerView.clear_visual_selection view)
    else
      match SequenceViewerView.scene_pos_to_row_col view
              (scene_x event) (scene_y event) with
      | None => None
      | Some (row, col) =>
          if ((0 <=? row) && (row <? row_count) && (col >=? 0))%Z then
            let '(model1, started) :=
              SequenceViewerModel.start_selection model row col in
            if started then
              let '(model2, sel_range) :=
                SequenceViewerModel.update_selection model1 row col in
              Some (true, with_selecting c true, model2,
                    show_range view sel_range)
            else Some (true, c, model1, view)
          else
            Some (true, with_selecting c false,
                  SequenceViewerModel.clear_selection model,
                  SequenceViewerView.clear_visual_selection view)
      end.

(** [handle_mouse_move] *)
Definition handle_mouse_move (c : t) (model : SequenceViewerModel.t)
           (view : SequenceViewerView.t) (event : QMouseEvent)
  : option (bool * t * SequenceViewerModel.t * SequenceViewerView.t) :=
  match _is_selecting c, SequenceViewerModel.selection_start_row model with
  | true, Some _ =>
      match SequenceViewerView.scene_pos_to_row_col view
              (scene_x event) (scene_y event) with
      | None => None
      | Some (row, col) =>
          let '(model1, sel_range) :=
            SequenceViewerModel.update_selection model row col in
          Some (true, c, model1, show_range view sel_range)
      end
  | _, _ => Some (false, c, model, view)
  end.

(** [handle_mouse_release] *)
Definition handle_mouse_release (c : t) (event : QMouseEvent) : bool * t :=
  if left_button event && _is_selecting c
  then (true, with_selecting c false)
  else (false, c).

(** Store and canvas hold the same rows, agree on the longest one, and
    the scene is as tall as the rows. *)
Definition in_sync (model : SequenceViewerModel.t)
           (view : SequenceViewerView.t) : Prop :=
  map SequenceItemModel.sequence (SequenceViewerView.sequence_items view)
    = SequenceViewerModel._sequences model /\
  SequenceViewerView.max_sequence_length view
    = SequenceViewerModel.max_sequence_length model /\
  SequenceViewerModel.cache_ok model /\
  SequenceViewerView.scene_height view
  == inject_Z (SequenceViewerModel.get_row_count model
               * SequenceViewerView.char_height view).

(** The two calls that change the content. *)
Inductive content_call : Type :=
| AddSequence (sequence_string : string)
| Clear.

Definition run_content_call
           (st : t * SequenceViewerModel.t * SequenceViewerView.t)
           (call : content_call)
  : t * SequenceViewerModel.t * SequenceViewerView.t :=
  let '(c, model, view) := st in
  match call with
  | AddSequence sequence_string =>
      let '(model', view') := add_sequence model view sequence_string in
      (c, model', view')
  | Clear => clear c model view
  end.

End Mouse.

End SequenceViewerController.

(* ------------------------------------------------------------------ *)
(** ** [math.floor(math.log10(x))] *)
(* ------------------------------------------------------------------ *)

Module Log10.
Local Open Scope Q_scope.

(** Climb while the next power of ten still fits under [x]. *)
Fixpoint up (fuel : nat) (x : Q) (k : Z) : Z :=
  match fuel with
  | O => k
  | S fuel' =>
      if Qle_bool (10 ^ (k + 1)) x then up fuel' x (k + 1)%Z else k
  end.

(** Descend until a power of ten fits under [x]. *)
Fixpoint down (fuel : nat) (x : Q) (k : Z) : Z :=
  match fuel with
  | O => k
  | S fuel' =>
      if Qle_bool (10 ^ (k - 1)) x then (k - 1)%Z else down fuel' x (k - 1)%Z
  end.

(** The integer [k] with [10^k <= x < 10^(k+1)], for [x > 0]. *)
Definition floor_log10 (x : Q) : Z :=
  if Qle_bool 1 x
  then up (S (Z.to_nat (Z.log2 (Qfloor x)))) x 0
  else down (S (Z.to_nat (Z.log2 (Zpos (Qden x))))) x 0.

End Log10.

(* ------------------------------------------------------------------ *)
(** ** features/position_ruler/position_ruler_model.py *)
(* ------------------------------------------------------------------ *)

Module PositionRulerModel.
Local Open Scope Q_scope.

(** The snap of [base] in [_choose_step_for_zoom]. *)
Definition nice_of (base : Q) : Z :=
  if Float.leb base 1.5 then 1
  else if Float.leb base 3 then 2
  else if Float.leb base 7 then 5
  else 10.

(** [_round_to_nice_large] *)
Definition _round_to_nice_large (step : Z) : Z :=
  if (step <? 100000)%Z then 100000
  else if (step <=? 200000)%Z then 200000
  else if (step <=? 500000)%Z then 500000
  else if (step <=? 1000000)%Z then 1000000
  else if (step <=? 2000000)%Z then 2000000
  else if (step <=? 5000000)%Z then 5000000
  else
    let power := (10 ^ Log10.floor_log10 (inject_Z step))%Z in
    let base := (step / power)%Z in
    if (base <=? 2)%Z then (2 * power)%Z
    else if (base <=? 5)%Z then (5 * power)%Z
    else (10 * power)%Z.

(** The candidate before the span rules: [int(nice * power)]. *)
Definition candidate_of (raw_step : Q) : Z :=
  let power := 10 ^ Log10.floor_log10 raw_step in
  let base := raw_step / power in
  Float.to_int (inject_Z (nice_of base) * power).

(** [_choose_step_for_zoom]; [char_width] is accepted and not used. *)
Definition _choose_step_for_zoom (char_width : Q) (visible_span : Z) : Z :=
  if (visible_span <=? 0)%Z then 1%Z
  else
    let target_labels := 10.0 in
    let raw_step := inject_Z visible_span / target_labels in
    if Float.leb raw_step 1 then 1%Z
    else
      let candidate := candidate_of raw_step in
      let candidate :=
        if (visible_span >=? 1000000)%Z then _round_to_nice_large candidate
        else if (visible_span >=? 100000)%Z then Z.max candidate 10000
        else if (visible_span <=? 100)%Z then Z.min candidate 10
        else candidate in
      Z.max candidate 1.

(** The ladder 100K, 200K, 500K, 1M, 2M, 5M, 10M, ...: 1, 2 or 5 times a
    power of ten from 10^5 on. *)
Definition on_ladder (s : Z) : Prop :=
  exists k : Z, (5 <= k)%Z /\
    (s = 10 ^ k \/ s = 2 * 10 ^ k \/ s = 5 * 10 ^ k)%Z.


Record PositionRulerLayout : Type := mkLayout {
  max_len : Z;
  first_pos : Z;
  last_pos : Z;
  visible_span : Z;
  step : Z;
  sel_start_pos : option Z;
  sel_end_pos : option Z;
  special_positions : list Z
}.

Record t : Type := mk {
  max_sequence_length : Z;
  view_left : Q;
  view_width : Q;
  char_width : Q;
  selection_cols : option (Z * Z)
}.

(** [__init__] *)
Definition init : t := mk 0 0.0 0.0 1.0 None.

(** [set_state] *)
Definition set_state (m : t) (max_len : Z) (view_left view_width char_width : Q)
           (selection_cols : option (Z * Z)) : t :=
  mk max_len (Float.max view_left 0.0) (Float.max view_width 0.0)
     (Float.max char_width 0.0) selection_cols.

(** [compute_layout] *)
Definition compute_layout (m : t) : option PositionRulerLayout :=
  let max_len := max_sequence_length m in
  if (max_len <=? 0)%Z then None
  else if Float.leb (view_width m) 0 || Float.leb (char_width m) 0 then None
  else
    let first_col := Qfloor (view_left m / char_width m) in
    let last_col := Qceiling ((view_left m + view_width m) / char_width m) in
    let first_col := Z.max 0 first_col in
    let last_col := Z.min max_len last_col in
    if (last_col <=? first_col)%Z then None
    else
      let first_pos := (first_col + 1)%Z in
      let last_pos := last_col in
      let visible_span := (last_pos - first_pos + 1)%Z in
      if (visible_span <=? 0)%Z then None
      else
        let step := _choose_step_for_zoom (char_width m) visible_span in
        let '(sel_start_pos, sel_end_pos) :=
          match selection_cols m with
          | None => (None, None)
          | Some (s, e) =>
              let '(s, e) := if (s >? e)%Z then (e, s) else (s, e) in
              (Some (s + 1)%Z, Some (e + 1)%Z)
          end in
        let special_positions :=
          match sel_start_pos with
          | None => []
          | Some sp =>
              sp :: match sel_end_pos with
                    | Some ep => if negb (ep =? sp)%Z then [ep] else []
                    | None => []
                    end
          end in
        Some (mkLayout max_len first_pos last_pos visible_span step
                       sel_start_pos sel_end_pos special_positions).

End PositionRulerModel.

(* ------------------------------------------------------------------ *)
(** ** navigation_ruler_model/navigation_ruler_model.py *)
(* ------------------------------------------------------------------ *)

Module NavigationRulerModel.
Local Open Scope Q_scope.

Record NavigationTickLayout : Type := mkLayout {
  max_len : Z;
  tick_step : Z;
  major_ticks : list Z;
  minor_ticks : list Z
}.

Record t : Type := mk {
  _cached_max_len : Z;
  _last_seq_count : Z
}.

(** The snap of [base] in [_nice_tick_step]. *)
Definition nice_of (base : Q) : Z :=
  if Float.leb base 1 then 1
  else if Float.leb base 2 then 2
  else if Float.leb base 5 then 5
  else 10.

(** [_nice_tick_step] *)
Definition _nice_tick_step (max_nt pixel_width target_px : Z) : Z :=
  if (max_nt <=? 0)%Z || (pixel_width <=? 0)%Z
  then (if (max_nt >? 0)%Z then max_nt else 1%Z)
  else
    let raw_step := inject_Z (max_nt * target_px) / inject_Z pixel_width in
    if Float.leb raw_step 0 then 1%Z
    else
      let power := 10 ^ Log10.floor_log10 raw_step in
      let base := raw_step / power in
      Float.to_int (inject_Z (nice_of base) * power).

(** [while nt <= max_nt: ticks.append(nt); nt += step], on fuel: [None]
    when the fuel runs out before the loop ends. *)
Fixpoint tick_loop (fuel : nat) (nt step max_nt : Z) (ticks : list Z)
  : option (list Z) :=
  match fuel with
  | O => None
  | S fuel' =>
      if (nt <=? max_nt)%Z
      then tick_loop fuel' (nt + step)%Z step max_nt (ticks ++ [nt])
      else Some ticks
  end.

(** The end-point fix-up of the major ticks. *)
Definition fix_last_tick (major_ticks : list Z) (step max_nt : Z) : list Z :=
  match rev major_ticks with
  | [] => major_ticks
  | last_nt :: _ =>
      let delta := (max_nt - last_nt)%Z in
      if (delta =? 0)%Z then major_ticks
      else if Float.ltb (inject_Z delta) (inject_Z step * 0.5)
      then removelast major_ticks ++ [max_nt]
      else major_ticks ++ [max_nt]
  end.

(** The major ticks of [compute_tick_layout] for a given step. *)
Definition major_ticks_for (fuel : nat) (step max_nt : Z) : option (list Z) :=
  match tick_loop fuel 0 step max_nt [] with
  | None => None
  | Some ticks => Some (fix_last_tick ticks step max_nt)
  end.

(** [compute_tick_layout].  The outer [option] is the fuel: [None] means
    the loops were still running when it ran out; [Some None] is Python's
    [None] (no layout). *)
Definition compute_tick_layout (fuel : nat) (m : t)
           (pixel_width target_px : Z)
  : option (option NavigationTickLayout) :=
  let max_nt := _cached_max_len m in
  if (max_nt <=? 0)%Z || (pixel_width <=? 0)%Z then Some None
  else
    let step := _nice_tick_step max_nt pixel_width target_px in
    let minor_step := Z.max (step / 5) 1 in
    match tick_loop fuel 0 minor_step max_nt [] with
    | None => None
    | Some minor =>
        match major_ticks_for fuel step max_nt with
        | None => None
        | Some major => Some (Some (mkLayout max_nt step major minor))
        end
    end.


(** The ticks from [nt] up by [step] that are at most [max_nt], as a
    list: what the tick loop is meant to append. *)
Definition grid (nt step max_nt : Z) : list Z :=
  map (fun i => (nt + Z.of_nat i * step)%Z)
      (seq 0 (Z.to_nat ((max_nt - nt) / step + 1))).

(** [NavigationRulerModel()] *)
Definition init : t := mk 0 0.

(** [recompute_max_len_if_needed]; the items are those of the viewer. *)
Definition recompute_max_len_if_needed (m : t)
           (sequence_items : list SequenceGraphicsItem.t) : t * Z :=
  let seq_count := Z.of_nat (List.length sequence_items) in
  let new_max_len :=
    match sequence_items with
    | [] => 0%Z
    | first :: others =>
        fold_left (fun acc it => Z.max acc (SequenceViewerView.item_len it))
                  others (SequenceViewerView.item_len first)
    end in
  let m' :=
    if negb (seq_count =? _last_seq_count m)%Z
       || negb (new_max_len =? _cached_max_len m)%Z
    then mk new_max_len seq_count
    else m in
  (m', _cached_max_len m').

(** Python's [str] of an integer. *)
Definition str (z : Z) : string := NilZero.string_of_int (Z.to_int z).

(** [format_label] *)
Definition format_label (m : t) (value : Z) : string :=
  let max_len := _cached_max_len m in
  if (value =? 1)%Z then "1"%string
  else if (max_len >? 1000000)%Z then
    let k_val := Float.round (inject_Z value / 1000.0) in
    (str k_val ++ "K")%string
  else str value.

(** [x_to_nt] *)
Definition x_to_nt (m : t) (x pixel_width : Z) : Q :=
  let max_len := _cached_max_len m in
  if (max_len <=? 0)%Z || (pixel_width <=? 0)%Z then 0.0
  else
    let ratio :=
      Float.min (Float.max (inject_Z x / inject_Z pixel_width) 0.0) 1.0 in
    ratio * inject_Z max_len.

End NavigationRulerModel.

(** The step selection in the words of the specification, one algorithm
    meant for both rulers: about ten labels over [visible_span]. *)
Module TickLayoutSpec.
Local Open Scope Q_scope.

Definition spec_nice (base : Q) : Z :=
  if Float.leb base 1.5 then 1
  else if Float.leb base 3 then 2
  else if Float.leb base 7 then 5
  else 10.

(** [raw_step = visible_span / 10]; step 1 when [raw_step <= 1], else
    [nice * power]. *)
Definition spec_candidate (visible_span : Z) : Z :=
  let raw_step := inject_Z visible_span / 10 in
  if Float.leb raw_step 1 then 1%Z
  else
    let power := 10 ^ Log10.floor_log10 raw_step in
    Float.to_int (inject_Z (spec_nice (raw_step / power)) * power).

(** The three span rules on top of the candidate; how a candidate is
    snapped onto the ladder 100K, 200K, 500K, 1M, ... is left to [snap]. *)
Definition spec_step (snap : Z -> Z) (visible_span : Z) : Z :=
  let candidate := spec_candidate visible_span in
  let candidate :=
    if (1000000 <=? visible_span)%Z then snap candidate
    else if (100000 <=? visible_span)%Z then Z.max candidate 10000
    else if (visible_span <=? 100)%Z then Z.min candidate 10
    else candidate in
  Z.max candidate 1.

End TickLayoutSpec.


(* ------------------------------------------------------------------ *)
(** ** graphics/sequence_item/sequence_glyph_cache.py *)
(* ------------------------------------------------------------------ *)

Module GlyphCache.
Local Open Scope Q_scope.

(** What [get_glyph] reads from a [QFont] and a [QColor]. *)
Record QFont : Type := mkFont {
  family : string;
  pointSizeF : Q;
  pointSize : Z;
  bold : bool;
  italic : bool
}.

Record QColor : Type := mkColor { red : Z; green : Z; blue : Z }.

(** The key tuple. *)
Definition key : Type := (string * string * Z * bool * bool * Z * Z * Z)%type.

Definition key_eqb (a b : key) : bool :=
  let '(c1, f1, s1, b1, i1, r1, g1, u1) := a in
  let '(c2, f2, s2, b2, i2, r2, g2, u2) := b in
  String.eqb c1 c2 && String.eqb f1 f2 && (s1 =? s2)%Z && Bool.eqb b1 b2
  && Bool.eqb i1 i2 && (r1 =? r2)%Z && (g1 =? g2)%Z && (u1 =? u2)%Z.

(** [font.pointSizeF() or font.pointSize()], rounded. *)
Definition key_size (font : QFont) : Z :=
  if Qeq_bool (pointSizeF font) 0
  then Float.round (inject_Z (pointSize font))
  else Float.round (pointSizeF font).

Definition key_of (ch : string) (font : QFont) (color : QColor) : key :=
  (ch, family font, key_size font, bold font, italic font,
   red color, green color, blue color).

Section Cache.

(** The pixmaps and the painting of one, which are Qt's. *)
Variable QPixmap : Type.
Variable render : string -> QFont -> QColor -> QPixmap.

(** The dict [_cache], newest entry first. *)
Definition t : Type := list (key * QPixmap).

Definition init : t := [].

(** [self._cache.get(key)] *)
Fixpoint get (cache : t) (k : key) : option QPixmap :=
  match cache with
  | [] => None
  | (k', pm) :: rest => if key_eqb k' k then Some pm else get rest k
  end.

(** [get_glyph]: the cache afterwards, the pixmap returned, and whether a
    pixmap was painted for this call. *)
Definition get_glyph (cache : t) (ch : string) (font : QFont) (color : QColor)
  : t * QPixmap * bool :=
  let k := key_of ch font color in
  match get cache k with
  | Some pm => (cache, pm, false)
  | None =>
      let pm := render ch font color in
      ((k, pm) :: cache, pm, true)
  end.

End Cache.

End GlyphCache.

(* ------------------------------------------------------------------ *)
(** ** Concrete inputs the properties are evaluated at *)
(* ------------------------------------------------------------------ *)

Module Inputs.
Local Open Scope Q_scope.

(** A row of [n] copies of the base A. *)
Fixpoint row_of (n : nat) : string :=
  match n with
  | O => EmptyString
  | S n' => String "A"%char (row_of n')
  end.

(** One row of 1000 columns, pressed at column 500 of row 0. *)
Definition pressed_model : SequenceViewerModel.t :=
  fst (SequenceViewerModel.start_selection
         (fst (SequenceViewerModel.add_sequence SequenceViewerModel.init
                 (row_of 1000)))
         0 500).

(** A row item created while the view is zoomed far out, so that its base
    width is the floor 0.001. *)
Definition far_out_item : SequenceItemModel.t :=
  SequenceItemModel.init "ACGT" 0.001 18.

(** A row item at the default width 12. *)
Definition default_item : SequenceItemModel.t :=
  SequenceItemModel.init "ACGT" 12.0 18.0.

(** [math.pow] at whole exponents, which is all the whole-notch inputs
    below ask of it. *)
Definition whole_pow (x y : Q) : Q := x ^ Qfloor y.

(** A scroll range as Qt derives it: what of the scene does not fit the
    viewport. *)
Definition scene_overhang (scene_width : Q) (viewport_width : Z) : Z :=
  Z.max 0 (Qceiling scene_width - viewport_width).

(** A canvas 500 px wide at the default width 12 with one row of 1000
    columns. *)
Definition canvas_1000 : SequenceViewerView.t :=
  SequenceViewerView.add_sequence_item scene_overhang
    (SequenceViewerView.init 12.0 18.0 500) (row_of 1000).

(** The same canvas scrolled to pixel 400. *)
Definition canvas_1000_at_400 : SequenceViewerView.t :=
  SequenceViewerView.with_hbar canvas_1000
    (QScrollBar.setValue (SequenceViewerView.hbar canvas_1000) 400).

(** The store matching the canvas, nothing selected. *)
Definition store_1000 : SequenceViewerModel.t :=
  fst (SequenceViewerModel.add_sequence SequenceViewerModel.init
         (row_of 1000)).

(** One notch toward the user with Ctrl held, pointer at x = 100:
    zoom out. *)
Definition ctrl_notch_out : SequenceViewerController.QWheelEvent :=
  SequenceViewerController.mkWheel true (-120) 100.

(** One notch away from the user with Ctrl held, pointer at x = 100:
    zoom in. *)
Definition ctrl_notch_in : SequenceViewerController.QWheelEvent :=
  SequenceViewerController.mkWheel true 120 100.

(** The canvas scrolled to pixel 400 right after the zoom-in notch: the
    animation from 12 toward 14.64 has started. *)
Definition zoom_in_started : SequenceViewerView.t :=
  snd (SequenceViewerController.handle_wheel_event whole_pow scene_overhang
         SequenceViewerController.init store_1000 canvas_1000_at_400
         ctrl_notch_in).

(** The content position under the pointer at that notch:
    (400 + 100) / 12. *)
Definition pointer_pivot : Q := 5000 # 120.

(** The controller in the middle of a drag. *)
Definition dragging : SequenceViewerController.t :=
  SequenceViewerController.with_selecting SequenceViewerController.init true.

(** A left press at the scene point (66, 5): with columns 12 px wide and
    rows 18 px tall, row 0 and column 5. *)
Definition press_in_cell : SequenceViewerController.QMouseEvent :=
  SequenceViewerController.mkMouse true 66 5.

(** A left press at the scene point (66, 40): row 2, column 5. *)
Definition press_below_rows : SequenceViewerController.QMouseEvent :=
  SequenceViewerController.mkMouse true 66 40.

(** The left button at the scene point (30, 5): row 0, column 2. *)
Definition drag_to_col_2 : SequenceViewerController.QMouseEvent :=
  SequenceViewerController.mkMouse true 30 5.

(** A minimap that has cached one row of 1000 columns. *)
Definition minimap_1000 : NavigationRulerModel.t :=
  NavigationRulerModel.mk 1000 1.

(** The position ruler over 1000 columns at width 12, the view 500 px wide
    from pixel 400. *)
Definition ruler_1000 : PositionRulerModel.t :=
  PositionRulerModel.set_state PositionRulerModel.init 1000 400 500 12 None.

End Inputs.
(* ================================================================== *)
(** * Properties *)
(* ================================================================== *)

(* ------------------------------------------------------------------ *)
(** ** SequenceStore: the longest-row cache *)
(* ------------------------------------------------------------------ *)

Module StoreFacts.
Import SequenceViewerModel.

Lemma len_nonneg (s : string) : 0 <= len s.
Proof. unfold len. lia. Qed.

Lemma max_len_of_nonneg (seqs : list string) : 0 <= max_len_of seqs.
Proof.
  induction seqs as [|s seqs IH]; simpl; [lia|].
  pose proof (len_nonneg s). lia.
Qed.

Lemma max_len_of_snoc (seqs : list string) (s : string) :
  max_len_of (seqs ++ [s]) = Z.max (max_len_of seqs) (len s).
Proof.
  induction seqs as [|x seqs IH]; simpl.
  - pose proof (len_nonneg s). lia.
  - rewrite IH. lia.
Qed.

Lemma cache_ok_init : cache_ok init.
Proof. reflexivity. Qed.

Lemma cache_ok_add (m : t) (s : string) :
  cache_ok m -> cache_ok (fst (add_sequence m s)).
Proof.
  unfold cache_ok, add_sequence. cbn [fst max_sequence_length _sequences].
  intros ->. rewrite max_len_of_snoc.
  destruct (len s >? max_len_of (_sequences m)) eqn:E; lia.
Qed.

Lemma cache_ok_clear (m : t) : cache_ok (clear_sequences m).
Proof. reflexivity. Qed.

Lemma cache_ok_run_from (cs : list store_call) (m : t) :
  cache_ok m -> cache_ok (fold_left run_call cs m).
Proof.
  revert m. induction cs as [|c cs IH]; intros m Hm; cbn [fold_left].
  - exact Hm.
  - apply IH. destruct c; cbn [run_call].
    + now apply cache_ok_add.
    + apply cache_ok_clear.
Qed.

Lemma nth_error_snoc_last {A : Type} (l : list A) (x : A) :
  nth_error (l ++ [x]) (List.length l) = Some x.
Proof.
  induction l as [|y l IH]; [reflexivity | exact IH].
Qed.

(** C10.  After any sequence of [add_sequence] and [clear_sequences] calls
    on a fresh model, [max_sequence_length] is the maximum of the lengths of
    the stored sequences (0 when none is stored), and [add_sequence] returns
    the previous row count, which is the index the new row is stored at. *)
Theorem longest_row_cache_invariant :
  forall cs : list store_call,
    let m := run_calls cs in
    max_sequence_length m = max_len_of (_sequences m) /\
    (_sequences m = [] -> max_sequence_length m = 0) /\
    forall s : string,
      snd (add_sequence m s) = get_row_count m /\
      nth_error (_sequences (fst (add_sequence m s)))
                (Z.to_nat (snd (add_sequence m s))) = Some s /\
      get_row_count (fst (add_sequence m s)) = get_row_count m + 1.
Proof.
  intros cs m.
  assert (Hm : cache_ok m) by (apply cache_ok_run_from, cache_ok_init).
  split; [exact Hm|]. split.
  - intros E. unfold cache_ok in Hm. rewrite Hm, E. reflexivity.
  - intros s. unfold add_sequence, get_row_count.
    cbn [fst snd _sequences]. rewrite length_app. cbn [List.length].
    repeat split; try lia.
    replace (Z.to_nat (Z.of_nat (List.length (_sequences m) + 1) - 1))
      with (List.length (_sequences m)) by lia.
    apply nth_error_snoc_last.
Qed.

End StoreFacts.

(* ------------------------------------------------------------------ *)
(** ** SelectionModel *)
(* ------------------------------------------------------------------ *)

Module SelectionFacts.
Import SequenceViewerModel.

(** The anchor stays well-formed under every method of the model. *)
Lemma anchor_ok_init : anchor_ok init.
Proof. split; intros ? H; discriminate H. Qed.

Lemma anchor_ok_clear_selection (m : t) : anchor_ok (clear_selection m).
Proof. split; intros ? H; discriminate H. Qed.

Lemma anchor_ok_clear_sequences (m : t) : anchor_ok (clear_sequences m).
Proof. split; intros ? H; discriminate H. Qed.

Lemma anchor_ok_add (m : t) (s : string) :
  anchor_ok m -> anchor_ok (fst (add_sequence m s)).
Proof.
  intros [Hr Hc]. unfold anchor_ok, add_sequence, get_row_count in *.
  cbn [fst selection_start_row selection_start_col _sequences].
  split; [|exact Hc].
  intros r E. specialize (Hr r E).
  rewrite length_app. cbn [List.length]. lia.
Qed.

Lemma anchor_ok_start (m : t) (row col : Z) :
  anchor_ok (fst (start_selection m row col)).
Proof.
  unfold start_selection.
  destruct (get_row_count m =? 0); [apply anchor_ok_clear_selection|].
  destruct ((row <? 0) || (row >=? get_row_count m) || (col <? 0)) eqn:E;
    [apply anchor_ok_clear_selection|].
  apply orb_false_elim in E as [E E3]. apply orb_false_elim in E as [E1 E2].
  unfold anchor_ok, get_row_count in *.
  cbn [fst selection_start_row selection_start_col _sequences].
  split; intros ? H; injection H as <-; lia.
Qed.

Lemma anchor_ok_update (m : t) (row col : Z) :
  anchor_ok m -> anchor_ok (fst (update_selection m row col)).
Proof.
  intros Hm. unfold update_selection.
  destruct (selection_start_row m) eqn:Er; [|exact Hm].
  destruct (selection_start_col m) eqn:Ec; [|exact Hm].
  destruct (_clamp_column_index m z0); [|apply anchor_ok_clear_selection].
  destruct (_clamp_column_index m col); [|apply anchor_ok_clear_selection].
  destruct (get_row_count m =? 0); [apply anchor_ok_clear_selection|].
  unfold anchor_ok in *.
  cbn [fst selection_start_row selection_start_col].
  rewrite Er, Ec in *. exact Hm.
Qed.

(** C6.  [start_selection row col] reports success exactly when the content
    has at least one row, [0 <= row < row_count] and [col >= 0]; on success
    the anchor is recorded; in every other case the selection is cleared and
    failure is reported.  The method is a total function: no input raises. *)
Theorem start_selection_succeeds_iff :
  forall (m : t) (row col : Z),
    let m' := fst (start_selection m row col) in
    let ok := snd (start_selection m row col) in
    (ok = true <->
       1 <= get_row_count m /\ 0 <= row < get_row_count m /\ 0 <= col) /\
    (ok = true ->
       selection_start_row m' = Some row /\
       selection_start_col m' = Some col /\
       _sequences m' = _sequences m) /\
    (ok = false ->
       m' = clear_selection m /\
       selection_start_row m' = None /\ selection_start_col m' = None /\
       current_selection_cols m' = None).
Proof.
  intros m row col. unfold start_selection.
  destruct (get_row_count m =? 0) eqn:E0.
  - cbn. repeat split; try discriminate; intros; lia.
  - destruct ((row <? 0) || (row >=? get_row_count m) || (col <? 0)) eqn:E.
    + cbn. repeat split; try discriminate.
      intros (H1 & H2 & H3).
      apply orb_true_iff in E as [E|E]; [apply orb_true_iff in E as [E|E]|];
        lia.
    + cbn. apply orb_false_elim in E as [E E3].
      apply orb_false_elim in E as [E1 E2].
      pose proof (Zle_0_nat (List.length (_sequences m))) as Hn.
      unfold get_row_count in *.
      repeat split; try discriminate; try lia.
Qed.

(** C5.  With an anchor present (its row inside the rows): when the content
    is non-empty, [update_selection row col] returns the range whose rows
    are the min/max of anchor row and current row bounded to
    [0, row_count-1] and whose columns are the min/max of the anchor and
    current columns, each bounded to [0, max_length-1] (an anchor column
    inside the content is left as it is); the range is normalized and
    inside the content, and the column range is stored.
    When the content has zero length the call clears the selection and
    returns no range. *)
Theorem update_selection_normalized :
  forall (m : t) (row col anchor_row anchor_col : Z),
    selection_start_row m = Some anchor_row ->
    selection_start_col m = Some anchor_col ->
    anchor_ok m ->
    (0 < max_sequence_length m ->
     let clamp c := Z.max 0 (Z.min c (max_sequence_length m - 1)) in
     let row_start := Z.max 0 (Z.min anchor_row row) in
     let row_end := Z.min (get_row_count m - 1) (Z.max anchor_row row) in
     let col_start := Z.min (clamp anchor_col) (clamp col) in
     let col_end := Z.max (clamp anchor_col) (clamp col) in
     snd (update_selection m row col)
       = Some (row_start, row_end, col_start, col_end) /\
     current_selection_cols (fst (update_selection m row col))
       = Some (col_start, col_end) /\
     0 <= clamp col <= max_sequence_length m - 1 /\
     (anchor_col <= max_sequence_length m - 1 ->
      col_start = Z.min anchor_col (clamp col) /\
      col_end = Z.max anchor_col (clamp col)) /\
     0 <= row_start <= row_end /\ row_end <= get_row_count m - 1 /\
     0 <= col_start <= col_end /\ col_end <= max_sequence_length m - 1) /\
    (max_sequence_length m <= 0 ->
     update_selection m row col = (clear_selection m, None)).
Proof.
  intros m row col ar ac Hr Hc [Hrow Hcol].
  specialize (Hrow ar Hr). specialize (Hcol ac Hc).
  unfold update_selection, _clamp_column_index. rewrite Hr, Hc.
  split.
  - intros Hlen.
    destruct (max_sequence_length m <=? 0) eqn:E; [lia|].
    destruct (get_row_count m =? 0) eqn:E0; [lia|].
    cbn zeta. cbn [fst snd current_selection_cols].
    match goal with
    | |- context [if ?b then Some ?p else None] =>
        replace b with true by (symmetry; apply andb_true_iff; lia)
    end.
    repeat split; lia.
  - intros Hlen.
    destruct (max_sequence_length m <=? 0) eqn:E; [reflexivity|lia].
Qed.

End SelectionFacts.

(* ------------------------------------------------------------------ *)
(** ** LODPolicy: the override *)
(* ------------------------------------------------------------------ *)

Module LodOverrideFacts.
Import SequenceItemModel.

(** C7.  The effective mode is the coarser of the zoom-derived mode and the
    override under the rank Text > Box > Line: it is one of the two, its
    rank is the smaller of their ranks, so it is never finer than the
    zoom-derived mode; with no override it is the zoom-derived mode. *)
Theorem effective_mode_is_coarser_of_two :
  forall m : t,
    (rank (get_effective_mode m) <= rank (display_mode m))%Z /\
    match _lod_max_mode m with
    | None => get_effective_mode m = display_mode m
    | Some override =>
        rank (get_effective_mode m)
          = Z.min (rank (display_mode m)) (rank override) /\
        (get_effective_mode m = display_mode m \/
         get_effective_mode m = override)
    end.
Proof.
  intros m. unfold get_effective_mode.
  destruct (_lod_max_mode m) as [o|]; [|split; [lia|reflexivity]].
  destruct (display_mode m), o; cbn; repeat split; try lia; auto.
Qed.

(** The three tags are told apart. *)
Lemma mode_of_tag_tag (md : mode) : mode_of_tag (mode_tag md) = Some md.
Proof. destruct md; reflexivity. Qed.

(** A known tag sets the override. *)
Lemma set_lod_max_mode_known_tag (m : t) (md : mode) :
  _lod_max_mode (set_lod_max_mode m (Some (mode_tag md))) = Some md.
Proof. unfold set_lod_max_mode. rewrite mode_of_tag_tag. reflexivity. Qed.

(** The override only ever holds one of the three modes: an unknown tag is
    ignored by [set_lod_max_mode]. *)
Lemma set_lod_max_mode_unknown_tag (m : t) (tag : string) :
  mode_of_tag tag = None -> set_lod_max_mode m (Some tag) = m.
Proof. intros E. unfold set_lod_max_mode. now rewrite E. Qed.

End LodOverrideFacts.

(* ------------------------------------------------------------------ *)
(** ** Comparisons on the rationals that stand for floats *)
(* ------------------------------------------------------------------ *)

Module FloatFacts.
Local Open Scope Q_scope.

Lemma leb_true (a b : Q) : Float.leb a b = true <-> a <= b.
Proof. apply Qle_bool_iff. Qed.

Lemma leb_false (a b : Q) : Float.leb a b = false <-> b < a.
Proof.
  unfold Float.leb. split; intros H.
  - apply Qnot_le_lt. intros Hle. apply Qle_bool_iff in Hle. congruence.
  - destruct (Qle_bool a b) eqn:E; [|reflexivity].
    apply Qle_bool_iff in E. lra.
Qed.

Lemma geb_true (a b : Q) : Float.geb a b = true <-> b <= a.
Proof. apply leb_true. Qed.

Lemma geb_false (a b : Q) : Float.geb a b = false <-> a < b.
Proof. apply leb_false. Qed.

Lemma ltb_true (a b : Q) : Float.ltb a b = true <-> a < b.
Proof.
  unfold Float.ltb. rewrite negb_true_iff. apply (leb_false b a).
Qed.

Lemma ltb_false (a b : Q) : Float.ltb a b = false <-> b <= a.
Proof.
  unfold Float.ltb. rewrite negb_false_iff. apply (leb_true b a).
Qed.

Lemma gtb_true (a b : Q) : Float.gtb a b = true <-> b < a.
Proof. apply (ltb_true b a). Qed.

Lemma gtb_false (a b : Q) : Float.gtb a b = false <-> a <= b.
Proof. apply (ltb_false b a). Qed.

(** Case analysis on every float comparison in sight, each outcome left as
    an order fact for [lra]. *)
Ltac float_cases :=
  repeat match goal with
  | |- context [Float.leb ?a ?b] =>
      let E := fresh "E" in
      destruct (Float.leb a b) eqn:E;
      [apply leb_true in E | apply leb_false in E]
  | |- context [Float.geb ?a ?b] =>
      let E := fresh "E" in
      destruct (Float.geb a b) eqn:E;
      [apply geb_true in E | apply geb_false in E]
  | |- context [Float.ltb ?a ?b] =>
      let E := fresh "E" in
      destruct (Float.ltb a b) eqn:E;
      [apply ltb_true in E | apply ltb_false in E]
  | |- context [Float.gtb ?a ?b] =>
      let E := fresh "E" in
      destruct (Float.gtb a b) eqn:E;
      [apply gtb_true in E | apply gtb_false in E]
  end.

Lemma max_spec (a b : Q) :
  (a < b /\ Float.max a b = b) \/ (b <= a /\ Float.max a b = a).
Proof. unfold Float.max. float_cases; auto. Qed.

Lemma min_spec (a b : Q) :
  (b < a /\ Float.min a b = b) \/ (a <= b /\ Float.min a b = a).
Proof. unfold Float.min. float_cases; auto. Qed.

Lemma max_lub (a b : Q) : a <= Float.max a b /\ b <= Float.max a b.
Proof. destruct (max_spec a b) as [[H ->]|[H ->]]; lra. Qed.

Lemma max_absorb (a b : Q) : Float.max (Float.max a b) b = Float.max a b.
Proof.
  destruct (max_spec a b) as [[H E]|[H E]]; rewrite E.
  - unfold Float.max. float_cases; reflexivity.
  - exact E.
Qed.

(** [round] lands within half a unit. *)
Lemma round_near (x : Q) : Qabs (inject_Z (Float.round x) - x) <= 1 # 2.
Proof.
  pose proof (Qfloor_le x) as Hlo. pose proof (Qlt_floor x) as Hhi.
  rewrite inject_Z_plus in Hhi. change (inject_Z 1) with 1 in Hhi.
  apply Qabs_Qle_condition. unfold Float.round.
  float_cases; try (destruct (Z.even (Qfloor x)));
    rewrite ?inject_Z_plus; change (inject_Z 1) with 1; lra.
Qed.

End FloatFacts.

(* ------------------------------------------------------------------ *)
(** ** SelectionModel: the drag scenario *)
(* ------------------------------------------------------------------ *)

Module SelectionScenario.
Import SequenceViewerModel.

(** Press at column 500 of a 1000-column row, drag to column 200: the
    column range is (200, 500). *)
Lemma update_selection_normalized_witness :
  selection_start_row Inputs.pressed_model = Some 0 /\
  selection_start_col Inputs.pressed_model = Some 500 /\
  anchor_ok Inputs.pressed_model /\
  0 < max_sequence_length Inputs.pressed_model /\
  snd (update_selection Inputs.pressed_model 0 200) = Some (0, 0, 200, 500).
Proof.
  assert (Hr : selection_start_row Inputs.pressed_model = Some 0)
    by reflexivity.
  assert (Hc : selection_start_col Inputs.pressed_model = Some 500)
    by reflexivity.
  assert (Hok : anchor_ok Inputs.pressed_model)
    by (split; intros ? H; vm_compute in H; injection H as <-; vm_compute;
        try split; congruence).
  assert (Hlen : 0 < max_sequence_length Inputs.pressed_model) by reflexivity.
  split; [exact Hr|]. split; [exact Hc|]. split; [exact Hok|].
  split; [exact Hlen|].
  exact (proj1 (proj1 (SelectionFacts.update_selection_normalized
                           Inputs.pressed_model 0 200 0 500 Hr Hc Hok)
                        Hlen)).
Defined.

End SelectionScenario.

(* ------------------------------------------------------------------ *)
(** ** LODPolicy: font size and mode *)
(* ------------------------------------------------------------------ *)

Module LodFacts.
Import SequenceItemModel FloatFacts.
Local Open Scope Q_scope.

(** The scale [_update_display_state] works with after [set_char_width]. *)
Lemma set_char_width_font (m : t) (cw : Q) :
  0 < default_char_width m ->
  current_font_size (set_char_width m cw)
    = snapped_size (base_font_size m)
        (Float.max cw 0.001 / Float.max (default_char_width m) 0.001).
Proof.
  intros Hb. unfold set_char_width, _update_display_state, with_char_width.
  cbn [current_font_size char_width default_char_width base_font_size].
  rewrite max_absorb.
  destruct (Float.leb (default_char_width m) 0) eqn:E;
    [apply leb_true in E; lra | reflexivity].
Qed.

Lemma set_char_width_mode (m : t) (cw : Q) :
  display_mode (set_char_width m cw)
    = mode_of_font_size (current_font_size (set_char_width m cw)).
Proof. reflexivity. Qed.

Lemma snapped_size_tiers (base_font scale : Q) :
  (1.8 <= scale -> snapped_size base_font scale == 12) /\
  (1.2 <= scale < 1.8 -> snapped_size base_font scale == 10) /\
  (0.7 <= scale < 1.2 -> snapped_size base_font scale == 8) /\
  (scale < 0.7 ->
   snapped_size base_font scale = Float.max 1.0 (base_font * scale) /\
   1 <= snapped_size base_font scale /\
   base_font * scale <= snapped_size base_font scale).
Proof.
  pose proof (max_lub 1.0 (base_font * scale)) as [L1 L2].
  unfold snapped_size. float_cases; repeat split; intros; try lra;
    try reflexivity.
Qed.

Lemma mode_of_font_size_tiers (size : Q) :
  (mode_of_font_size size = TEXT_MODE <-> 8 <= size) /\
  (mode_of_font_size size = BOX_MODE <-> 5 <= size < 8) /\
  (mode_of_font_size size = LINE_MODE <-> size < 5).
Proof.
  unfold mode_of_font_size, _TEXT_BOX_THRESHOLD, _BOX_LINE_THRESHOLD.
  float_cases; repeat split; intros; try discriminate; try lra;
    try reflexivity.
Qed.

(** C3, as the code has it.  Both widths are first raised to at least
    0.001, so [scale = max(char_width, 0.001) / max(base_char_width, 0.001)]
    (the plain quotient whenever both are at least 0.001).  With that
    scale the font size is 12 for [scale >= 1.8], 10 for
    [1.2 <= scale < 1.8], 8 for [0.7 <= scale < 1.2] and
    [max(1, base_font_size * scale)] below; the mode is Text iff the size
    is at least 8, Box iff it is in [5, 8), Line otherwise; size 8.0 gives
    Text and 7.999 gives Box. *)
Theorem lod_policy_with_width_floor :
  forall (m : t) (cw : Q),
    0 < default_char_width m ->
    let m' := set_char_width m cw in
    let scale := Float.max cw 0.001 / Float.max (default_char_width m) 0.001 in
    let size := current_font_size m' in
    (0.001 <= cw -> 0.001 <= default_char_width m ->
     scale = spec_scale cw (default_char_width m)) /\
    (1.8 <= scale -> size == 12) /\
    (1.2 <= scale < 1.8 -> size == 10) /\
    (0.7 <= scale < 1.2 -> size == 8) /\
    (scale < 0.7 ->
     size = Float.max 1.0 (base_font_size m * scale) /\
     1 <= size /\ base_font_size m * scale <= size) /\
    (display_mode m' = TEXT_MODE <-> 8 <= size) /\
    (display_mode m' = BOX_MODE <-> 5 <= size < 8) /\
    (display_mode m' = LINE_MODE <-> size < 5) /\
    mode_of_font_size 8.0 = TEXT_MODE /\
    mode_of_font_size 7.999 = BOX_MODE.
Proof.
  intros m cw Hb m' scale size.
  assert (Hsize : size = snapped_size (base_font_size m) scale)
    by (apply set_char_width_font; exact Hb).
  pose proof (snapped_size_tiers (base_font_size m) scale)
    as (T1 & T2 & T3 & T4).
  pose proof (mode_of_font_size_tiers size) as (M1 & M2 & M3).
  rewrite <- Hsize in T1, T2, T3, T4.
  split.
  - intros H1 H2. unfold scale, spec_scale.
    destruct (max_spec cw 0.001) as [[H ->]|[H ->]]; [lra|].
    destruct (max_spec (default_char_width m) 0.001) as [[H' ->]|[H' ->]];
      [lra | reflexivity].
  - split; [exact T1|]. split; [exact T2|]. split; [exact T3|].
    split; [exact T4|]. split; [exact M1|]. split; [exact M2|].
    split; [exact M3|]. split; reflexivity.
Qed.

(** At the default width 12, a width of 24 doubles the scale: 12pt, Text. *)
Lemma lod_policy_with_width_floor_witness :
  0 < default_char_width Inputs.default_item /\
  current_font_size (set_char_width Inputs.default_item 24) == 12.
Proof.
  assert (Hb : 0 < default_char_width Inputs.default_item) by reflexivity.
  split; [exact Hb|].
  apply (proj1 (proj2 (lod_policy_with_width_floor Inputs.default_item 24 Hb))).
  vm_compute. discriminate.
Defined.

(** C3 as stated fails below the floor: for a row whose base width is
    0.001, the width 0.0005 has quotient 0.5, for which the stated ladder
    gives [max(1, 10.8 * 0.5) = 5.4] and Box; the code raises the width to
    0.001, works with scale 1 and yields 8pt and Text. *)
Lemma lod_policy_plain_quotient_fails :
  ~ (forall (m : t) (cw : Q),
       0 < cw -> 0 < default_char_width m ->
       let scale := spec_scale cw (default_char_width m) in
       current_font_size (set_char_width m cw)
         == spec_font_size (base_font_size m) scale /\
       (display_mode (set_char_width m cw) = BOX_MODE <->
        5 <= spec_font_size (base_font_size m) scale < 8)).
Proof.
  intros H.
  destruct (H Inputs.far_out_item 0.0005) as [Hsize _];
    [reflexivity | reflexivity |].
  vm_compute in Hsize. discriminate.
Qed.

End LodFacts.

(* ------------------------------------------------------------------ *)
(** ** ZoomController: wheel input *)
(* ------------------------------------------------------------------ *)

Module WheelFacts.
Import SequenceViewerController FloatFacts.
Local Open Scope Q_scope.

Section Wheel.

Variable pow : Q -> Q -> Q.
Variable qt_hbar_maximum : Q -> Z -> Z.

(** C9.  A wheel event without the zoom modifier is declined by
    [handle_wheel_event]: the view's [wheelEvent] passes the very same event
    on to the ordinary scroll handling, and the controller (its streak
    included) and the view (its char_width included) are as before. *)
Theorem wheel_without_modifier_is_scroll :
  forall (c : t) (model : SequenceViewerModel.t) (view : SequenceViewerView.t)
         (delta x : Z),
    let event := mkWheel false delta x in
    handle_wheel_event pow qt_hbar_maximum c model view event
      = (false, c, view) /\
    wheelEvent pow qt_hbar_maximum (Some c) model view event
      = (SuperWheelEvent event, Some c, view) /\
    wheelEvent pow qt_hbar_maximum None model view event
      = (SuperWheelEvent event, None, view).
Proof. intros. repeat split. Qed.

Lemma bump_streak_factors (c : t) (direction : Z) :
  _wheel_zoom_base_factor (bump_streak c direction)
    = _wheel_zoom_base_factor c /\
  _wheel_zoom_accel_factor (bump_streak c direction)
    = _wheel_zoom_accel_factor c.
Proof.
  unfold bump_streak. destruct (_wheel_zoom_streak_dir c) as [d|];
    [destruct (d =? direction)%Z|]; split; reflexivity.
Qed.

Lemma bump_streak_len (c : t) (direction : Z) :
  (0 <= _wheel_zoom_streak_len c)%Z ->
  (1 <= _wheel_zoom_streak_len (bump_streak c direction))%Z /\
  _wheel_zoom_streak_len (bump_streak c direction)
    = (if match _wheel_zoom_streak_dir c with
          | Some d => (d =? direction)%Z
          | None => false
          end
       then _wheel_zoom_streak_len c + 1 else 1)%Z.
Proof.
  intros H. unfold bump_streak. destruct (_wheel_zoom_streak_dir c) as [d|];
    [destruct (d =? direction)%Z|]; cbn; split; lia.
Qed.

Lemma div_nonpos (a b : Q) : a <= 0 -> 0 < b -> a / b <= 0.
Proof.
  intros Ha Hb. unfold Qdiv.
  assert (0 < / b) by (apply Qinv_lt_0_compat; exact Hb).
  nra.
Qed.

(** [compute_min_char_width] on a canvas with content and a viewport. *)
Lemma compute_min_char_width_formula (view : SequenceViewerView.t) :
  SequenceViewerView.sequence_items view <> [] ->
  (0 < SequenceViewerView.max_sequence_length view)%Z ->
  (0 < SequenceViewerView.viewport_width view)%Z ->
  let trailing_padding_px :=
    Float.max (SequenceViewerView.trailing_padding_line_px view)
              (SequenceViewerView._current_trailing_padding view) in
  SequenceViewerView.compute_min_char_width view
    = Float.max ((inject_Z (SequenceViewerView.viewport_width view)
                  - trailing_padding_px)
                 / inject_Z (SequenceViewerView.max_sequence_length view))
                0.000001.
Proof.
  intros Hitems Hlen Hvp pad.
  unfold SequenceViewerView.compute_min_char_width.
  destruct (SequenceViewerView.sequence_items view) eqn:Ei; [congruence|].
  destruct (SequenceViewerView.max_sequence_length view <=? 0)%Z eqn:E1;
    [lia|].
  destruct (SequenceViewerView.viewport_width view <=? 0)%Z eqn:E2; [lia|].
  fold pad.
  destruct (Float.leb (inject_Z (SequenceViewerView.viewport_width view) - pad)
                      0) eqn:E3; [|reflexivity].
  apply leb_true in E3.
  assert (Hq : (inject_Z (SequenceViewerView.viewport_width view) - pad)
               / inject_Z (SequenceViewerView.max_sequence_length view) <= 0).
  { apply div_nonpos; [exact E3|].
    change 0 with (inject_Z 0). rewrite <- Zlt_Qlt. exact Hlen. }
  unfold Float.max.
  match goal with
  | |- _ = (if Float.ltb ?a ?b then _ else _) =>
      replace (Float.ltb a b) with true; [reflexivity|]
  end.
  symmetry. apply ltb_true. lra.
Qed.

Lemma steps_sign (delta : Z) :
  (0 < steps_of delta <-> (0 < delta)%Z) /\
  (steps_of delta <= 0 <-> (delta <= 0)%Z).
Proof.
  assert (E : steps_of delta == inject_Z delta * (1 # 120))
    by (unfold steps_of; field).
  rewrite E. rewrite Zlt_Qlt, Zle_Qle. change (inject_Z 0) with 0.
  split; split; intros H; lra.
Qed.

Lemma direction_of_steps (delta : Z) :
  direction_of (steps_of delta) = (if (0 <? delta)%Z then 1 else -1)%Z.
Proof.
  unfold direction_of.
  destruct (steps_sign delta) as [Hpos Hneg].
  destruct (0 <? delta)%Z eqn:Ed.
  - replace (Float.gtb (steps_of delta) 0) with true; [reflexivity|].
    symmetry. apply gtb_true. apply Hpos. lia.
  - replace (Float.gtb (steps_of delta) 0) with false; [reflexivity|].
    symmetry. apply gtb_false. apply Hneg. lia.
Qed.

Lemma handle_wheel_event_controller
      (c : t) (model : SequenceViewerModel.t) (view : SequenceViewerView.t)
      (delta x : Z) :
  delta <> 0%Z ->
  SequenceViewerView.sequence_items view <> [] ->
  snd (fst (handle_wheel_event pow qt_hbar_maximum c model view
              (mkWheel true delta x)))
    = bump_streak c (direction_of (steps_of delta)).
Proof.
  intros Hd Hitems. unfold handle_wheel_event.
  cbn [control_modifier angle_delta_y pos_x negb].
  destruct (delta =? 0)%Z eqn:E0; [lia|].
  destruct (SequenceViewerView.sequence_items view) eqn:Ei; [congruence|].
  cbv zeta.
  repeat match goal with
  | |- context [if ?b then _ else _] => destruct b
  end; reflexivity.
Qed.

(** What [math.pow] is asked to satisfy where whole notches are concerned:
    it respects equality of rationals and is the integer power at whole
    exponents. *)
Hypothesis pow_proper :
  forall x x' y y' : Q, x == x' -> y == y' -> pow x y == pow x' y'.
Hypothesis pow_whole :
  forall (x : Q) (n : Z), (0 <= n)%Z -> pow x (inject_Z n) == x ^ n.

(** C4.  A wheel event with the zoom modifier held, [delta <> 0], on a
    canvas with content: with [k] the streak length counting this event
    and [steps = delta / 120], the handler takes the event and the target it
    leaves in the animation is
    [current * factor] bounded below by [min_char_width] and above by 90,
    where [factor] is [(1.22 * 1.06^(k-1))^|steps|] when zooming in and its
    reciprocal when zooming out (for whole notches the powers are the
    integer powers), and [min_char_width] is
    [max((viewport_px - trailing_padding_px) / max_content_length, 1e-6)]
    with the larger of the Line-mode and current-mode pad.  A target closer
    than 0.0001 to the current width starts nothing. *)
Theorem wheel_zoom_target :
  forall (c : t) (model : SequenceViewerModel.t) (view : SequenceViewerView.t)
         (delta x : Z),
    delta <> 0%Z ->
    SequenceViewerView.sequence_items view <> [] ->
    (0 < SequenceViewerView.viewport_width view)%Z ->
    (0 < SequenceViewerView.max_sequence_length view)%Z ->
    0 < SequenceViewerView.current_char_width view ->
    (0 <= _wheel_zoom_streak_len c)%Z ->
    _wheel_zoom_base_factor c = 1.22 ->
    _wheel_zoom_accel_factor c = 1.06 ->
    let event := mkWheel true delta x in
    let r := handle_wheel_event pow qt_hbar_maximum c model view event in
    let c' := snd (fst r) in
    let view' := snd r in
    let k := _wheel_zoom_streak_len c' in
    let steps := inject_Z delta / 120.0 in
    let current := SequenceViewerView.current_char_width view in
    let per_notch := 1.22 * pow 1.06 (inject_Z (k - 1)) in
    let magnitude := pow per_notch (Qabs steps) in
    let factor := if (0 <? delta)%Z then magnitude else 1.0 / magnitude in
    let trailing_padding_px :=
      Float.max (SequenceViewerView.trailing_padding_line_px view)
                (SequenceViewerView._current_trailing_padding view) in
    let min_char_width :=
      Float.max ((inject_Z (SequenceViewerView.viewport_width view)
                  - trailing_padding_px)
                 / inject_Z (SequenceViewerView.max_sequence_length view))
                0.000001 in
    let target := Float.max min_char_width (Float.min (current * factor) 90.0) in
    fst (fst r) = true /\
    k = (if match _wheel_zoom_streak_dir c with
            | Some d => (d =? (if (0 <? delta)%Z then 1 else -1))%Z
            | None => false
            end
         then _wheel_zoom_streak_len c + 1 else 1)%Z /\
    SequenceViewerView.compute_min_char_width view = min_char_width /\
    (0.0001 <= Qabs (target - current) ->
     target_of view' = Some target /\
     QVariantAnimation.is_running
       (SequenceViewerView._zoom_animation view') = true) /\
    (Qabs (target - current) < 0.0001 -> view' = view) /\
    min_char_width <= target /\
    (min_char_width <= 90 -> target <= 90) /\
    (forall n : Z, delta = (120 * n)%Z ->
       magnitude == (1.22 * 1.06 ^ (k - 1)) ^ Z.abs n).
Proof.
  intros c model view delta x Hd Hitems Hvp Hlen Hcur Hk Hbase Haccel
         event r c' view' k steps current per_notch magnitude factor pad
         min_cw target.
  pose proof (compute_min_char_width_formula view Hitems Hlen Hvp) as Hmin.
  cbv zeta in Hmin. fold pad in Hmin. fold min_cw in Hmin.
  pose proof (bump_streak_len c (direction_of (steps_of delta)) Hk)
    as [Hk1 Hk2].
  pose proof (bump_streak_factors c (direction_of (steps_of delta)))
    as [Hb' Ha'].
  rewrite direction_of_steps in Hk1, Hk2, Hb', Ha'.
  set (dir := (if (0 <? delta)%Z then 1 else -1)%Z) in *.
  assert (Hvpq : 0 < inject_Z (SequenceViewerView.viewport_width view))
    by (change 0 with (inject_Z 0); rewrite <- Zlt_Qlt; exact Hvp).
  assert (Hc' : c' = bump_streak c dir).
  { unfold c', r, event. rewrite handle_wheel_event_controller by assumption.
    rewrite direction_of_steps. reflexivity. }
  assert (Hkk : k = _wheel_zoom_streak_len (bump_streak c dir))
    by (unfold k; rewrite Hc'; reflexivity).
  assert (Hf : zoom_factor pow (bump_streak c dir) (steps_of delta) dir
               = factor).
  { unfold zoom_factor. rewrite Hb', Ha', Hbase, Haccel.
    replace (Z.max 0 (_wheel_zoom_streak_len (bump_streak c dir) - 1))
      with (k - 1)%Z by lia.
    unfold factor, magnitude, per_notch, steps, steps_of, dir.
    destruct (0 <? delta)%Z; reflexivity. }
  (* the handler, step by step *)
  assert (Hr : r = if Float.ltb (Qabs (target - current)) 0.0001
                   then (true, bump_streak c dir, view)
                   else (true, bump_streak c dir,
                         SequenceViewerView.start_zoom_animation
                           qt_hbar_maximum view target
                           (match SequenceViewerModel.get_selection_center_nt
                                    model with
                            | Some center_nt => center_nt
                            | None =>
                                (inject_Z (QScrollBar.value
                                             (SequenceViewerView.hbar view))
                                 + inject_Z x) / current
                            end)
                           (Some (inject_Z
                                    (SequenceViewerView.viewport_width view))))).
  { clear Hc' Hkk. clearbody k.
    unfold r, handle_wheel_event, event.
    cbn [control_modifier angle_delta_y pos_x negb].
    destruct (delta =? 0)%Z eqn:E0; [lia|].
    destruct (SequenceViewerView.sequence_items view) eqn:Ei; [congruence|].
    rewrite direction_of_steps. fold dir.
    replace (Float.leb (inject_Z (SequenceViewerView.viewport_width view)) 0)
      with false by (symmetry; apply leb_false; exact Hvpq).
    fold current.
    replace (Float.leb current 0) with false
      by (symmetry; apply leb_false; exact Hcur).
    rewrite Hmin, Hf. reflexivity. }
  split; [rewrite Hr; destruct (Float.ltb _ _); reflexivity|].
  split; [rewrite Hkk; exact Hk2|].
  split; [exact Hmin|].
  split.
  { intros Hfar. unfold view'. rewrite Hr.
    replace (Float.ltb (Qabs (target - current)) 0.0001) with false
      by (symmetry; apply ltb_false; exact Hfar).
    cbn [snd]. unfold SequenceViewerView.start_zoom_animation.
    change (SequenceViewerView._effective_char_width view) with current.
    replace (Float.ltb (Qabs (target - current)) 0.0001) with false
      by (symmetry; apply ltb_false; exact Hfar).
    destruct (QVariantAnimation.is_running
                (SequenceViewerView._zoom_animation view)) eqn:Erun;
      split; try reflexivity; exact Erun. }
  split.
  { intros Hnear. unfold view'. rewrite Hr.
    replace (Float.ltb (Qabs (target - current)) 0.0001) with true
      by (symmetry; apply ltb_true; exact Hnear).
    reflexivity. }
  split; [apply max_lub|].
  split.
  { intros Hle. unfold target.
    destruct (max_spec min_cw (Float.min (current * factor) 90.0))
      as [[_ ->]|[_ ->]]; [|exact Hle].
    destruct (min_spec (current * factor) 90.0) as [[_ ->]|[H ->]]; lra. }
  intros n Hn. unfold magnitude, per_notch.
  assert (Habs : Qabs steps == inject_Z (Z.abs n)).
  { transitivity (Qabs (inject_Z n)); [|reflexivity].
    apply Qabs_wd. unfold steps. rewrite Hn, inject_Z_mult.
    change (inject_Z 120) with 120. field. }
  rewrite (pow_proper _ (1.22 * 1.06 ^ (k - 1)) _ (inject_Z (Z.abs n)));
    [apply pow_whole; lia | | exact Habs].
  apply Qmult_comp; [reflexivity|]. apply pow_whole. lia.
Qed.

End Wheel.

Lemma whole_pow_proper (x x' y y' : Q) :
  x == x' -> y == y' -> Inputs.whole_pow x y == Inputs.whole_pow x' y'.
Proof.
  intros Hx Hy. unfold Inputs.whole_pow.
  rewrite (Qfloor_comp y y' Hy), Hx. reflexivity.
Qed.

Lemma whole_pow_whole (x : Q) (n : Z) :
  (0 <= n)%Z -> Inputs.whole_pow x (inject_Z n) == x ^ n.
Proof. intros _. unfold Inputs.whole_pow. rewrite Qfloor_Z. reflexivity. Qed.

(** Viewport 500 px, pad 80 px, content length 1000: the floor of the clamp
    is 0.42; one notch out from width 12 is taken by the handler. *)
Lemma wheel_zoom_target_witness :
  (-120 <> 0)%Z /\
  SequenceViewerView.sequence_items Inputs.canvas_1000 <> [] /\
  (0 < SequenceViewerView.viewport_width Inputs.canvas_1000)%Z /\
  (0 < SequenceViewerView.max_sequence_length Inputs.canvas_1000)%Z /\
  0 < SequenceViewerView.current_char_width Inputs.canvas_1000 /\
  (0 <= _wheel_zoom_streak_len init)%Z /\
  _wheel_zoom_base_factor init = 1.22 /\
  _wheel_zoom_accel_factor init = 1.06 /\
  SequenceViewerView.compute_min_char_width Inputs.canvas_1000 == 0.42 /\
  fst (fst (handle_wheel_event Inputs.whole_pow Inputs.scene_overhang init
              Inputs.store_1000 Inputs.canvas_1000 Inputs.ctrl_notch_out))
    = true.
Proof.
  assert (H1 : (-120 <> 0)%Z) by discriminate.
  assert (H2 : SequenceViewerView.sequence_items Inputs.canvas_1000 <> [])
    by (vm_compute; discriminate).
  assert (H3 : (0 < SequenceViewerView.viewport_width Inputs.canvas_1000)%Z)
    by reflexivity.
  assert (H4 : (0 < SequenceViewerView.max_sequence_length
                      Inputs.canvas_1000)%Z) by reflexivity.
  assert (H5 : 0 < SequenceViewerView.current_char_width Inputs.canvas_1000)
    by reflexivity.
  assert (H6 : (0 <= _wheel_zoom_streak_len init)%Z) by discriminate.
  pose proof (wheel_zoom_target Inputs.whole_pow Inputs.scene_overhang
                whole_pow_proper whole_pow_whole init Inputs.store_1000
                Inputs.canvas_1000 (-120) 100 H1 H2 H3 H4 H5 H6
                eq_refl eq_refl) as (T1 & _ & T3 & _).
  do 8 (split; [assumption || reflexivity|]).
  split; [rewrite T3; vm_compute; reflexivity | exact T1].
Defined.

End WheelFacts.

(* ------------------------------------------------------------------ *)
(** ** [floor_log10] is the floor of the decimal logarithm *)
(* ------------------------------------------------------------------ *)

Module Log10Facts.
Import Log10.
Local Open Scope Q_scope.

Lemma ten_succ (k : Z) : 10 ^ (k + 1) == 10 ^ k * 10.
Proof. rewrite Qpower_plus by discriminate. reflexivity. Qed.

Lemma ten_pos (k : Z) : 0 < 10 ^ k.
Proof. apply Qpower_0_lt. reflexivity. Qed.

Lemma up_spec (fuel : nat) (x : Q) :
  forall k : Z,
    10 ^ k <= x -> x < 10 ^ (k + Z.of_nat fuel) ->
    10 ^ up fuel x k <= x < 10 ^ (up fuel x k + 1).
Proof.
  induction fuel as [|fuel IH]; intros k Hlo Hhi.
  - rewrite Z.add_0_r in Hhi. lra.
  - cbn [up]. destruct (Qle_bool (10 ^ (k + 1)) x) eqn:E.
    + apply Qle_bool_iff in E. apply IH; [exact E|].
      replace (k + 1 + Z.of_nat fuel)%Z with (k + Z.of_nat (S fuel))%Z by lia.
      exact Hhi.
    + split; [exact Hlo|]. apply Qnot_le_lt. intros H.
      apply Qle_bool_iff in H. congruence.
Qed.

Lemma down_spec (fuel : nat) (x : Q) :
  forall k : Z,
    x < 10 ^ k -> 10 ^ (k - Z.of_nat fuel) <= x ->
    10 ^ down fuel x k <= x < 10 ^ (down fuel x k + 1).
Proof.
  induction fuel as [|fuel IH]; intros k Hhi Hlo.
  - rewrite Z.sub_0_r in Hlo. lra.
  - cbn [down]. destruct (Qle_bool (10 ^ (k - 1)) x) eqn:E.
    + apply Qle_bool_iff in E. split; [exact E|].
      replace (k - 1 + 1)%Z with k by lia. exact Hhi.
    + apply IH.
      * apply Qnot_le_lt. intros H. apply Qle_bool_iff in H. congruence.
      * replace (k - 1 - Z.of_nat fuel)%Z with (k - Z.of_nat (S fuel))%Z
          by lia.
        exact Hlo.
Qed.

(** A positive integer lies below ten to the power of its binary length. *)
Lemma below_ten_pow (n : Z) :
  (0 < n)%Z -> inject_Z n < 10 ^ (Z.log2 n + 1).
Proof.
  intros Hn.
  pose proof (Z.log2_nonneg n) as H0.
  pose proof (Z.log2_spec n Hn) as [_ H2].
  assert (H10 : (2 ^ (Z.log2 n + 1) <= 10 ^ (Z.log2 n + 1))%Z)
    by (apply Z.pow_le_mono_l; lia).
  change 10 with (inject_Z 10). rewrite <- Zpower_Qpower by lia.
  rewrite <- Zlt_Qlt. unfold Z.succ in H2. lia.
Qed.

Theorem floor_log10_spec (x : Q) :
  0 < x -> 10 ^ floor_log10 x <= x < 10 ^ (floor_log10 x + 1).
Proof.
  intros Hx. unfold floor_log10.
  destruct (Qle_bool 1 x) eqn:E.
  - apply Qle_bool_iff in E.
    assert (Hf : (1 <= Qfloor x)%Z).
    { change 1%Z with (Qfloor 1). apply Qfloor_resp_le. exact E. }
    apply up_spec; [exact E|].
    pose proof (Z.log2_nonneg (Qfloor x)) as H0.
    replace (0 + Z.of_nat (S (Z.to_nat (Z.log2 (Qfloor x)))))%Z
      with (Z.log2 (Qfloor x) + 1)%Z by lia.
    pose proof (Qlt_floor x) as Hlt.
    (* x < floor x + 1 <= 10 ^ (log2 + 1) *)
    assert (Hstep : inject_Z (Qfloor x + 1) <= 10 ^ (Z.log2 (Qfloor x) + 1)).
    { pose proof (Z.log2_spec (Qfloor x) ltac:(lia)) as [_ H2].
      assert (H10 : (2 ^ (Z.log2 (Qfloor x) + 1)
                     <= 10 ^ (Z.log2 (Qfloor x) + 1))%Z)
        by (apply Z.pow_le_mono_l; lia).
      change 10 with (inject_Z 10). rewrite <- Zpower_Qpower by lia.
      rewrite <- Zle_Qle. unfold Z.succ in H2. lia. }
    lra.
  - assert (Hlt : x < 1).
    { apply Qnot_le_lt. intros H. apply Qle_bool_iff in H. congruence. }
    apply down_spec; [exact Hlt|].
    set (d := Z.pos (Qden x)).
    pose proof (Z.log2_nonneg d) as H0.
    replace (0 - Z.of_nat (S (Z.to_nat (Z.log2 d))))%Z
      with (- (Z.log2 d + 1))%Z by lia.
    rewrite Qpower_opp.
    pose proof (below_ten_pow d ltac:(unfold d; lia)) as Hb.
    pose proof (ten_pos (Z.log2 d + 1)) as Hp.
    (* 1 / 10^F <= 1 / d <= x *)
    assert (Hxd : 1 <= x * inject_Z d).
    { destruct x as [n dx]. unfold d. cbn [Qden].
      unfold Qlt in Hx. cbn in Hx. unfold Qle, Qmult, inject_Z. cbn.
      nia. }
    apply Qle_shift_inv_r; [exact Hp|].
    assert (Hd : 0 < inject_Z d) by (unfold d; reflexivity).
    nra.
Qed.

Theorem floor_log10_unique (x : Q) (k : Z) :
  10 ^ k <= x < 10 ^ (k + 1) -> floor_log10 x = k.
Proof.
  intros [Hlo Hhi].
  assert (Hx : 0 < x) by (pose proof (ten_pos k); lra).
  destruct (floor_log10_spec x Hx) as [Rlo Rhi].
  assert (H1 : (k < floor_log10 x + 1)%Z).
  { apply (Qpower_lt_compat_l_inv 10); [lra | reflexivity]. }
  assert (H2 : (floor_log10 x < k + 1)%Z).
  { apply (Qpower_lt_compat_l_inv 10); [lra | reflexivity]. }
  lia.
Qed.

End Log10Facts.

(* ------------------------------------------------------------------ *)
(** ** TickLayoutEngine: step selection *)
(* ------------------------------------------------------------------ *)

Module TickStepFacts.
Import FloatFacts Log10Facts.
Local Open Scope Q_scope.

Lemma to_int_of_Z (x : Q) (z : Z) : x == inject_Z z -> Float.to_int x = z.
Proof.
  intros H. unfold Float.to_int.
  destruct (Float.ltb x 0).
  - rewrite (Qceiling_comp _ _ H). apply Qceiling_Z.
  - rewrite (Qfloor_comp _ _ H). apply Qfloor_Z.
Qed.

Lemma scaled_nice_exact (nice k : Z) :
  (0 <= k)%Z -> Float.to_int (inject_Z nice * 10 ^ k) = (nice * 10 ^ k)%Z.
Proof.
  intros Hk. apply to_int_of_Z.
  rewrite inject_Z_mult, Zpower_Qpower by exact Hk. reflexivity.
Qed.

(** Above 1 the decade is non-negative and the mantissa lies in [1, 10). *)
Lemma decade_of_raw_step (raw_step : Q) :
  1 <= raw_step ->
  let k := Log10.floor_log10 raw_step in
  (0 <= k)%Z /\ 10 ^ k <= raw_step < 10 ^ (k + 1) /\
  1 <= raw_step / 10 ^ k < 10.
Proof.
  intros Hraw k.
  destruct (floor_log10_spec raw_step ltac:(lra)) as [Hlo Hhi]. fold k in Hlo, Hhi.
  pose proof (ten_pos k) as Hp.
  assert (Hk : (0 <= k)%Z).
  { assert (H : (0 < k + 1)%Z); [|lia].
    apply (Qpower_lt_compat_l_inv 10); [|reflexivity].
    change (10 ^ 0) with 1. lra. }
  split; [exact Hk|]. split; [split; assumption|].
  rewrite ten_succ in Hhi. split.
  - apply Qle_shift_div_l; [exact Hp | lra].
  - apply Qlt_shift_div_r; [exact Hp | lra].
Qed.

Lemma position_nice_of_tiers (base : Q) :
  (PositionRulerModel.nice_of base = 1%Z <-> base <= 1.5) /\
  (PositionRulerModel.nice_of base = 2%Z <-> 1.5 < base <= 3) /\
  (PositionRulerModel.nice_of base = 5%Z <-> 3 < base <= 7) /\
  (PositionRulerModel.nice_of base = 10%Z <-> 7 < base).
Proof.
  unfold PositionRulerModel.nice_of.
  float_cases; repeat split; intros; try discriminate; try lra;
    try reflexivity.
Qed.

Lemma navigation_nice_of_tiers (base : Q) :
  (NavigationRulerModel.nice_of base = 1%Z <-> base <= 1) /\
  (NavigationRulerModel.nice_of base = 2%Z <-> 1 < base <= 2) /\
  (NavigationRulerModel.nice_of base = 5%Z <-> 2 < base <= 5) /\
  (NavigationRulerModel.nice_of base = 10%Z <-> 5 < base).
Proof.
  unfold NavigationRulerModel.nice_of.
  float_cases; repeat split; intros; try discriminate; try lra;
    try reflexivity.
Qed.

Lemma on_ladder_positive (s : Z) : PositionRulerModel.on_ladder s -> (1 <= s)%Z.
Proof.
  intros (k & Hk & H).
  assert (0 < 10 ^ k)%Z by (apply Z.pow_pos_nonneg; lia).
  lia.
Qed.

Lemma round_to_nice_large_on_ladder (step : Z) :
  PositionRulerModel.on_ladder (PositionRulerModel._round_to_nice_large step).
Proof.
  unfold PositionRulerModel._round_to_nice_large.
  destruct (step <? 100000)%Z; [exists 5%Z; split; [lia|left; reflexivity]|].
  destruct (step <=? 200000)%Z; [exists 5%Z; split; [lia|right; left; reflexivity]|].
  destruct (step <=? 500000)%Z; [exists 5%Z; split; [lia|right; right; reflexivity]|].
  destruct (step <=? 1000000)%Z; [exists 6%Z; split; [lia|left; reflexivity]|].
  destruct (step <=? 2000000)%Z; [exists 6%Z; split; [lia|right; left; reflexivity]|].
  destruct (step <=? 5000000)%Z eqn:E;
    [exists 6%Z; split; [lia|right; right; reflexivity]|].
  apply Z.leb_gt in E.
  set (k := Log10.floor_log10 (inject_Z step)).
  assert (Hs : 0 < inject_Z step)
    by (change 0 with (inject_Z 0); rewrite <- Zlt_Qlt; lia).
  destruct (floor_log10_spec (inject_Z step) Hs) as [_ Hhi]. fold k in Hhi.
  assert (Hk : (6 <= k)%Z).
  { assert (H : (6 < k + 1)%Z); [|lia].
    apply (Qpower_lt_compat_l_inv 10); [|reflexivity].
    assert (H6 : 10 ^ 6 < inject_Z step).
    { change (10 ^ 6) with (inject_Z 1000000). rewrite <- Zlt_Qlt. lia. }
    lra. }
  destruct (step / 10 ^ k <=? 2)%Z; [exists k; split; [lia|auto]|].
  destruct (step / 10 ^ k <=? 5)%Z; [exists k; split; [lia|auto]|].
  exists (k + 1)%Z. split; [lia|left].
  rewrite Z.pow_add_r by lia. lia.
Qed.


Lemma leb_comp (x y c : Q) : x == y -> Float.leb x c = Float.leb y c.
Proof.
  intros H. destruct (Float.leb y c) eqn:E.
  - apply leb_true. apply leb_true in E. lra.
  - apply leb_false. apply leb_false in E. lra.
Qed.

Lemma floor_log10_comp (x y : Q) :
  0 < x -> x == y -> Log10.floor_log10 x = Log10.floor_log10 y.
Proof.
  intros Hx H. apply floor_log10_unique.
  destruct (floor_log10_spec y ltac:(lra)) as [Hlo Hhi]. lra.
Qed.

Lemma position_nice_of_comp (x y : Q) :
  x == y -> PositionRulerModel.nice_of x = PositionRulerModel.nice_of y.
Proof.
  intros H. unfold PositionRulerModel.nice_of.
  rewrite !(leb_comp x y) by exact H. reflexivity.
Qed.

(** The position ruler computes the shared algorithm of the specification,
    with [_round_to_nice_large] as the snap onto the ladder. *)
Lemma position_ruler_follows_shared_algorithm (char_width : Q) (span : Z) :
  (0 < span)%Z ->
  PositionRulerModel._choose_step_for_zoom char_width span
    = TickLayoutSpec.spec_step PositionRulerModel._round_to_nice_large span.
Proof.
  intros Hspan.
  assert (Hraw : inject_Z span / 10.0 == inject_Z span / 10)
    by (unfold Qdiv; apply Qmult_comp; reflexivity).
  unfold PositionRulerModel._choose_step_for_zoom, TickLayoutSpec.spec_step,
    TickLayoutSpec.spec_candidate.
  replace (span <=? 0)%Z with false by lia. cbv zeta.
  rewrite (leb_comp _ _ 1 Hraw).
  rewrite !Z.geb_leb.
  destruct (Float.leb (inject_Z span / 10) 1) eqn:E.
  - apply leb_true in E.
    assert (Hs : (span <= 10)%Z).
    { assert (Hq : inject_Z span == inject_Z span / 10 * 10) by field.
      rewrite Zle_Qle. change (inject_Z 10) with 10. lra. }
    replace (1000000 <=? span)%Z with false by lia.
    replace (100000 <=? span)%Z with false by lia.
    replace (span <=? 100)%Z with true by lia. reflexivity.
  - apply leb_false in E.
    assert (Hpos : 0 < inject_Z span / 10.0) by (rewrite Hraw; lra).
    unfold PositionRulerModel.candidate_of.
    rewrite (floor_log10_comp _ _ Hpos Hraw).
    set (k := Log10.floor_log10 (inject_Z span / 10)).
    change TickLayoutSpec.spec_nice with PositionRulerModel.nice_of.
    rewrite (position_nice_of_comp (inject_Z span / 10.0 / 10 ^ k)
                                   (inject_Z span / 10 / 10 ^ k))
      by (rewrite Hraw; reflexivity).
    reflexivity.
Qed.

(** C2, as the code has it.  The position ruler selects its step as
    stated: [raw_step = visible_span / 10]; step 1 when [raw_step <= 1];
    otherwise [base = raw_step / 10^floor(log10(raw_step))] is snapped to
    1, 2, 5 or 10 at the thresholds 1.5, 3 and 7 and multiplied back; a span
    of at least 1,000,000 puts the step on the ladder 100K, 200K, 500K, 1M,
    ..., a span in [100,000, 1,000,000) floors it at 10,000, a span of at
    most 100 caps it at 10; the step is at least 1.  The navigation ruler
    does not share that algorithm: its raw step is
    [max_nt * target_px / pixel_width], its thresholds are 1, 2 and 5, and
    it has no span rules; for a raw step of at least 1 its step is
    [nice * 10^floor(log10(raw_step))], at least 1. *)
Theorem tick_step_selection_per_ruler :
  forall (char_width : Q) (visible_span max_nt pixel_width target_px : Z),
    (0 < visible_span)%Z ->
    (0 < max_nt)%Z -> (0 < pixel_width)%Z ->
    1 <= inject_Z (max_nt * target_px) / inject_Z pixel_width ->
    (let raw_step := inject_Z visible_span / 10.0 in
     let step :=
       PositionRulerModel._choose_step_for_zoom char_width visible_span in
     step = TickLayoutSpec.spec_step PositionRulerModel._round_to_nice_large
              visible_span /\
     (raw_step <= 1 -> step = 1%Z) /\
     (1 < raw_step ->
      let k := Log10.floor_log10 raw_step in
      let base := raw_step / 10 ^ k in
      let nice := PositionRulerModel.nice_of base in
      let candidate := (nice * 10 ^ k)%Z in
      (0 <= k)%Z /\ 10 ^ k <= raw_step < 10 ^ (k + 1) /\ 1 <= base < 10 /\
      (nice = 1%Z <-> base <= 1.5) /\
      (nice = 2%Z <-> 1.5 < base <= 3) /\
      (nice = 5%Z <-> 3 < base <= 7) /\
      (nice = 10%Z <-> 7 < base) /\
      ((1000000 <= visible_span)%Z ->
       step = PositionRulerModel._round_to_nice_large candidate /\
       PositionRulerModel.on_ladder step) /\
      ((100000 <= visible_span < 1000000)%Z ->
       step = Z.max candidate 10000) /\
      ((visible_span <= 100)%Z -> step = Z.min candidate 10) /\
      ((100 < visible_span < 100000)%Z -> step = candidate)) /\
     (1 <= step)%Z) /\
    (let raw_step := inject_Z (max_nt * target_px) / inject_Z pixel_width in
     let step :=
       NavigationRulerModel._nice_tick_step max_nt pixel_width target_px in
     let k := Log10.floor_log10 raw_step in
     let base := raw_step / 10 ^ k in
     let nice := NavigationRulerModel.nice_of base in
     (0 <= k)%Z /\ 10 ^ k <= raw_step < 10 ^ (k + 1) /\ 1 <= base < 10 /\
     (nice = 1%Z <-> base <= 1) /\
     (nice = 2%Z <-> 1 < base <= 2) /\
     (nice = 5%Z <-> 2 < base <= 5) /\
     (nice = 10%Z <-> 5 < base) /\
     step = (nice * 10 ^ k)%Z /\
     (1 <= step)%Z).
Proof.
  intros cw span max_nt pw tp Hspan Hmax Hpw Hraw. split.
  - intros raw_step step.
    assert (Hstep1 : (1 <= step)%Z).
    { unfold step, PositionRulerModel._choose_step_for_zoom.
      destruct (span <=? 0)%Z; [lia|]. cbv zeta.
      destruct (Float.leb _ _); lia. }
    split; [apply position_ruler_follows_shared_algorithm; exact Hspan|].
    split; [|split; [|exact Hstep1]].
    + intros Hle. unfold step, PositionRulerModel._choose_step_for_zoom.
      destruct (span <=? 0)%Z; [reflexivity|]. cbv zeta. fold raw_step.
      replace (Float.leb raw_step 1) with true; [reflexivity|].
      symmetry. apply leb_true. exact Hle.
    + intros Hgt k base nice candidate.
      destruct (decade_of_raw_step raw_step (Qlt_le_weak _ _ Hgt))
        as (Hk & Hdec & Hbase).
      fold k in Hk, Hdec, Hbase. fold base in Hbase.
      pose proof (position_nice_of_tiers base) as (N1 & N2 & N5 & N10).
      fold nice in N1, N2, N5, N10.
      assert (Hcand : PositionRulerModel.candidate_of raw_step = candidate).
      { unfold PositionRulerModel.candidate_of. fold k. fold base. fold nice.
        apply scaled_nice_exact. exact Hk. }
      assert (Hnice : (1 <= nice)%Z).
      { unfold nice, PositionRulerModel.nice_of.
        repeat destruct (Float.leb _ _); lia. }
      assert (Hpow : (1 <= 10 ^ k)%Z)
        by (pose proof (Z.pow_pos_nonneg 10 k); lia).
      assert (Hc1 : (1 <= candidate)%Z) by (unfold candidate; nia).
      assert (Hunfold :
        step = Z.max
                 (if (span >=? 1000000)%Z
                  then PositionRulerModel._round_to_nice_large candidate
                  else if (span >=? 100000)%Z then Z.max candidate 10000
                  else if (span <=? 100)%Z then Z.min candidate 10
                  else candidate) 1).
      { unfold step, PositionRulerModel._choose_step_for_zoom.
        destruct (span <=? 0)%Z eqn:E0; [lia|]. cbv zeta. fold raw_step.
        replace (Float.leb raw_step 1) with false
          by (symmetry; apply leb_false; exact Hgt).
        rewrite Hcand. reflexivity. }
      repeat (split; [assumption|]).
      split; [|split; [|split]]; intros Hs; rewrite Hunfold.
      * replace (span >=? 1000000)%Z with true by lia.
        pose proof (round_to_nice_large_on_ladder candidate) as Hl.
        pose proof (on_ladder_positive _ Hl).
        replace (Z.max (PositionRulerModel._round_to_nice_large candidate) 1)
          with (PositionRulerModel._round_to_nice_large candidate) by lia.
        split; [reflexivity | exact Hl].
      * replace (span >=? 1000000)%Z with false by lia.
        replace (span >=? 100000)%Z with true by lia. lia.
      * replace (span >=? 1000000)%Z with false by lia.
        replace (span >=? 100000)%Z with false by lia.
        replace (span <=? 100)%Z with true by lia. lia.
      * replace (span >=? 1000000)%Z with false by lia.
        replace (span >=? 100000)%Z with false by lia.
        replace (span <=? 100)%Z with false by lia. lia.
  - intros raw_step step k base nice.
    destruct (decade_of_raw_step raw_step Hraw) as (Hk & Hdec & Hbase).
    fold k in Hk, Hdec, Hbase. fold base in Hbase.
    pose proof (navigation_nice_of_tiers base) as (N1 & N2 & N5 & N10).
    fold nice in N1, N2, N5, N10.
    assert (Hstep : step = (nice * 10 ^ k)%Z).
    { unfold step, NavigationRulerModel._nice_tick_step.
      replace ((max_nt <=? 0)%Z || (pw <=? 0)%Z) with false
        by (symmetry; apply orb_false_iff; split; lia).
      fold raw_step.
      replace (Float.leb raw_step 0) with false
        by (symmetry; apply leb_false;
            apply Qlt_le_trans with 1; [reflexivity | exact Hraw]).
      fold k. fold base. fold nice. apply scaled_nice_exact. exact Hk. }
    assert (Hnice : (1 <= nice)%Z).
    { unfold nice, NavigationRulerModel.nice_of.
      repeat destruct (Float.leb _ _); lia. }
    assert (Hpow : (1 <= 10 ^ k)%Z)
      by (pose proof (Z.pow_pos_nonneg 10 k); lia).
    repeat (split; [assumption|]).
    rewrite Hstep. nia.
Qed.

(** A span of 1234 columns on the position ruler, 1000 columns over 600 px
    on the navigation ruler: both steps are 100. *)
Lemma tick_step_selection_per_ruler_witness :
  (0 < 1234)%Z /\ (0 < 1000)%Z /\ (0 < 600)%Z /\
  1 <= inject_Z (1000 * 60) / inject_Z 600 /\
  (1 <= PositionRulerModel._choose_step_for_zoom 12.0 1234)%Z /\
  (1 <= NavigationRulerModel._nice_tick_step 1000 600 60)%Z.
Proof.
  assert (H1 : (0 < 1234)%Z) by reflexivity.
  assert (H2 : (0 < 1000)%Z) by reflexivity.
  assert (H3 : (0 < 600)%Z) by reflexivity.
  assert (H4 : 1 <= inject_Z (1000 * 60) / inject_Z 600)
    by (vm_compute; discriminate).
  pose proof (tick_step_selection_per_ruler 12.0 1234 1000 600 60 H1 H2 H3 H4)
    as [(_ & _ & _ & P) N].
  do 4 (split; [assumption|]).
  split; [exact P | apply N].
Defined.

(** C2 as stated fails for the navigation ruler: for 50 columns over
    500 px it picks 10 (raw step 6, mantissa 6 above its threshold 5),
    where the shared algorithm picks 5 (raw step 5, mantissa 5 within the
    threshold 7), however the ladder is snapped. *)
Lemma navigation_step_is_not_the_shared_algorithm :
  ~ (exists snap : Z -> Z,
       forall visible_span pixel_width : Z,
         (0 < visible_span)%Z -> (0 < pixel_width)%Z ->
         NavigationRulerModel._nice_tick_step visible_span pixel_width 60
           = TickLayoutSpec.spec_step snap visible_span /\
         PositionRulerModel._choose_step_for_zoom 12.0 visible_span
           = TickLayoutSpec.spec_step snap visible_span).
Proof.
  intros [snap H].
  destruct (H 50%Z 500%Z) as [Hnav _]; [reflexivity..|].
  vm_compute in Hnav. discriminate.
Qed.

End TickStepFacts.

(* ------------------------------------------------------------------ *)
(** ** TickLayoutEngine: major ticks of the navigation ruler *)
(* ------------------------------------------------------------------ *)

Module TickEndFacts.
Import NavigationRulerModel FloatFacts.
Local Open Scope Z_scope.

(** With a step of at least 1 the loop ends within [max_nt - nt + 2]
    rounds; it appends ticks from [nt] up, all at most [max_nt], the last
    one less than a step short of [max_nt]. *)
Lemma tick_loop_returns (step max_nt : Z) (fuel : nat) :
  1 <= step ->
  forall (nt : Z) (ticks : list Z),
    Z.max 0 (max_nt - nt + 1) < Z.of_nat fuel ->
    exists more : list Z,
      tick_loop fuel nt step max_nt ticks = Some (ticks ++ more) /\
      Forall (fun t => nt <= t <= max_nt /\ (t - nt) mod step = 0) more /\
      (nt <= max_nt ->
       exists front last_nt,
         more = front ++ [last_nt] /\ max_nt - step < last_nt <= max_nt).
Proof.
  intros Hstep. induction fuel as [|fuel IH]; intros nt ticks Hfuel.
  - lia.
  - cbn [tick_loop]. destruct (nt <=? max_nt) eqn:E.
    + apply Z.leb_le in E.
      destruct (IH (nt + step) (ticks ++ [nt]) ltac:(lia))
        as (more & Hrun & Hall & Hlast).
      exists (nt :: more). split; [|split].
      * rewrite Hrun, <- app_assoc. reflexivity.
      * constructor.
        -- split; [lia|]. rewrite Z.sub_diag. apply Z.mod_0_l. lia.
        -- eapply Forall_impl; [|exact Hall]. cbv beta.
           intros t [Ht Hm]. split; [lia|].
           replace (t - nt) with (t - (nt + step) + 1 * step) by lia.
           rewrite Z.mod_add by lia. exact Hm.
      * intros _. destruct (Z_le_gt_dec (nt + step) max_nt) as [Hle|Hgt].
        -- destruct (Hlast Hle) as (front & last_nt & -> & Hb).
           exists (nt :: front), last_nt. split; [reflexivity | exact Hb].
        -- exists [], nt.
           assert (more = []) as ->.
           { destruct more as [|t more]; [reflexivity|].
             apply Forall_inv in Hall. lia. }
           split; [reflexivity | lia].
    + apply Z.leb_gt in E. exists []. rewrite app_nil_r.
      split; [reflexivity|]. split; [constructor | lia].
Qed.

(** With step 0 the loop never leaves its first tick. *)
Lemma tick_loop_zero_step (max_nt : Z) (fuel : nat) :
  forall (nt : Z) (ticks : list Z),
    nt <= max_nt -> tick_loop fuel nt 0 max_nt ticks = None.
Proof.
  induction fuel as [|fuel IH]; intros nt ticks Hle; cbn [tick_loop].
  - reflexivity.
  - replace (nt <=? max_nt) with true by lia.
    rewrite Z.add_0_r. apply IH. exact Hle.
Qed.

Lemma half_step_test (delta step : Z) :
  Float.ltb (inject_Z delta) (inject_Z step * 0.5) = (2 * delta <? step).
Proof.
  destruct (2 * delta <? step) eqn:E.
  - apply ltb_true. apply Z.ltb_lt in E.
    assert (H : (inject_Z (2 * delta) < inject_Z step)%Q)
      by (rewrite <- Zlt_Qlt; exact E).
    rewrite inject_Z_mult in H. change (inject_Z 2) with 2%Q in H. lra.
  - apply ltb_false. apply Z.ltb_ge in E.
    assert (H : (inject_Z step <= inject_Z (2 * delta))%Q)
      by (rewrite <- Zle_Qle; exact E).
    rewrite inject_Z_mult in H. change (inject_Z 2) with 2%Q in H. lra.
Qed.

(** The end-point rule for a positive step: the generated ticks, then the
    last one moved onto the content end when it is less than half a step
    away, the content end appended otherwise; either way the last major
    tick is the content end. *)
Theorem major_ticks_end_at_content_length :
  forall (max_nt step : Z) (fuel : nat),
    0 < max_nt -> 1 <= step -> max_nt + 1 < Z.of_nat fuel ->
    exists (front : list Z) (last_nt : Z),
      tick_loop fuel 0 step max_nt [] = Some (front ++ [last_nt]) /\
      Forall (fun t => 0 <= t <= max_nt /\ t mod step = 0)
             (front ++ [last_nt]) /\
      max_nt - step < last_nt <= max_nt /\
      major_ticks_for fuel step max_nt
        = Some (if max_nt - last_nt =? 0 then front ++ [last_nt]
                else if 2 * (max_nt - last_nt) <? step then front ++ [max_nt]
                else front ++ [last_nt; max_nt]) /\
      exists ticks, major_ticks_for fuel step max_nt = Some ticks /\
                    last ticks 0 = max_nt.
Proof.
  intros max_nt step fuel HL Hstep Hfuel.
  destruct (tick_loop_returns step max_nt fuel Hstep 0 [] ltac:(lia))
    as (more & Hrun & Hall & Hlast).
  destruct (Hlast ltac:(lia)) as (front & last_nt & -> & Hb).
  cbn [app] in Hrun.
  exists front, last_nt.
  assert (Hmajor :
    major_ticks_for fuel step max_nt
      = Some (if max_nt - last_nt =? 0 then front ++ [last_nt]
              else if 2 * (max_nt - last_nt) <? step then front ++ [max_nt]
              else front ++ [last_nt; max_nt])).
  { unfold major_ticks_for. rewrite Hrun. unfold fix_last_tick.
    rewrite rev_app_distr. cbn [rev app].
    rewrite half_step_test, removelast_last.
    destruct (max_nt - last_nt =? 0); [reflexivity|].
    destruct (2 * (max_nt - last_nt) <? step); [reflexivity|].
    rewrite <- app_assoc. reflexivity. }
  split; [exact Hrun|]. split.
  { eapply Forall_impl; [|exact Hall]. cbv beta. intros t [Ht Hm].
    rewrite Z.sub_0_r in Hm. split; assumption. }
  split; [exact Hb|]. split; [exact Hmajor|].
  eexists. split; [exact Hmajor|].
  destruct (max_nt - last_nt =? 0) eqn:E0.
  - rewrite last_last. lia.
  - destruct (2 * (max_nt - last_nt) <? step).
    + apply last_last.
    + change [last_nt; max_nt] with ([last_nt] ++ [max_nt]).
      rewrite app_assoc. apply last_last.
Qed.

(** With a chosen step of at least 1 [compute_tick_layout] returns a
    layout whose last major tick is the content end. *)
Lemma compute_tick_layout_returns (m : t) (pixel_width target_px : Z)
      (fuel : nat) :
  0 < _cached_max_len m -> 0 < pixel_width ->
  1 <= _nice_tick_step (_cached_max_len m) pixel_width target_px ->
  _cached_max_len m + 1 < Z.of_nat fuel ->
  exists layout : NavigationTickLayout,
    compute_tick_layout fuel m pixel_width target_px = Some (Some layout) /\
    max_len layout = _cached_max_len m /\
    tick_step layout
      = _nice_tick_step (_cached_max_len m) pixel_width target_px /\
    last (major_ticks layout) 0 = _cached_max_len m.
Proof.
  intros HL Hpw Hstep Hfuel. unfold compute_tick_layout.
  replace ((_cached_max_len m <=? 0) || (pixel_width <=? 0)) with false
    by (symmetry; apply orb_false_iff; split; lia).
  cbv zeta.
  set (step := _nice_tick_step (_cached_max_len m) pixel_width target_px) in *.
  destruct (tick_loop_returns (Z.max (step / 5) 1) (_cached_max_len m) fuel
              ltac:(lia) 0 [] ltac:(lia)) as (minor & Hminor & _).
  rewrite Hminor.
  destruct (major_ticks_end_at_content_length (_cached_max_len m) step fuel
              HL Hstep Hfuel)
    as (_ & _ & _ & _ & _ & _ & ticks & Hmajor & Hend).
  rewrite Hmajor. eexists. split; [reflexivity|].
  cbn [max_len tick_step major_ticks]. auto.
Qed.

(** The step the navigation ruler picks for 5 columns over 1000 px is 0:
    raw step 0.3, decade 0.1, mantissa 3, nice 5, [int(0.5) = 0]. *)
Lemma nice_tick_step_can_be_zero : _nice_tick_step 5 1000 60 = 0.
Proof. reflexivity. Qed.

(** Whenever the chosen step is 0 the major-tick loop of
    [compute_tick_layout] does not end. *)
Lemma compute_tick_layout_zero_step (m : t) (pixel_width target_px : Z)
      (fuel : nat) :
  0 < _cached_max_len m -> 0 < pixel_width ->
  _nice_tick_step (_cached_max_len m) pixel_width target_px = 0 ->
  compute_tick_layout fuel m pixel_width target_px = None.
Proof.
  intros HL Hpw Hzero. unfold compute_tick_layout.
  replace ((_cached_max_len m <=? 0) || (pixel_width <=? 0)) with false
    by (symmetry; apply orb_false_iff; split; lia).
  cbv zeta. rewrite Hzero.
  destruct (tick_loop fuel 0 (Z.max (0 / 5) 1) (_cached_max_len m) []);
    [|reflexivity].
  unfold major_ticks_for. rewrite tick_loop_zero_step by lia. reflexivity.
Qed.

(** C8 at the failing input: for 5 columns over 1000 px the chosen step is
    0 and [compute_tick_layout] never leaves the major-tick loop: no
    amount of fuel yields a layout, so there is no last major tick. *)
Theorem compute_tick_layout_hangs_on_short_content :
  forall fuel : nat, compute_tick_layout fuel (mk 5 1) 1000 60 = None.
Proof.
  intros fuel. apply compute_tick_layout_zero_step.
  - reflexivity.
  - reflexivity.
  - exact nice_tick_step_can_be_zero.
Qed.

End TickEndFacts.

(* ------------------------------------------------------------------ *)
(** ** ZoomController: the pivot during an animated zoom *)
(* ------------------------------------------------------------------ *)

Module PivotFacts.
Import SequenceViewerView FloatFacts.
Local Open Scope Q_scope.

Section Pivot.

Variable qt_hbar_maximum : Q -> Z -> Z.

(** [_recenter_horizontally] touches nothing but the scroll value. *)
Lemma recenter_only_scrolls (v : t) (center_nt view_width_px : Q) :
  exists value : Z,
    _recenter_horizontally v center_nt view_width_px
      = with_hbar v (QScrollBar.mk (QScrollBar.minimum (hbar v))
                                   (QScrollBar.maximum (hbar v)) value).
Proof.
  assert (Hsame : exists value : Z,
             v = with_hbar v (QScrollBar.mk (QScrollBar.minimum (hbar v))
                                (QScrollBar.maximum (hbar v)) value)).
  { exists (QScrollBar.value (hbar v)). destruct v as [? ? ? ? ? ? ? ? ? ? ? ? h].
    destruct h. reflexivity. }
  unfold _recenter_horizontally.
  repeat match goal with
  | |- context [if ?b then _ else _] => destruct b
  end; try exact Hsame; eexists; reflexivity.
Qed.

(** After [_recenter_horizontally] on a canvas with a scene and a positive
    view width, the scroll value is within half a pixel of the left edge
    aimed at, provided the scroll range admits that edge. *)
Lemma recenter_scroll_near (v : t) (center_nt view_width_px : Q) :
  0 < view_width_px ->
  0 < scene_width v ->
  (QScrollBar.minimum (hbar v)
   <= Float.round (ideal_left v center_nt view_width_px)
   <= QScrollBar.maximum (hbar v))%Z ->
  Qabs (inject_Z (QScrollBar.value
                    (hbar (_recenter_horizontally v center_nt view_width_px)))
        - ideal_left v center_nt view_width_px) <= 1 # 2.
Proof.
  intros Hw Hscene Hrange. unfold _recenter_horizontally.
  replace (Float.leb view_width_px 0) with false
    by (symmetry; apply leb_false; exact Hw).
  replace (Float.leb (scene_width v) 0) with false
    by (symmetry; apply leb_false; exact Hscene).
  set (ideal := ideal_left v center_nt view_width_px) in *.
  destruct (Float.ltb (Qabs (ideal - inject_Z (QScrollBar.value (hbar v))))
                      0.5) eqn:E.
  - apply ltb_true in E.
    apply Qabs_Qle_condition.
    assert (E' : Qabs (ideal - inject_Z (QScrollBar.value (hbar v))) <= 0.5)
      by lra.
    apply Qabs_Qle_condition in E'. lra.
  - cbn [hbar with_hbar QScrollBar.setValue QScrollBar.value].
    unfold QScrollBar.bound.
    replace (Z.max (QScrollBar.minimum (hbar v))
                   (Z.min (Float.round ideal) (QScrollBar.maximum (hbar v))))
      with (Float.round ideal) by lia.
    apply round_near.
Qed.

(** A frame of the animation is [apply_char_width] followed by
    [_recenter_horizontally] on the pivot the animation started with. *)
Lemma animation_frame_recenters (v : t) (value pivot view_width_px : Q) :
  _zoom_center_nt v = Some pivot ->
  _zoom_view_width_px v = Some view_width_px ->
  exists v1 : t,
    animation_frame qt_hbar_maximum v value
      = _recenter_horizontally v1 pivot view_width_px /\
    _zoom_animation v1
      = QVariantAnimation.setCurrentValue (_zoom_animation v) value.
Proof.
  intros Hc Hw. unfold animation_frame, _on_zoom_value_changed.
  cbn [_zoom_center_nt _zoom_view_width_px with_animation].
  rewrite Hc, Hw. unfold apply_char_width.
  match goal with
  | |- context [match ?b with true => _ | false => _ end] => destruct b
  end; eexists; (split; [reflexivity|]);
    unfold _update_scene_rect; cbn [sequence_items with_items with_animation];
    destruct (map _ _); reflexivity.
Qed.


(** The left edge aimed at puts the pivot at the viewport centre when
    neither the pivot nor the edge needs bounding. *)
Lemma ideal_left_unclamped (v : t) (pivot view_width_px : Q) :
  0 <= pivot <= inject_Z (max_sequence_length v) ->
  0 <= pivot * _effective_char_width v - view_width_px / 2.0
    <= scene_width v - view_width_px ->
  ideal_left v pivot view_width_px
    == pivot * _effective_char_width v - view_width_px / 2.0.
Proof.
  intros Hp Hedge. unfold ideal_left.
  set (cw := _effective_char_width v) in *.
  set (half := view_width_px / 2.0) in *.
  assert (Hclamp : Float.max 0.0 (Float.min pivot
                                    (inject_Z (max_sequence_length v)))
                   == pivot).
  { destruct (min_spec pivot (inject_Z (max_sequence_length v)))
      as [[H1 ->]|[H1 ->]];
      match goal with
      | |- Float.max ?a ?b == _ =>
          destruct (max_spec a b) as [[H2 ->]|[H2 ->]]
      end; lra. }
  assert (Hcenter :
    (if (max_sequence_length v >? 0)%Z
     then Float.max 0.0 (Float.min pivot (inject_Z (max_sequence_length v)))
     else pivot) == pivot)
    by (destruct (max_sequence_length v >? 0)%Z; [exact Hclamp | reflexivity]).
  set (center := if (max_sequence_length v >? 0)%Z
                 then Float.max 0.0
                        (Float.min pivot (inject_Z (max_sequence_length v)))
                 else pivot) in *.
  assert (Hx : center * cw == pivot * cw) by (rewrite Hcenter; reflexivity).
  set (x := center * cw) in *. set (y := pivot * cw) in *.
  set (room := scene_width v - view_width_px) in *.
  destruct (max_spec 0.0 room) as [[H3 ->]|[H3 ->]];
    match goal with
    | |- Float.max _ (Float.min ?a ?b) == _ =>
        destruct (min_spec a b) as [[H4 ->]|[H4 ->]]
    end;
    match goal with
    | |- Float.max ?a ?b == _ =>
        destruct (max_spec a b) as [[H5 ->]|[H5 ->]]
    end; lra.
Qed.

(** C1, as the code has it.  Each interpolated value applied during an
    animated zoom re-centres the canvas on the pivot: the scroll offset
    ends within half a pixel of the left edge that puts the pivot at the
    middle of the view width (that edge bounded to the scene), provided the
    scroll range admits it; so whenever no bounding applies, the pivot's
    screen pixel is within half a pixel of the viewport centre after the
    frame -- wherever on screen the pivot was before. *)
Theorem zoom_frame_centres_pivot :
  forall (v : t) (value pivot view_width_px : Q),
    _zoom_center_nt v = Some pivot ->
    _zoom_view_width_px v = Some view_width_px ->
    0 < view_width_px ->
    let v' := animation_frame qt_hbar_maximum v value in
    0 < scene_width v' ->
    (QScrollBar.minimum (hbar v')
     <= Float.round (ideal_left v' pivot view_width_px)
     <= QScrollBar.maximum (hbar v'))%Z ->
    Qabs (inject_Z (QScrollBar.value (hbar v'))
          - ideal_left v' pivot view_width_px) <= 1 # 2 /\
    (QVariantAnimation.is_running (_zoom_animation v) = true ->
     0 <= pivot <= inject_Z (max_sequence_length v') ->
     0 <= pivot * value - view_width_px / 2.0
       <= scene_width v' - view_width_px ->
     Qabs (screen_x v' pivot - view_width_px / 2.0) <= 1 # 2).
Proof.
  intros v value pivot w Hc Hw Hpos v' Hscene Hrange.
  destruct (animation_frame_recenters v value pivot w Hc Hw)
    as (v1 & Hv' & Hanim).
  destruct (recenter_only_scrolls v1 pivot w) as (val & Hval).
  assert (Hv1 : v' = with_hbar v1
                       (QScrollBar.mk (QScrollBar.minimum (hbar v1))
                                      (QScrollBar.maximum (hbar v1)) val))
    by (unfold v'; rewrite Hv'; exact Hval).
  assert (Hnear :
    Qabs (inject_Z (QScrollBar.value (hbar v')) - ideal_left v1 pivot w)
      <= 1 # 2).
  { unfold v'. rewrite Hv'. apply recenter_scroll_near.
    - exact Hpos.
    - rewrite Hv1 in Hscene. exact Hscene.
    - rewrite Hv1 in Hrange. exact Hrange. }
  assert (Hideal : ideal_left v' pivot w = ideal_left v1 pivot w)
    by (rewrite Hv1; reflexivity).
  split; [rewrite Hideal; exact Hnear|].
  intros Hrun Hpivot Hedge.
  assert (Hcw : _effective_char_width v1 = value).
  { unfold _effective_char_width, QVariantAnimation.is_running in *.
    rewrite Hanim. cbn [QVariantAnimation.setCurrentValue
                          QVariantAnimation.anim_state
                          QVariantAnimation.currentValue].
    destruct (QVariantAnimation.anim_state (_zoom_animation v));
      [discriminate | reflexivity]. }
  assert (Hcw' : _effective_char_width v' = value)
    by (rewrite Hv1; exact Hcw).
  assert (Hmid : ideal_left v1 pivot w == pivot * value - w / 2.0).
  { rewrite <- Hcw. apply ideal_left_unclamped.
    - rewrite Hv1 in Hpivot. exact Hpivot.
    - rewrite Hcw. rewrite Hv1 in Hedge. exact Hedge. }
  unfold screen_x. rewrite Hcw'.
  apply Qabs_Qle_condition. apply Qabs_Qle_condition in Hnear.
  set (half := w / 2.0) in *. set (x := pivot * value) in *. lra.
Qed.

End Pivot.

(** The first frame after the zoom-in notch of the 1000-column canvas:
    the scroll value 292 is within half a pixel of the edge aimed at. *)
Lemma zoom_frame_centres_pivot_witness :
  _zoom_center_nt Inputs.zoom_in_started = Some Inputs.pointer_pivot /\
  _zoom_view_width_px Inputs.zoom_in_started = Some (inject_Z 500) /\
  0 < inject_Z 500 /\
  Qabs (inject_Z (QScrollBar.value
                    (hbar (animation_frame Inputs.scene_overhang
                             Inputs.zoom_in_started 13)))
        - ideal_left (animation_frame Inputs.scene_overhang
                        Inputs.zoom_in_started 13)
                     Inputs.pointer_pivot (inject_Z 500)) <= 1 # 2.
Proof.
  assert (Hc : _zoom_center_nt Inputs.zoom_in_started
               = Some Inputs.pointer_pivot) by (vm_compute; reflexivity).
  assert (Hw : _zoom_view_width_px Inputs.zoom_in_started
               = Some (inject_Z 500)) by (vm_compute; reflexivity).
  assert (Hpos : 0 < inject_Z 500) by reflexivity.
  split; [exact Hc|]. split; [exact Hw|]. split; [exact Hpos|].
  refine (proj1 (zoom_frame_centres_pivot Inputs.scene_overhang
                   Inputs.zoom_in_started 13 Inputs.pointer_pivot
                   (inject_Z 500) Hc Hw Hpos _ _)).
  - vm_compute. reflexivity.
  - vm_compute. split; discriminate.
Defined.

(** C1 as stated fails whenever the pivot is not already at the viewport
    centre.  A 1000-column canvas 500 px wide is scrolled to pixel 400 and
    zoomed in by one notch with the pointer at x = 100: the pivot, the
    content under the pointer, is at screen pixel 100 before the zoom, at
    about 249.7 after the first frame (width 13) and at 250 once the
    animation has reached its target 14.64. *)
Lemma zoom_pivot_not_kept_in_place :
  let started := Inputs.zoom_in_started in
  let pivot := Inputs.pointer_pivot in
  let frame1 := animation_frame Inputs.scene_overhang started 13 in
  let done := run_animation Inputs.scene_overhang started [13; 14.64] in
  _zoom_center_nt started = Some pivot /\
  SequenceViewerController.target_of started = Some 14.640 /\
  screen_x Inputs.canvas_1000_at_400 pivot == 100 /\
  screen_x started pivot == 100 /\
  screen_x frame1 pivot == 749 # 3 /\
  screen_x done pivot == 250 /\
  ~ Qabs (screen_x frame1 pivot - screen_x started pivot) <= 1 # 2 /\
  ~ Qabs (screen_x done pivot - screen_x Inputs.canvas_1000_at_400 pivot)
      <= 1.
Proof.
  cbv zeta.
  split; [vm_compute; reflexivity|]. split; [vm_compute; reflexivity|].
  split; [vm_compute; reflexivity|]. split; [vm_compute; reflexivity|].
  split; [vm_compute; reflexivity|]. split; [vm_compute; reflexivity|].
  split; vm_compute; intros H; apply H; reflexivity.
Qed.

End PivotFacts.

(* ------------------------------------------------------------------ *)
(** ** SequenceStore: reading rows and the selection centre *)
(* ------------------------------------------------------------------ *)

Module StoreReadFacts.
Import SequenceViewerModel.

Lemma fold_max_len (rest : list string) (acc : Z) :
  0 <= acc ->
  fold_left (fun a x => Z.max a (len x)) rest acc
    = Z.max acc (max_len_of rest).
Proof.
  revert acc. unfold max_len_of.
  induction rest as [|s rest IH]; intros acc Hacc;
    cbn [fold_left fold_right].
  - lia.
  - pose proof (StoreFacts.len_nonneg s). rewrite IH by lia. lia.
Qed.

Lemma py_max_len_is_max (seqs : list string) :
  py_max_len seqs = max_len_of seqs.
Proof.
  destruct seqs as [|s rest]; [reflexivity|].
  cbn [py_max_len max_len_of fold_right].
  rewrite fold_max_len by apply StoreFacts.len_nonneg. reflexivity.
Qed.

(** X1.  Recomputing the longest row changes nothing on a store that was only
    ever filled through [add_sequence] and [clear_sequences]: it returns
    the cached length and leaves the store as it is. *)
Theorem recalc_agrees_with_cache :
  forall cs : list store_call,
    recalc_max_sequence_length (run_calls cs)
      = (run_calls cs, max_sequence_length (run_calls cs)).
Proof.
  intros cs.
  pose proof (StoreFacts.cache_ok_run_from cs init StoreFacts.cache_ok_init)
    as Hok.
  fold (run_calls cs) in Hok. unfold cache_ok in Hok.
  unfold recalc_max_sequence_length. rewrite py_max_len_is_max, <- Hok.
  destruct (run_calls cs); reflexivity.
Qed.

Lemma py_index_in_range {A : Type} (xs : list A) (i : Z) :
  0 <= i < Z.of_nat (List.length xs) ->
  py_index xs i = nth_error xs (Z.to_nat i).
Proof.
  intros H. unfold py_index.
  replace ((0 <=? i) && (i <? Z.of_nat (List.length xs))) with true
    by (symmetry; apply andb_true_iff; lia).
  reflexivity.
Qed.

(** X2.  Rows are stored append-only and read back by index: the index
    [add_sequence] returns reads the new row (as does -1), every earlier
    index reads what it read before, and an index reads nothing
    ([IndexError]) exactly when it is outside [-row_count, row_count). *)
Theorem get_sequence_after_add :
  forall (m : t) (s : string),
    let m' := fst (add_sequence m s) in
    let row := snd (add_sequence m s) in
    get_sequence m' row = Some s /\
    get_sequence m' (-1) = Some s /\
    (forall j : Z, 0 <= j < get_row_count m ->
       get_sequence m' j = get_sequence m j /\ get_sequence m j <> None) /\
    (forall j : Z, get_sequence m j = None <->
       j < - get_row_count m \/ get_row_count m <= j).
Proof.
  intros m s m' row.
  assert (Hlen : List.length (_sequences m') = S (List.length (_sequences m))).
  { unfold m', add_sequence. cbn [fst _sequences].
    rewrite length_app. cbn. lia. }
  assert (Hrow : row = Z.of_nat (List.length (_sequences m))).
  { unfold row, add_sequence. cbn [snd]. rewrite length_app. cbn. lia. }
  assert (Hlast : nth_error (_sequences m') (List.length (_sequences m))
                  = Some s).
  { unfold m', add_sequence. cbn [fst _sequences].
    apply StoreFacts.nth_error_snoc_last. }
  split; [|split; [|split]].
  - unfold get_sequence. rewrite py_index_in_range by (rewrite Hlen; lia).
    rewrite Hrow, Nat2Z.id. exact Hlast.
  - unfold get_sequence, py_index. rewrite Hlen.
    replace ((0 <=? -1) && (-1 <? Z.of_nat (S (List.length (_sequences m)))))
      with false by reflexivity.
    replace ((- Z.of_nat (S (List.length (_sequences m))) <=? -1)
             && (-1 <? 0)) with true
      by (symmetry; apply andb_true_iff; split;
          [apply Z.leb_le; lia | reflexivity]).
    replace (Z.to_nat (Z.of_nat (S (List.length (_sequences m))) + -1))
      with (List.length (_sequences m)) by lia.
    exact Hlast.
  - intros j Hj. unfold get_row_count in Hj. unfold get_sequence.
    rewrite !py_index_in_range by (rewrite ?Hlen; lia).
    split.
    + unfold m', add_sequence. cbn [fst _sequences].
      apply nth_error_app1. lia.
    + apply nth_error_Some. lia.
  - intros j. unfold get_sequence, py_index, get_row_count.
    set (n := Z.of_nat (List.length (_sequences m))).
    destruct ((0 <=? j) && (j <? n)) eqn:E1.
    + apply andb_true_iff in E1.
      split; [|lia]. intros H. apply nth_error_None in H. lia.
    + destruct ((- n <=? j) && (j <? 0)) eqn:E2.
      * apply andb_true_iff in E2.
        split; [|lia]. intros H. apply nth_error_None in H. lia.
      * apply andb_false_iff in E1. apply andb_false_iff in E2.
        split; [|reflexivity]. intros _. lia.
Qed.

(** X3.  The pivot a selection gives: once [update_selection] has returned a
    range, the selection centre is the midpoint [(col_start + col_end + 1)
    / 2] of the selected cells; it lies between the two ends of the range
    and inside the content, so its bounding never moves it. *)
Theorem selection_center_is_midpoint :
  forall (m : t) (row col row_start row_end col_start col_end : Z),
    snd (update_selection m row col)
      = Some (row_start, row_end, col_start, col_end) ->
    exists center : Q,
      get_selection_center_nt (fst (update_selection m row col))
        = Some center /\
      (center == inject_Z (col_start + col_end + 1) / 2)%Q /\
      (inject_Z col_start < center)%Q /\
      (center <= inject_Z col_end + 1)%Q /\
      (center <= inject_Z (max_sequence_length m))%Q.
Proof.
  intros m row col rs re cs ce H.
  unfold update_selection, _clamp_column_index in *.
  destruct (selection_start_row m) as [ar|]; [|discriminate].
  destruct (selection_start_col m) as [ac|]; [|discriminate].
  destruct (max_sequence_length m <=? 0) eqn:Elen; [discriminate|].
  destruct (get_row_count m =? 0); [discriminate|].
  cbn [snd] in H. injection H as <- <- Hcs Hce.
  cbn [fst]. unfold get_selection_center_nt.
  cbn [current_selection_cols max_sequence_length].
  match goal with
  | |- context [if ?b then Some ?p else None] =>
      replace b with true by (symmetry; apply andb_true_iff; lia)
  end.
  rewrite Elen, Hcs, Hce.
  replace (cs >? ce) with false by lia.
  eexists. split; [reflexivity|].
  assert (Hb : 0 <= cs <= ce /\ ce <= max_sequence_length m - 1) by lia.
  destruct Hb as ([Hb0 Hb1] & Hb2).
  assert (Q0 : (0 <= inject_Z cs)%Q)
    by (change 0%Q with (inject_Z 0); rewrite <- Zle_Qle; lia).
  assert (Q1 : (inject_Z cs <= inject_Z ce)%Q) by (rewrite <- Zle_Qle; lia).
  assert (Q2 : (inject_Z ce + 1 <= inject_Z (max_sequence_length m))%Q).
  { change 1%Q with (inject_Z 1). rewrite <- inject_Z_plus, <- Zle_Qle. lia. }
  assert (Emid : (inject_Z (cs + ce + 1) / 2.0
                  == (inject_Z cs + inject_Z ce + 1) * (1 # 2))%Q).
  { rewrite !inject_Z_plus. change (inject_Z 1) with 1%Q. field. }
  assert (Emid' : (inject_Z (cs + ce + 1) / 2
                   == (inject_Z cs + inject_Z ce + 1) * (1 # 2))%Q).
  { rewrite !inject_Z_plus. change (inject_Z 1) with 1%Q. field. }
  set (mid := (inject_Z (cs + ce + 1) / 2.0)%Q) in *.
  set (top := inject_Z (max_sequence_length m)) in *.
  destruct (FloatFacts.min_spec mid top) as [[H1 ->]|[H1 ->]];
    match goal with
    | |- context [Float.max ?a ?b] =>
        destruct (FloatFacts.max_spec a b) as [[H2 ->]|[H2 ->]]
    end; rewrite ?Emid'; repeat split; lra.
Qed.

(** Press at column 500 of a 1000-column row, drag to column 200: the
    centre of the range (200, 500) is 350.5. *)
Lemma selection_center_is_midpoint_witness :
  snd (update_selection Inputs.pressed_model 0 200) = Some (0, 0, 200, 500) /\
  exists center : Q,
    get_selection_center_nt (fst (update_selection Inputs.pressed_model 0 200))
      = Some center /\
    (center == inject_Z (200 + 500 + 1) / 2)%Q.
Proof.
  assert (H : snd (update_selection Inputs.pressed_model 0 200)
              = Some (0, 0, 200, 500)) by (vm_compute; reflexivity).
  split; [exact H|].
  destruct (selection_center_is_midpoint Inputs.pressed_model
              0 200 0 0 200 500 H) as (center & Hc & Hm & _).
  exists center. split; [exact Hc | exact Hm].
Defined.

End StoreReadFacts.

(* ------------------------------------------------------------------ *)
(** ** Row items: highlight range, invariant, level of detail *)
(* ------------------------------------------------------------------ *)

Module ItemFacts.
Import SequenceItemModel FloatFacts.
Local Open Scope Q_scope.

(** X4.  The row highlight is symmetric in its two columns and always a
    non-empty half-open range inside the row: [set_selection a b] stores
    [(max(0, lo), min(length, hi + 1))] for [lo, hi] the smaller and larger
    of the two, and stores nothing exactly when no column from [lo] to
    [hi] exists in the row. *)
Theorem set_selection_range :
  forall (m : t) (a b : Z),
    set_selection m a b = set_selection m b a /\
    match selection_range (set_selection m a b) with
    | Some (s, e) =>
        (0 <= s < e)%Z /\ (e <= length m)%Z /\
        s = Z.max 0 (Z.min a b) /\ e = Z.min (length m) (Z.max a b + 1) /\
        (forall i : Z, (s <= i < e)%Z <->
           (0 <= i < length m)%Z /\ (Z.min a b <= i <= Z.max a b)%Z)
    | None =>
        (Z.max a b < 0)%Z \/ (length m <= Z.min a b)%Z \/ (length m <= 0)%Z
    end.
Proof.
  intros m a b. split.
  - unfold set_selection. rewrite (Z.min_comm a b), (Z.max_comm a b).
    reflexivity.
  - unfold set_selection.
    destruct (Z.max 0 (Z.min a b) >=? Z.min (length m) (Z.max a b + 1))%Z
      eqn:E; cbn [selection_range with_selection].
    + lia.
    + repeat split; try lia.
Qed.

Lemma snapped_size_at_least_1 (base_font scale : Q) :
  1 <= snapped_size base_font scale.
Proof.
  unfold snapped_size. float_cases; try (vm_compute; discriminate).
  pose proof (max_lub 1.0 (base_font * scale)) as [H _]. lra.
Qed.

Lemma update_display_state_ok (m : t) :
  0.001 <= char_width m -> 0.001 <= default_char_width m ->
  item_ok (_update_display_state m) /\
  default_char_width (_update_display_state m) = default_char_width m.
Proof.
  intros Hc Hd.
  assert (Hdef : (if Float.leb (default_char_width m) 0 then 12.0
                  else default_char_width m) = default_char_width m).
  { destruct (Float.leb (default_char_width m) 0) eqn:E; [|reflexivity].
    apply leb_true in E. lra. }
  unfold item_ok, _update_display_state.
  cbn [char_width default_char_width current_font_size box_height
       display_mode].
  rewrite Hdef. repeat split; try assumption.
  - apply snapped_size_at_least_1.
  - match goal with
    | |- 1 <= Float.max ?a ?b =>
        pose proof (max_lub a b) as [_ H]; lra
    end.
Qed.

Lemma max_floor (w : Q) : 0.001 <= Float.max w 0.001.
Proof. pose proof (max_lub w 0.001) as [_ H]. exact H. Qed.

(** X5.  From the constructor on, whatever widths are set: the item's width and
    base width stay at least 0.001, the base width and the sequence are the
    constructor's, the font size and the box height stay at least 1, and
    the display mode is the one the font size selects. *)
Theorem item_invariant :
  forall (sequence0 : string) (char_width0 char_height0 : Q)
         (widths : list Q),
    let m := fold_left set_char_width widths
                       (init sequence0 char_width0 char_height0) in
    0.001 <= char_width m /\
    default_char_width m = Float.max char_width0 0.001 /\
    sequence m = sequence0 /\
    length m = Z.of_nat (String.length sequence0) /\
    1 <= current_font_size m /\ 1 <= box_height m /\
    display_mode m = mode_of_font_size (current_font_size m).
Proof.
  intros s0 cw0 ch0 widths.
  assert (Hgen : forall (ws : list Q) (m0 : t),
             item_ok m0 ->
             let m := fold_left set_char_width ws m0 in
             item_ok m /\ default_char_width m = default_char_width m0 /\
             sequence m = sequence m0 /\ length m = length m0).
  { induction ws as [|w ws IH]; intros m0 H0; cbn [fold_left].
    - auto.
    - destruct H0 as (H1 & H2 & _).
      destruct (update_display_state_ok
                  (with_char_width m0 (Float.max w 0.001)))
        as [Hok Hdef]; [apply max_floor | exact H2 |].
      fold (set_char_width m0 w) in Hok, Hdef.
      destruct (IH (set_char_width m0 w) Hok) as (K1 & K2 & K3 & K4).
      split; [exact K1|]. split; [rewrite K2; exact Hdef|].
      split; [rewrite K3; reflexivity | rewrite K4; reflexivity]. }
  intros m.
  destruct (update_display_state_ok
              (mk s0 (Z.of_nat (String.length s0)) (Float.max cw0 0.001)
                  (Z.max 1 (Float.round ch0)) (Float.max cw0 0.001) None
                  (inject_Z (Z.max 1 (Float.round ch0)) * 0.6) TEXT_MODE
                  (inject_Z (Z.max 1 (Float.round ch0)) * 0.6)
                  (inject_Z (Z.max 1 (Float.round ch0)) * 0.7)
                  (inject_Z (Z.max 1 (Float.round ch0)) * 0.3) None))
    as [Hok Hdef]; [apply max_floor | apply max_floor |].
  fold (init s0 cw0 ch0) in Hok, Hdef.
  destruct (Hgen widths (init s0 cw0 ch0) Hok) as (K & K2 & K3 & K4).
  fold m in K, K2, K3, K4.
  destruct K as (A & B & C & D & E).
  repeat split; try assumption.
  - rewrite K2. exact Hdef.
Qed.

Lemma mode_rank_monotone (s1 s2 : Q) :
  s1 <= s2 ->
  (rank (mode_of_font_size s1) <= rank (mode_of_font_size s2))%Z.
Proof.
  intros H. unfold mode_of_font_size, _TEXT_BOX_THRESHOLD,
              _BOX_LINE_THRESHOLD.
  float_cases; cbn; try lia; lra.
Qed.

Lemma snapped_size_monotone (base_font s1 s2 : Q) :
  0 <= base_font -> base_font * 0.7 <= 8 -> 0 <= s1 -> s1 <= s2 ->
  snapped_size base_font s1 <= snapped_size base_font s2.
Proof.
  intros Hb Hcap H0 H.
  pose proof (max_spec 1.0 (base_font * s1)) as M1.
  pose proof (max_spec 1.0 (base_font * s2)) as M2.
  unfold snapped_size. float_cases; try lra;
    destruct M1 as [[? ->]|[? ->]]; try destruct M2 as [[? ->]|[? ->]];
    try lra; nra.
Qed.

(** X6.  Zooming out never sharpens a row: for a row whose base font times 0.7
    is at most 8 (the row heights up to 19), a smaller width gives a font
    size that is no larger and a display mode that is no finer under the
    rank Text > Box > Line. *)
Theorem lod_is_monotone_in_width :
  forall (m : t) (w1 w2 : Q),
    0.001 <= default_char_width m ->
    0 <= base_font_size m -> base_font_size m * 0.7 <= 8 ->
    w1 <= w2 ->
    current_font_size (set_char_width m w1)
      <= current_font_size (set_char_width m w2) /\
    (rank (display_mode (set_char_width m w1))
     <= rank (display_mode (set_char_width m w2)))%Z.
Proof.
  intros m w1 w2 Hd Hb Hcap Hw.
  assert (Hd0 : 0 < default_char_width m) by lra.
  assert (Hsize : current_font_size (set_char_width m w1)
                  <= current_font_size (set_char_width m w2)).
  { rewrite !LodFacts.set_char_width_font by exact Hd0.
    set (base := Float.max (default_char_width m) 0.001).
    assert (Hbase : 0 < base)
      by (pose proof (max_floor (default_char_width m)); unfold base; lra).
    assert (Hinv : 0 < / base) by (apply Qinv_lt_0_compat; exact Hbase).
    pose proof (max_floor w1) as F1. pose proof (max_floor w2) as F2.
    assert (Hmax : Float.max w1 0.001 <= Float.max w2 0.001).
    { destruct (max_spec w1 0.001) as [[? ->]|[? ->]];
        destruct (max_spec w2 0.001) as [[? ->]|[? ->]]; lra. }
    apply snapped_size_monotone; try assumption; unfold Qdiv; nra. }
  split; [exact Hsize|].
  rewrite !LodFacts.set_char_width_mode. apply mode_rank_monotone.
  exact Hsize.
Qed.

(** The default row (base width 12, row height 18) at widths 6 and 24. *)
Lemma lod_is_monotone_in_width_witness :
  0.001 <= default_char_width Inputs.default_item /\
  0 <= base_font_size Inputs.default_item /\
  base_font_size Inputs.default_item * 0.7 <= 8 /\
  6 <= 24 /\
  (rank (display_mode (set_char_width Inputs.default_item 6))
   <= rank (display_mode (set_char_width Inputs.default_item 24)))%Z.
Proof.
  assert (H1 : 0.001 <= default_char_width Inputs.default_item)
    by (vm_compute; discriminate).
  assert (H2 : 0 <= base_font_size Inputs.default_item)
    by (vm_compute; discriminate).
  assert (H3 : base_font_size Inputs.default_item * 0.7 <= 8)
    by (vm_compute; discriminate).
  assert (H4 : 6 <= 24) by (vm_compute; discriminate).
  split; [exact H1|]. split; [exact H2|]. split; [exact H3|].
  split; [exact H4|].
  exact (proj2 (lod_is_monotone_in_width Inputs.default_item 6 24
                  H1 H2 H3 H4)).
Defined.

End ItemFacts.

(* ------------------------------------------------------------------ *)
(** ** Row items: the painted columns *)
(* ------------------------------------------------------------------ *)

Module PaintFacts.
Import SequenceGraphicsItem FloatFacts.
Local Open Scope Q_scope.

Lemma ceiling_bounds (x : Q) :
  x <= inject_Z (Qceiling x) /\ inject_Z (Qceiling x) < x + 1.
Proof.
  split; [apply Qle_ceiling|].
  pose proof (Qceiling_lt x) as H. unfold Z.sub in H.
  rewrite inject_Z_plus, inject_Z_opp in H. change (inject_Z 1) with 1 in H.
  lra.
Qed.

Lemma floor_bounds (x : Q) :
  inject_Z (Qfloor x) <= x /\ x < inject_Z (Qfloor x) + 1.
Proof.
  split; [apply Qfloor_le|].
  pose proof (Qlt_floor x) as H.
  rewrite inject_Z_plus in H. change (inject_Z 1) with 1 in H. exact H.
Qed.

(** Integers are separated by at least 1. *)
Lemma inject_lt_succ (a b : Z) :
  inject_Z a < inject_Z b + 1 <-> (a <= b)%Z.
Proof.
  change 1 with (inject_Z 1). rewrite <- inject_Z_plus, <- Zlt_Qlt. lia.
Qed.

(** X7.  What [paint] goes over: for a row with a positive width per column, the
    painted columns [start_index .. end_index - 1] are inside the row, at
    least one, exactly the columns that overlap the exposed strip, and
    fewer than the strip's width in columns plus 2 -- whatever the length
    of the row.  The selection wash covers exactly the painted columns
    that are selected. *)
Theorem paint_window_is_the_exposed_columns :
  forall (it : t) (exposed_left exposed_right : Q) (start_index end_index : Z),
    0 < SequenceItemModel.char_width it ->
    paint_window it exposed_left exposed_right
      = Some (start_index, end_index) ->
    let cw := SequenceItemModel.char_width it in
    let length := SequenceItemModel.length it in
    let visible_left := Float.max exposed_left 0.0 in
    let visible_right := Float.min exposed_right (inject_Z length * cw) in
    (0 <= start_index < end_index)%Z /\ (end_index <= length)%Z /\
    (forall i : Z,
       (start_index <= i < end_index)%Z <->
       inject_Z i * cw < visible_right /\
       visible_left < (inject_Z i + 1) * cw) /\
    inject_Z (end_index - start_index)
      < (visible_right - visible_left) / cw + 2 /\
    match highlight_window it start_index end_index with
    | Some (sel_left_index, sel_right_index) =>
        exists sel_start sel_end : Z,
          SequenceItemModel.selection_range it = Some (sel_start, sel_end) /\
          forall i : Z,
            (sel_left_index <= i < sel_right_index)%Z <->
            (sel_start <= i < sel_end)%Z /\ (start_index <= i < end_index)%Z
    | None =>
        forall sel_start sel_end : Z,
          SequenceItemModel.selection_range it = Some (sel_start, sel_end) ->
          forall i : Z,
            ~ ((sel_start <= i < sel_end)%Z /\ (start_index <= i < end_index)%Z)
    end.
Proof.
  intros it el er s e Hcw Hwin cw len vl vr.
  unfold paint_window in Hwin. fold cw len vl vr in Hwin.
  destruct (Float.leb vr vl) eqn:E; [discriminate|].
  apply leb_false in E. injection Hwin as Hs He.
  assert (Hvl : 0 <= vl).
  { unfold vl. pose proof (max_lub el 0.0) as [_ H]. lra. }
  assert (Hvr : vr <= inject_Z len * cw).
  { unfold vr. destruct (min_spec er (inject_Z len * cw)) as [[? ->]|[? ->]];
      lra. }
  change (Z.max 0 (Qfloor (vl / cw)) = s) in Hs.
  change (Z.min len (Qceiling (vr / cw)) = e) in He.
  change (0 < cw) in Hcw.
  clearbody vl vr. clearbody cw len.
  assert (Hql : vl == vl / cw * cw) by (field; lra).
  assert (Hqr : vr == vr / cw * cw) by (field; lra).
  set (ql := vl / cw) in *. set (qr := vr / cw) in *.
  destruct (floor_bounds ql) as [F1 F2].
  destruct (ceiling_bounds qr) as [C1 C2].
  assert (Hql0 : 0 <= ql) by nra.
  assert (Hqlr : ql < qr) by nra.
  assert (Hqrlen : qr <= inject_Z len) by nra.
  assert (Hfloor0 : (0 <= Qfloor ql)%Z).
  { change 0%Z with (Qfloor 0). apply Qfloor_resp_le. exact Hql0. }
  assert (Hceil_len : (Qceiling qr <= len)%Z).
  { apply inject_lt_succ. lra. }
  assert (Hs' : s = Qfloor ql) by lia.
  assert (He' : e = Qceiling qr) by lia.
  assert (Hse : (s < e)%Z).
  { rewrite Hs', He'.
    assert (Hle : (Qfloor ql <= Qceiling qr)%Z) by (apply inject_lt_succ; lra).
    destruct (Z.eq_dec (Qfloor ql) (Qceiling qr)) as [Heq|Hne].
    - rewrite Heq in F1. lra.
    - lia. }
  split; [lia|]. split; [lia|]. split; [|split].
  - intros i. rewrite Hs', He'. split.
    + intros [Hi1 Hi2].
      rewrite Zle_Qle in Hi1.
      assert (Hi2' : inject_Z i + 1 <= inject_Z (Qceiling qr)).
      { change 1 with (inject_Z 1). rewrite <- inject_Z_plus.
        rewrite <- Zle_Qle. lia. }
      split; nra.
    + intros [Hi1 Hi2].
      assert (A : inject_Z i < qr) by nra.
      assert (B : ql < inject_Z i + 1) by nra.
      split.
      * apply inject_lt_succ. lra.
      * rewrite Zlt_Qlt. lra.
  - rewrite Hs', He'. unfold Z.sub. rewrite inject_Z_plus, inject_Z_opp.
    assert (Ediff : (vr - vl) / cw == qr - ql).
    { unfold qr, ql. field. lra. }
    rewrite Ediff. lra.
  - unfold highlight_window.
    destruct (SequenceItemModel.selection_range it) as [[ss se]|].
    + destruct (Z.min se e >? Z.max ss s)%Z eqn:Eh.
      * exists ss, se. split; [reflexivity|]. intros i. lia.
      * intros ss' se' Hsel. injection Hsel as <- <-. intros i. lia.
    + intros ss se Hsel. discriminate.
Qed.

(** The four-column row at width 12, exposed from pixel 13 to pixel 30:
    columns 1 and 2 are painted. *)
Lemma paint_window_is_the_exposed_columns_witness :
  0 < SequenceItemModel.char_width Inputs.default_item /\
  paint_window Inputs.default_item 13 30 = Some (1, 3)%Z /\
  (0 <= 1 < 3)%Z /\ (3 <= SequenceItemModel.length Inputs.default_item)%Z.
Proof.
  assert (H1 : 0 < SequenceItemModel.char_width Inputs.default_item)
    by reflexivity.
  assert (H2 : paint_window Inputs.default_item 13 30 = Some (1, 3)%Z)
    by (vm_compute; reflexivity).
  split; [exact H1|]. split; [exact H2|].
  pose proof (paint_window_is_the_exposed_columns
                Inputs.default_item 13 30 1 3 H1 H2) as (A & B & _).
  split; [exact A | exact B].
Defined.

End PaintFacts.

(* ------------------------------------------------------------------ *)
(** ** Canvas: cells and the zoom floor *)
(* ------------------------------------------------------------------ *)

Module CellFacts.
Import SequenceViewerView FloatFacts.
Local Open Scope Q_scope.

Lemma to_int_inject (z : Z) : Float.to_int (inject_Z z) = z.
Proof.
  unfold Float.to_int. destruct (Float.ltb (inject_Z z) 0).
  - apply Qceiling_Z.
  - apply Qfloor_Z.
Qed.

Lemma floor_cell (x w : Q) :
  0 < w ->
  inject_Z (Qfloor (x / w)) * w <= x /\ x < (inject_Z (Qfloor (x / w)) + 1) * w.
Proof.
  intros Hw.
  pose proof (Qfloor_le (x / w)) as F1.
  pose proof (Qlt_floor (x / w)) as F2.
  rewrite inject_Z_plus in F2. change (inject_Z 1) with 1 in F2.
  assert (Hx : x == x / w * w) by (field; lra).
  set (q := x / w) in *. split; nra.
Qed.

(** X8.  The cell under a scene point: with a positive row height and a positive
    effective width, [scene_pos_to_row_col] returns the one cell whose
    rectangle holds the point -- [col * cw <= x < (col + 1) * cw] and
    [row * ch <= y < (row + 1) * ch] -- so a point left of or above the
    scene gets a negative index, which the selection refuses. *)
Theorem scene_pos_is_inside_its_cell :
  forall (v : t) (x y : Q),
    (0 < char_height v)%Z ->
    0 < _effective_char_width v ->
    exists row col : Z,
      scene_pos_to_row_col v x y = Some (row, col) /\
      inject_Z col * _effective_char_width v <= x /\
      x < (inject_Z col + 1) * _effective_char_width v /\
      inject_Z row * inject_Z (char_height v) <= y /\
      y < (inject_Z row + 1) * inject_Z (char_height v) /\
      ((0 <= col)%Z <-> 0 <= x) /\ ((0 <= row)%Z <-> 0 <= y).
Proof.
  intros v x y Hch Hcw.
  assert (Hchq : 0 < inject_Z (char_height v))
    by (change 0 with (inject_Z 0); rewrite <- Zlt_Qlt; exact Hch).
  unfold scene_pos_to_row_col.
  replace (char_height v =? 0)%Z with false by lia.
  replace (Float.leb (_effective_char_width v) 0) with false
    by (symmetry; apply leb_false; exact Hcw).
  rewrite !to_int_inject.
  destruct (floor_cell x (_effective_char_width v) Hcw) as [X1 X2].
  destruct (floor_cell y (inject_Z (char_height v)) Hchq) as [Y1 Y2].
  set (col := Qfloor (x / _effective_char_width v)) in *.
  set (row := Qfloor (y / inject_Z (char_height v))) in *.
  set (cw := _effective_char_width v) in *.
  set (ch := inject_Z (char_height v)) in *.
  exists row, col. split; [reflexivity|].
  repeat (split; [assumption|]).
  assert (Zneg : forall z : Z, (z < 0)%Z -> inject_Z z + 1 <= 0).
  { intros z Hz. change 1 with (inject_Z 1). change 0 with (inject_Z 0).
    rewrite <- inject_Z_plus, <- Zle_Qle. lia. }
  assert (Zpos : forall z : Z, (0 <= z)%Z -> 0 <= inject_Z z).
  { intros z Hz. change 0 with (inject_Z 0). rewrite <- Zle_Qle. exact Hz. }
  split; split; intros H.
  - specialize (Zpos col H). nra.
  - destruct (Z_lt_le_dec col 0) as [Hn|Hp]; [|exact Hp].
    specialize (Zneg col Hn). nra.
  - specialize (Zpos row H). nra.
  - destruct (Z_lt_le_dec row 0) as [Hn|Hp]; [|exact Hp].
    specialize (Zneg row Hn). nra.
Qed.

(** X9.  The zoom floor leaves room for the content: on a canvas with content
    and a viewport, [compute_min_char_width] is at least 0.000001, and
    whenever it is the quotient (not the 0.000001 floor), the longest row
    at that width plus the trailing pad -- the current one or the Line-mode
    one -- is no wider than the viewport, so the whole content fits without
    a scroll bar. *)
Theorem min_char_width_fits_viewport :
  forall v : t,
    sequence_items v <> [] ->
    (0 < max_sequence_length v)%Z ->
    (0 < viewport_width v)%Z ->
    let min_cw := compute_min_char_width v in
    let pad :=
      Float.max (trailing_padding_line_px v) (_current_trailing_padding v) in
    0.000001 <= min_cw /\
    (0.000001 <= (inject_Z (viewport_width v) - pad)
                 / inject_Z (max_sequence_length v) ->
     inject_Z (max_sequence_length v) * min_cw + trailing_padding_line_px v
       <= inject_Z (viewport_width v) /\
     inject_Z (max_sequence_length v) * min_cw + _current_trailing_padding v
       <= inject_Z (viewport_width v)).
Proof.
  intros v Hitems Hlen Hvp min_cw pad.
  pose proof (WheelFacts.compute_min_char_width_formula v Hitems Hlen Hvp)
    as Hmin.
  cbv zeta in Hmin. fold pad in Hmin. fold min_cw in Hmin.
  assert (Hl : 0 < inject_Z (max_sequence_length v))
    by (change 0 with (inject_Z 0); rewrite <- Zlt_Qlt; exact Hlen).
  pose proof (max_lub (trailing_padding_line_px v)
                      (_current_trailing_padding v)) as [P1 P2].
  fold pad in P1, P2.
  set (avail := inject_Z (viewport_width v) - pad) in *.
  split.
  - rewrite Hmin.
    pose proof (max_lub (avail / inject_Z (max_sequence_length v)) 0.000001)
      as [_ H]. exact H.
  - intros Hq.
    assert (Hval : min_cw == avail / inject_Z (max_sequence_length v)).
    { rewrite Hmin.
      destruct (max_spec (avail / inject_Z (max_sequence_length v)) 0.000001)
        as [[H ->]|[H ->]]; [lra | reflexivity]. }
    assert (Hprod : inject_Z (max_sequence_length v) * min_cw == avail).
    { rewrite Hval. field. lra. }
    unfold avail in Hprod. split; lra.
Qed.

(** The scene point (66, 5) of the 1000-column canvas at width 12 and row
    height 18. *)
Lemma scene_pos_is_inside_its_cell_witness :
  (0 < char_height Inputs.canvas_1000)%Z /\
  0 < _effective_char_width Inputs.canvas_1000 /\
  exists row col : Z,
    scene_pos_to_row_col Inputs.canvas_1000 66 5 = Some (row, col) /\
    inject_Z col * _effective_char_width Inputs.canvas_1000 <= 66 /\
    66 < (inject_Z col + 1) * _effective_char_width Inputs.canvas_1000.
Proof.
  assert (H1 : (0 < char_height Inputs.canvas_1000)%Z) by reflexivity.
  assert (H2 : 0 < _effective_char_width Inputs.canvas_1000) by reflexivity.
  split; [exact H1|]. split; [exact H2|].
  destruct (scene_pos_is_inside_its_cell Inputs.canvas_1000 66 5
              H1 H2) as (row & col & E & A & B & _).
  exists row, col. split; [exact E|]. split; [exact A | exact B].
Defined.

(** The 1000-column canvas in a viewport of 500 px. *)
Lemma min_char_width_fits_viewport_witness :
  sequence_items Inputs.canvas_1000 <> [] /\
  (0 < max_sequence_length Inputs.canvas_1000)%Z /\
  (0 < viewport_width Inputs.canvas_1000)%Z /\
  0.000001 <= compute_min_char_width Inputs.canvas_1000.
Proof.
  assert (H1 : sequence_items Inputs.canvas_1000 <> [])
    by (vm_compute; discriminate).
  assert (H2 : (0 < max_sequence_length Inputs.canvas_1000)%Z) by reflexivity.
  assert (H3 : (0 < viewport_width Inputs.canvas_1000)%Z) by reflexivity.
  split; [exact H1|]. split; [exact H2|]. split; [exact H3|].
  exact (proj1 (min_char_width_fits_viewport Inputs.canvas_1000
                  H1 H2 H3)).
Defined.

End CellFacts.

(* ------------------------------------------------------------------ *)
(** ** Canvas: zoom to a range *)
(* ------------------------------------------------------------------ *)

Module ZoomRangeFacts.
Import SequenceViewerView FloatFacts.
Local Open Scope Q_scope.

Section ZoomRange.

Variable qt_hbar_maximum : Q -> Z -> Z.

Lemma update_scene_rect_keeps (v : t) :
  char_width (_update_scene_rect qt_hbar_maximum v) = char_width v /\
  sequence_items (_update_scene_rect qt_hbar_maximum v) = sequence_items v /\
  viewport_width (_update_scene_rect qt_hbar_maximum v) = viewport_width v.
Proof.
  unfold _update_scene_rect. destruct (sequence_items v) eqn:E;
    cbn [setSceneRect char_width sequence_items viewport_width];
    rewrite ?E; auto.
Qed.

Lemma recenter_keeps (v : t) (c w : Q) :
  char_width (_recenter_horizontally v c w) = char_width v /\
  sequence_items (_recenter_horizontally v c w) = sequence_items v.
Proof.
  destruct (PivotFacts.recenter_only_scrolls v c w) as (val & ->).
  split; reflexivity.
Qed.

(** The span [zoom_to_nt_range] divides by covers the range and is at
    least 1. *)
Lemma range_span (a b : Q) :
  let span :=
    if Qeq_bool a b then 1.0
    else Float.max (Float.max a b - Float.min a b) 1.0 in
  1 <= span /\ Qabs (b - a) <= span.
Proof.
  cbv zeta. destruct (Qeq_bool a b) eqn:E.
  - apply Qeq_bool_iff in E. split; [lra|].
    apply Qabs_Qle_condition. lra.
  - pose proof (max_lub (Float.max a b - Float.min a b) 1.0) as [M1 M2].
    set (sp := Float.max (Float.max a b - Float.min a b) 1.0) in *.
    clearbody sp.
    split; [lra|].
    apply Qabs_Qle_condition.
    destruct (max_spec a b) as [[? E1]|[? E1]];
      destruct (min_spec a b) as [[? E2]|[? E2]];
      rewrite E1, E2 in M1; lra.
Qed.

(** X10.  Zoom to a range: on a canvas with content and a viewport the width
    asked for is [viewport / max(|end - start|, 1)] bounded below by the
    zoom floor and above by 90; it becomes the canvas width unless it is
    within 0.0001 of the current one, in which case width and rows are left
    alone; and whenever the range would fit the viewport at the floor
    width, it fits at the width asked for. *)
Theorem zoom_to_range_fits :
  forall (v : t) (a b : Q),
    sequence_items v <> [] ->
    (0 < viewport_width v)%Z ->
    0 <= compute_min_char_width v ->
    let v' := zoom_to_nt_range qt_hbar_maximum v a b in
    let new_char_width := range_char_width v a b in
    (0.0001 < Qabs (new_char_width - char_width v) ->
     char_width v' = new_char_width) /\
    (Qabs (new_char_width - char_width v) <= 0.0001 ->
     char_width v' = char_width v /\ sequence_items v' = sequence_items v) /\
    compute_min_char_width v <= new_char_width /\
    (compute_min_char_width v <= 90 -> new_char_width <= 90) /\
    (Qabs (b - a) * compute_min_char_width v <= inject_Z (viewport_width v) ->
     Qabs (b - a) * new_char_width <= inject_Z (viewport_width v)).
Proof.
  intros v a b Hitems Hvp Hmin0 v' new.
  assert (Hvpq : 0 < inject_Z (viewport_width v))
    by (change 0 with (inject_Z 0); rewrite <- Zlt_Qlt; exact Hvp).
  (* the function, with the asked width named *)
  assert (Hv' : exists center : Q,
    v' = _recenter_horizontally
           (if Float.gtb (Qabs (new - char_width v)) 0.0001
            then _update_scene_rect qt_hbar_maximum
                   (with_items v new
                      (map (fun it =>
                              SequenceGraphicsItem.set_char_width it new)
                           (sequence_items v)))
            else v)
           center (inject_Z (viewport_width v))).
  { unfold v', zoom_to_nt_range, new, range_char_width.
    destruct (sequence_items v) eqn:Ei; [congruence|].
    replace (Float.leb (inject_Z (viewport_width v)) 0) with false
      by (symmetry; apply leb_false; exact Hvpq).
    destruct (Qeq_bool a b); eexists; reflexivity. }
  destruct Hv' as (center & Hv').
  split; [|split].
  - intros Hfar. rewrite Hv'.
    replace (Float.gtb (Qabs (new - char_width v)) 0.0001) with true
      by (symmetry; apply gtb_true; exact Hfar).
    rewrite (proj1 (recenter_keeps _ _ _)).
    rewrite (proj1 (update_scene_rect_keeps _)). reflexivity.
  - intros Hnear. rewrite Hv'.
    replace (Float.gtb (Qabs (new - char_width v)) 0.0001) with false
      by (symmetry; apply gtb_false; exact Hnear).
    apply recenter_keeps.
  - pose proof (range_span a b) as [S1 S2]. cbv zeta in S1, S2.
    unfold new, range_char_width.
    set (span := if Qeq_bool a b then 1.0
                 else Float.max (Float.max a b - Float.min a b) 1.0) in *.
    set (min_cw := compute_min_char_width v) in *.
    set (vw := inject_Z (viewport_width v)) in *.
    assert (Hdes : vw == vw / span * span) by (field; lra).
    set (desired := vw / span) in *.
    assert (Habs : 0 <= Qabs (b - a)) by apply Qabs_nonneg.
    set (d := Qabs (b - a)) in *.
    destruct (max_spec min_cw (Float.min desired 90.0)) as [[M ->]|[M ->]];
      destruct (min_spec desired 90.0) as [[N E]|[N E]];
      rewrite ?E in *; repeat split; intros; try lra; nra.
Qed.

End ZoomRange.

(** Zooming the 1000-column canvas to the columns 100 to 200. *)
Lemma zoom_to_range_fits_witness :
  sequence_items Inputs.canvas_1000 <> [] /\
  (0 < viewport_width Inputs.canvas_1000)%Z /\
  0 <= compute_min_char_width Inputs.canvas_1000 /\
  compute_min_char_width Inputs.canvas_1000
    <= range_char_width Inputs.canvas_1000 100 200.
Proof.
  assert (H1 : sequence_items Inputs.canvas_1000 <> [])
    by (vm_compute; discriminate).
  assert (H2 : (0 < viewport_width Inputs.canvas_1000)%Z) by reflexivity.
  assert (H3 : 0 <= compute_min_char_width Inputs.canvas_1000)
    by (vm_compute; discriminate).
  split; [exact H1|]. split; [exact H2|]. split; [exact H3|].
  pose proof (zoom_to_range_fits Inputs.scene_overhang
                Inputs.canvas_1000 100 200 H1 H2 H3) as (_ & _ & A & _).
  exact A.
Defined.

End ZoomRangeFacts.

(* ------------------------------------------------------------------ *)
(** ** Controller: store and canvas hold the same rows *)
(* ------------------------------------------------------------------ *)

Module SyncFacts.
Import SequenceViewerController FloatFacts.
Local Open Scope Z_scope.

Section Sync.

Variable qt_hbar_maximum : Q -> Z -> Z.

Lemma fold_item_len (items : list SequenceGraphicsItem.t) (acc : Z) :
  0 <= acc ->
  fold_left (fun a it => Z.max a (SequenceViewerView.item_len it)) items acc
    = Z.max acc (SequenceViewerModel.max_len_of
                   (map SequenceItemModel.sequence items)).
Proof.
  revert acc. unfold SequenceViewerModel.max_len_of.
  induction items as [|it items IH]; intros acc Hacc;
    cbn [fold_left map fold_right].
  - lia.
  - assert (0 <= SequenceViewerView.item_len it)
      by (unfold SequenceViewerView.item_len; lia).
    rewrite IH by lia.
    unfold SequenceViewerView.item_len, SequenceViewerModel.len. lia.
Qed.

Lemma update_scene_rect_max_len (v : SequenceViewerView.t) :
  SequenceViewerView.max_sequence_length
    (SequenceViewerView._update_scene_rect qt_hbar_maximum v)
    = SequenceViewerModel.max_len_of
        (map SequenceItemModel.sequence (SequenceViewerView.sequence_items v)).
Proof.
  unfold SequenceViewerView._update_scene_rect.
  destruct (SequenceViewerView.sequence_items v) as [|first others];
    [reflexivity|].
  cbn [SequenceViewerView.setSceneRect SequenceViewerView.max_sequence_length].
  rewrite fold_item_len by (unfold SequenceViewerView.item_len; lia).
  cbn [map SequenceViewerModel.max_len_of fold_right].
  unfold SequenceViewerView.item_len, SequenceViewerModel.len.
  reflexivity.
Qed.


Lemma update_scene_rect_height (v : SequenceViewerView.t) :
  (SequenceViewerView.scene_height
     (SequenceViewerView._update_scene_rect qt_hbar_maximum v)
   == inject_Z (Z.of_nat (List.length (SequenceViewerView.sequence_items v))
                * SequenceViewerView.char_height v))%Q /\
  SequenceViewerView.char_height
    (SequenceViewerView._update_scene_rect qt_hbar_maximum v)
  = SequenceViewerView.char_height v /\
  SequenceViewerView.sequence_items
    (SequenceViewerView._update_scene_rect qt_hbar_maximum v)
  = SequenceViewerView.sequence_items v.
Proof.
  unfold SequenceViewerView._update_scene_rect.
  destruct (SequenceViewerView.sequence_items v) eqn:E;
    cbn [SequenceViewerView.setSceneRect SequenceViewerView.scene_height
         SequenceViewerView.char_height SequenceViewerView.sequence_items];
    rewrite ?E; repeat split; reflexivity.
Qed.

Lemma in_sync_add (model : SequenceViewerModel.t)
      (view : SequenceViewerView.t) (s : string) :
  in_sync model view ->
  in_sync (fst (add_sequence qt_hbar_maximum model view s))
          (snd (add_sequence qt_hbar_maximum model view s)).
Proof.
  intros (Hrows & Hmax & Hcache & Hheight).
  unfold add_sequence. cbn [fst snd].
  assert (Hcache' : SequenceViewerModel.cache_ok
                      (fst (SequenceViewerModel.add_sequence model s)))
    by (apply StoreFacts.cache_ok_add; exact Hcache).
  assert (Hitems :
    SequenceViewerView.sequence_items
      (SequenceViewerView.add_sequence_item qt_hbar_maximum view s)
    = SequenceViewerView.sequence_items view
      ++ [SequenceGraphicsItem.init s (SequenceViewerView.char_width view)
            (inject_Z (SequenceViewerView.char_height view))]).
  { unfold SequenceViewerView.add_sequence_item,
      SequenceViewerView._update_scene_rect.
    cbn [SequenceViewerView.sequence_items SequenceViewerView.with_items].
    destruct (SequenceViewerView.sequence_items view ++ _) eqn:E;
      [destruct (SequenceViewerView.sequence_items view); discriminate|].
    reflexivity. }
  assert (Hrows' :
    map SequenceItemModel.sequence
        (SequenceViewerView.sequence_items
           (SequenceViewerView.add_sequence_item qt_hbar_maximum view s))
    = SequenceViewerModel._sequences
        (fst (SequenceViewerModel.add_sequence model s))).
  { rewrite Hitems. unfold SequenceGraphicsItem.t in *.
    rewrite map_app, Hrows. reflexivity. }
  split; [exact Hrows'|]. split; [|split; [exact Hcache'|]].
  - unfold SequenceViewerView.add_sequence_item.
    rewrite update_scene_rect_max_len.
    cbn [SequenceViewerView.sequence_items SequenceViewerView.with_items].
    unfold SequenceGraphicsItem.t in *.
    rewrite map_app, Hrows. symmetry. exact Hcache'.
  - unfold SequenceViewerModel.get_row_count. rewrite <- Hrows', length_map.
    unfold SequenceViewerView.add_sequence_item.
    destruct (update_scene_rect_height
                (SequenceViewerView.with_items view
                   (SequenceViewerView.char_width view)
                   (SequenceViewerView.sequence_items view
                    ++ [SequenceGraphicsItem.init s
                          (SequenceViewerView.char_width view)
                          (inject_Z (SequenceViewerView.char_height view))])))
      as (Hh & Hc & Hi).
    rewrite Hh, Hc, Hi. reflexivity.
Qed.

Lemma in_sync_clear (c : t) (model : SequenceViewerModel.t)
      (view : SequenceViewerView.t) :
  in_sync (snd (fst (clear qt_hbar_maximum c model view)))
          (snd (clear qt_hbar_maximum c model view)).
Proof.
  unfold clear, in_sync. cbn. repeat split.
Qed.

(** X11.  Store and canvas stay in step: after any sequence of the controller's
    [add_sequence] and [clear] calls, starting empty, the rows of the canvas
    are the rows of the store in the same order, both hold the same longest
    length (the maximum of the row lengths), and the scene is as many row
    heights tall as the store has rows. *)
Theorem store_and_canvas_stay_in_step :
  forall (calls : list content_call) (c0 : t)
         (char_width char_height : Q) (viewport_width : Z),
    let st :=
      fold_left (run_content_call qt_hbar_maximum) calls
        (c0, SequenceViewerModel.init,
         SequenceViewerView.init char_width char_height viewport_width) in
    let model := snd (fst st) in
    let view := snd st in
    map SequenceItemModel.sequence (SequenceViewerView.sequence_items view)
      = SequenceViewerModel._sequences model /\
    SequenceViewerModel.get_row_count model
      = Z.of_nat (List.length (SequenceViewerView.sequence_items view)) /\
    SequenceViewerView.max_sequence_length view
      = SequenceViewerModel.max_sequence_length model /\
    SequenceViewerModel.max_sequence_length model
      = SequenceViewerModel.max_len_of (SequenceViewerModel._sequences model) /\
    (SequenceViewerView.scene_height view
     == inject_Z (Z.of_nat (List.length
                              (SequenceViewerView.sequence_items view))
                  * SequenceViewerView.char_height view))%Q.
Proof.
  intros calls c0 cw ch vw.
  assert (Hgen : forall (cs : list content_call)
                        (st0 : t * SequenceViewerModel.t
                               * SequenceViewerView.t),
             in_sync (snd (fst st0)) (snd st0) ->
             in_sync
               (snd (fst (fold_left (run_content_call qt_hbar_maximum)
                                    cs st0)))
               (snd (fold_left (run_content_call qt_hbar_maximum) cs st0))).
  { induction cs as [|call cs IH]; intros st0 H0; cbn [fold_left];
      [exact H0|].
    apply IH. destruct st0 as [[c m] v]. cbn [fst snd] in H0.
    destruct call as [s|]; cbn [run_content_call].
    - pose proof (in_sync_add m v s H0) as H.
      destruct (add_sequence qt_hbar_maximum m v s) as [m' v'].
      exact H.
    - apply in_sync_clear. }
  intros st model view.
  assert (Hinit : in_sync SequenceViewerModel.init
                          (SequenceViewerView.init cw ch vw)).
  { unfold in_sync. cbn. repeat split. }
  destruct (Hgen calls (c0, SequenceViewerModel.init,
                        SequenceViewerView.init cw ch vw) Hinit)
    as (Hrows & Hmax & Hcache & Hheight).
  fold st in Hrows, Hmax, Hcache, Hheight.
  fold model in Hrows, Hmax, Hcache, Hheight.
  fold view in Hrows, Hmax, Hheight.
  assert (Hcount : SequenceViewerModel.get_row_count model
                   = Z.of_nat (List.length
                                 (SequenceViewerView.sequence_items view))).
  { unfold SequenceViewerModel.get_row_count.
    rewrite <- Hrows, length_map. reflexivity. }
  split; [exact Hrows|]. split; [exact Hcount|]. split; [exact Hmax|].
  split; [exact Hcache|]. rewrite <- Hcount. exact Hheight.
Qed.

End Sync.
End SyncFacts.

(* ------------------------------------------------------------------ *)
(** ** ZoomController: runs of wheel events *)
(* ------------------------------------------------------------------ *)

Module WheelRunFacts.
Import SequenceViewerController FloatFacts.
Local Open Scope Q_scope.

Section WheelRuns.

Variable pow : Q -> Q -> Q.
Variable qt_hbar_maximum : Q -> Z -> Z.

Lemma update_scene_rect_frame (v : SequenceViewerView.t) :
  let v' := SequenceViewerView._update_scene_rect qt_hbar_maximum v in
  SequenceViewerView.sequence_items v' = SequenceViewerView.sequence_items v /\
  SequenceViewerView._zoom_animation v' = SequenceViewerView._zoom_animation v /\
  SequenceViewerView._zoom_center_nt v' = SequenceViewerView._zoom_center_nt v.
Proof.
  unfold SequenceViewerView._update_scene_rect.
  destruct (SequenceViewerView.sequence_items v) eqn:E;
    cbn [SequenceViewerView.setSceneRect SequenceViewerView.sequence_items
         SequenceViewerView._zoom_animation
         SequenceViewerView._zoom_center_nt];
    rewrite ?E; repeat split; reflexivity.
Qed.

Lemma recenter_frame (v : SequenceViewerView.t) (c w : Q) :
  let v' := SequenceViewerView._recenter_horizontally v c w in
  SequenceViewerView.sequence_items v' = SequenceViewerView.sequence_items v /\
  SequenceViewerView._zoom_animation v' = SequenceViewerView._zoom_animation v /\
  SequenceViewerView._zoom_center_nt v' = SequenceViewerView._zoom_center_nt v.
Proof.
  cbv zeta. destruct (PivotFacts.recenter_only_scrolls v c w) as (val & ->).
  repeat split; reflexivity.
Qed.

(** [apply_char_width] keeps the number of rows, the animation and the
    stored pivot. *)
Lemma apply_char_width_frame (v : SequenceViewerView.t) (w : Q)
      (center view_width : option Q) :
  let v' := SequenceViewerView.apply_char_width qt_hbar_maximum v w
              center view_width in
  List.length (SequenceViewerView.sequence_items v')
    = List.length (SequenceViewerView.sequence_items v) /\
  SequenceViewerView._zoom_animation v' = SequenceViewerView._zoom_animation v /\
  SequenceViewerView._zoom_center_nt v' = SequenceViewerView._zoom_center_nt v.
Proof.
  cbv zeta. unfold SequenceViewerView.apply_char_width.
  set (items := map (fun it => SequenceGraphicsItem.set_char_width it w)
                    (SequenceViewerView.sequence_items v)).
  set (applied := match items with
                  | first :: _ => SequenceItemModel.char_width first
                  | [] => w
                  end).
  pose proof (update_scene_rect_frame
                (SequenceViewerView.with_items v applied items))
    as (U1 & U2 & U3).
  cbv zeta in U1, U2, U3.
  cbn [SequenceViewerView.with_items SequenceViewerView.sequence_items
       SequenceViewerView._zoom_animation SequenceViewerView._zoom_center_nt]
    in U1, U2, U3.
  assert (Hlen : List.length items
                 = List.length (SequenceViewerView.sequence_items v))
    by (unfold items; apply length_map).
  destruct (Float.ltb _ _), center as [c|]; try (repeat split; reflexivity);
    try (destruct (recenter_frame
                     (SequenceViewerView._update_scene_rect qt_hbar_maximum
                        (SequenceViewerView.with_items v applied items))
                     c match view_width with
                       | Some w0 => w0
                       | None => inject_Z (SequenceViewerView.viewport_width v)
                       end) as (R1 & R2 & R3);
         cbv zeta in R1, R2, R3; rewrite R1, R2, R3, U1, U2, U3);
    try rewrite U1, U2, U3; repeat split; auto.
Qed.

(** A wheel event keeps the number of rows; while the animation is running
    it keeps the pivot and the start value and leaves it running. *)
Lemma handle_wheel_event_frame (c : t) (model : SequenceViewerModel.t)
      (view : SequenceViewerView.t) (event : QWheelEvent) :
  let view' := snd (handle_wheel_event pow qt_hbar_maximum c model view
                      event) in
  List.length (SequenceViewerView.sequence_items view')
    = List.length (SequenceViewerView.sequence_items view) /\
  (QVariantAnimation.is_running (SequenceViewerView._zoom_animation view)
   = true ->
   SequenceViewerView._zoom_center_nt view'
     = SequenceViewerView._zoom_center_nt view /\
   QVariantAnimation.startValue (SequenceViewerView._zoom_animation view')
     = QVariantAnimation.startValue (SequenceViewerView._zoom_animation view) /\
   QVariantAnimation.is_running (SequenceViewerView._zoom_animation view')
     = true).
Proof.
  cbv zeta. unfold handle_wheel_event.
  destruct (negb (control_modifier event)); [cbn [snd]; auto|].
  destruct (angle_delta_y event =? 0)%Z;
    destruct (SequenceViewerView.sequence_items view) eqn:Ei;
    try (cbn [snd]; rewrite ?Ei; auto; fail).
  destruct (Float.leb (inject_Z (SequenceViewerView.viewport_width view)) 0);
    [cbn [snd]; rewrite ?Ei; auto|].
  match goal with
  | |- context [if Float.ltb ?a ?b then (true, ?cc, view) else _] =>
      destruct (Float.ltb a b)
  end; [cbn [snd]; rewrite ?Ei; auto|].
  cbn [snd]. unfold SequenceViewerView.start_zoom_animation.
  match goal with
  | |- context [if Float.ltb ?a ?b then _ else _] => destruct (Float.ltb a b)
  end.
  - match goal with
    | |- context [SequenceViewerView.apply_char_width _ _ ?w ?ce ?vw] =>
        pose proof (apply_char_width_frame view w ce vw) as (A1 & A2 & A3)
    end.
    cbv zeta in A1, A2, A3. rewrite A1, A2, A3, Ei. auto.
  - destruct (QVariantAnimation.is_running
                (SequenceViewerView._zoom_animation view)) eqn:Erun;
      cbn [SequenceViewerView.with_animation
           SequenceViewerView.sequence_items
           SequenceViewerView._zoom_animation
           SequenceViewerView._zoom_center_nt
           QVariantAnimation.setEndValue QVariantAnimation.startValue];
      rewrite ?Ei; split; try reflexivity; try discriminate.
    intros _. repeat split; try reflexivity.
    unfold QVariantAnimation.is_running in *.
    cbn [QVariantAnimation.anim_state]. exact Erun.
Qed.


(** X12.  No retargeting in flight: while the zoom animation is running, a wheel
    event -- whatever its modifiers, direction and pointer position, and
    whether or not a selection has appeared meanwhile -- leaves the pivot
    and the start value of the animation as they are and the animation
    running. *)
Theorem wheel_keeps_pivot_in_flight :
  forall (c : t) (model : SequenceViewerModel.t)
         (view : SequenceViewerView.t) (event : QWheelEvent),
    QVariantAnimation.is_running (SequenceViewerView._zoom_animation view)
      = true ->
    let view' := snd (handle_wheel_event pow qt_hbar_maximum c model view
                        event) in
    SequenceViewerView._zoom_center_nt view'
      = SequenceViewerView._zoom_center_nt view /\
    QVariantAnimation.startValue (SequenceViewerView._zoom_animation view')
      = QVariantAnimation.startValue (SequenceViewerView._zoom_animation view) /\
    QVariantAnimation.is_running (SequenceViewerView._zoom_animation view')
      = true.
Proof.
  intros c model view event Hrun.
  exact (proj2 (handle_wheel_event_frame c model view event) Hrun).
Qed.

Lemma feed_wheel_streak (model : SequenceViewerModel.t) (c : t)
      (view : SequenceViewerView.t) (event : QWheelEvent) :
  control_modifier event = true ->
  angle_delta_y event <> 0%Z ->
  SequenceViewerView.sequence_items view <> [] ->
  fst (feed_wheel pow qt_hbar_maximum model (c, view) event)
    = bump_streak c (if (0 <? angle_delta_y event)%Z then 1 else -1)%Z /\
  SequenceViewerView.sequence_items
    (snd (feed_wheel pow qt_hbar_maximum model (c, view) event)) <> [].
Proof.
  intros Hctrl Hd Hitems. unfold feed_wheel. cbn [fst snd]. split.
  - destruct event as [ctrl delta x]. cbn in Hctrl, Hd |- *. subst ctrl.
    rewrite (WheelFacts.handle_wheel_event_controller pow qt_hbar_maximum
               c model view delta x Hd Hitems).
    rewrite WheelFacts.direction_of_steps. reflexivity.
  - pose proof (handle_wheel_event_frame c model view event) as [Hlen _].
    cbv zeta in Hlen. intros E. rewrite E in Hlen. cbn in Hlen.
    destruct (SequenceViewerView.sequence_items view); [congruence|].
    discriminate.
Qed.

(** X13.  The streak counts consecutive notches: after [n >= 1] zoom events in
    one direction ([n] wheel events with the modifier held and deltas of
    that sign, on a canvas with content) the streak direction is that
    direction and the streak length is [n], plus the previous length when
    the streak already ran in that direction; one event in the other
    direction then sets the length back to 1. *)
Theorem streak_counts_consecutive_notches :
  forall (model : SequenceViewerModel.t) (events : list QWheelEvent)
         (c : t) (view : SequenceViewerView.t) (zoom_in : bool)
         (turn : QWheelEvent),
    events <> [] ->
    Forall (fun e => control_modifier e = true /\
                     angle_delta_y e <> 0%Z /\
                     (0 <? angle_delta_y e)%Z = zoom_in) events ->
    control_modifier turn = true ->
    angle_delta_y turn <> 0%Z ->
    (0 <? angle_delta_y turn)%Z = negb zoom_in ->
    SequenceViewerView.sequence_items view <> [] ->
    let direction := (if zoom_in then 1 else -1)%Z in
    let st := fold_left (feed_wheel pow qt_hbar_maximum model) events
                        (c, view) in
    _wheel_zoom_streak_dir (fst st) = Some direction /\
    _wheel_zoom_streak_len (fst st)
      = ((match _wheel_zoom_streak_dir c with
          | Some d => if (d =? direction)%Z then _wheel_zoom_streak_len c
                      else 0
          | None => 0
          end) + Z.of_nat (List.length events))%Z /\
    _wheel_zoom_streak_dir
      (fst (feed_wheel pow qt_hbar_maximum model st turn))
      = Some (- direction)%Z /\
    _wheel_zoom_streak_len
      (fst (feed_wheel pow qt_hbar_maximum model st turn)) = 1%Z.
Proof.
  intros model events c view zoom_in turn Hne Hall Ht1 Ht2 Ht3 Hitems
         direction st.
  assert (Hgen : forall (es : list QWheelEvent) (c0 : t)
                        (v0 : SequenceViewerView.t),
    Forall (fun e => control_modifier e = true /\
                     angle_delta_y e <> 0%Z /\
                     (0 <? angle_delta_y e)%Z = zoom_in) es ->
    SequenceViewerView.sequence_items v0 <> [] ->
    _wheel_zoom_streak_dir c0 = Some direction ->
    let st0 := fold_left (feed_wheel pow qt_hbar_maximum model) es
                         (c0, v0) in
    _wheel_zoom_streak_dir (fst st0) = Some direction /\
    _wheel_zoom_streak_len (fst st0)
      = (_wheel_zoom_streak_len c0 + Z.of_nat (List.length es))%Z /\
    SequenceViewerView.sequence_items (snd st0) <> []).
  { induction es as [|e es IH]; intros c0 v0 Hes Hv0 Hdir; cbn [fold_left].
    - cbn [fst snd List.length]. repeat split; try assumption. lia.
    - apply Forall_cons_iff in Hes as [(E1 & E2 & E3) Hes].
      destruct (feed_wheel_streak model c0 v0 e E1 E2 Hv0) as [Hc Hv].
      rewrite E3 in Hc. fold direction in Hc.
      destruct (feed_wheel pow qt_hbar_maximum model (c0, v0) e)
        as [c1 v1] eqn:Efeed.
      cbn [fst snd] in Hc, Hv.
      assert (Hc1 : _wheel_zoom_streak_dir c1 = Some direction /\
                    _wheel_zoom_streak_len c1
                    = (_wheel_zoom_streak_len c0 + 1)%Z).
      { rewrite Hc. unfold bump_streak. rewrite Hdir, Z.eqb_refl.
        split; reflexivity. }
      destruct Hc1 as [Hd1 Hl1].
      destruct (IH c1 v1 Hes Hv Hd1) as (K1 & K2 & K3).
      cbv zeta in K1, K2, K3.
      split; [exact K1|]. split; [|exact K3].
      rewrite K2, Hl1. cbn [List.length]. lia. }
  (* the first event starts or continues the streak *)
  destruct events as [|e es]; [congruence|].
  apply Forall_cons_iff in Hall as [(E1 & E2 & E3) Hes].
  destruct (feed_wheel_streak model c view e E1 E2 Hitems) as [Hc Hv].
  rewrite E3 in Hc. fold direction in Hc.
  unfold st. cbn [fold_left].
  destruct (feed_wheel pow qt_hbar_maximum model (c, view) e)
    as [c1 v1] eqn:Efeed.
  cbn [fst snd] in Hc, Hv.
  assert (Hc1 : _wheel_zoom_streak_dir c1 = Some direction /\
                _wheel_zoom_streak_len c1
                = ((match _wheel_zoom_streak_dir c with
                    | Some d => if (d =? direction)%Z
                                then _wheel_zoom_streak_len c else 0
                    | None => 0
                    end) + 1)%Z).
  { rewrite Hc. unfold bump_streak.
    destruct (_wheel_zoom_streak_dir c) as [d|]; [|split; reflexivity].
    destruct (d =? direction)%Z eqn:Ed; [|split; reflexivity].
    apply Z.eqb_eq in Ed. subst d. split; reflexivity. }
  destruct Hc1 as [Hd1 Hl1].
  destruct (Hgen es c1 v1 Hes Hv Hd1) as (K1 & K2 & K3).
  cbv zeta in K1, K2, K3.
  set (st1 := fold_left (feed_wheel pow qt_hbar_maximum model) es (c1, v1))
    in *.
  split; [exact K1|]. split; [rewrite K2, Hl1; cbn [List.length]; lia|].
  destruct st1 as [c2 v2] eqn:Est. cbn [fst snd] in K1, K2, K3.
  destruct (feed_wheel_streak model c2 v2 turn Ht1 Ht2 K3) as [Hturn _].
  rewrite Hturn, Ht3. unfold bump_streak. rewrite K1.
  unfold direction. destruct zoom_in; cbn; split; reflexivity.
Qed.

End WheelRuns.
(** A zoom-out notch while the zoom-in animation of the 1000-column canvas
    is running. *)
Lemma wheel_keeps_pivot_in_flight_witness :
  QVariantAnimation.is_running
    (SequenceViewerView._zoom_animation Inputs.zoom_in_started) = true /\
  SequenceViewerView._zoom_center_nt
    (snd (handle_wheel_event Inputs.whole_pow Inputs.scene_overhang init
            Inputs.store_1000 Inputs.zoom_in_started Inputs.ctrl_notch_out))
    = SequenceViewerView._zoom_center_nt Inputs.zoom_in_started.
Proof.
  assert (H : QVariantAnimation.is_running
                (SequenceViewerView._zoom_animation Inputs.zoom_in_started)
              = true) by (vm_compute; reflexivity).
  split; [exact H|].
  exact (proj1 (wheel_keeps_pivot_in_flight Inputs.whole_pow
                  Inputs.scene_overhang init Inputs.store_1000
                  Inputs.zoom_in_started Inputs.ctrl_notch_out H)).
Defined.

(** Two notches in, then one out, on the 1000-column canvas. *)
Lemma streak_counts_consecutive_notches_witness :
  [Inputs.ctrl_notch_in; Inputs.ctrl_notch_in] <> [] /\
  Forall (fun e => control_modifier e = true /\
                   angle_delta_y e <> 0%Z /\
                   (0 <? angle_delta_y e)%Z = true)
         [Inputs.ctrl_notch_in; Inputs.ctrl_notch_in] /\
  control_modifier Inputs.ctrl_notch_out = true /\
  angle_delta_y Inputs.ctrl_notch_out <> 0%Z /\
  (0 <? angle_delta_y Inputs.ctrl_notch_out)%Z = negb true /\
  SequenceViewerView.sequence_items Inputs.canvas_1000 <> [] /\
  _wheel_zoom_streak_len
    (fst (fold_left (feed_wheel Inputs.whole_pow Inputs.scene_overhang
                       Inputs.store_1000)
                    [Inputs.ctrl_notch_in; Inputs.ctrl_notch_in]
                    (init, Inputs.canvas_1000)))
    = (0 + 2)%Z.
Proof.
  assert (H1 : [Inputs.ctrl_notch_in; Inputs.ctrl_notch_in] <> [])
    by discriminate.
  assert (H2 : Forall (fun e => control_modifier e = true /\
                                angle_delta_y e <> 0%Z /\
                                (0 <? angle_delta_y e)%Z = true)
                      [Inputs.ctrl_notch_in; Inputs.ctrl_notch_in]).
  { repeat (constructor;
            [split; [reflexivity | split; [discriminate | reflexivity]]|]).
    constructor. }
  assert (H3 : control_modifier Inputs.ctrl_notch_out = true) by reflexivity.
  assert (H4 : angle_delta_y Inputs.ctrl_notch_out <> 0%Z) by discriminate.
  assert (H5 : (0 <? angle_delta_y Inputs.ctrl_notch_out)%Z = negb true)
    by reflexivity.
  assert (H6 : SequenceViewerView.sequence_items Inputs.canvas_1000 <> [])
    by (vm_compute; discriminate).
  do 6 (split; [assumption|]).
  exact (proj1 (proj2 (streak_counts_consecutive_notches
                         Inputs.whole_pow Inputs.scene_overhang
                         Inputs.store_1000
                         [Inputs.ctrl_notch_in; Inputs.ctrl_notch_in]
                         init Inputs.canvas_1000 true Inputs.ctrl_notch_out
                         H1 H2 H3 H4 H5 H6))).
Defined.

End WheelRunFacts.

(* ------------------------------------------------------------------ *)
(** ** Controller: selecting with the mouse *)
(* ------------------------------------------------------------------ *)

Module MouseFacts.
Import SequenceViewerController FloatFacts.
Local Open Scope Z_scope.

Lemma map_enumerate_nth {A B : Type} (f : Z -> A -> B) (items : list A) :
  forall (k : Z) (i : nat),
    nth_error (SequenceViewerView.map_enumerate f k items) i
      = option_map (f (k + Z.of_nat i)) (nth_error items i).
Proof.
  induction items as [|item items IH]; intros k i.
  - destruct i; reflexivity.
  - destruct i as [|i]; cbn [SequenceViewerView.map_enumerate nth_error].
    + rewrite Z.add_0_r. reflexivity.
    + rewrite IH. replace (k + 1 + Z.of_nat i) with (k + Z.of_nat (S i))
        by lia. reflexivity.
Qed.

(** What [set_visual_selection] leaves in row [i]. *)
Lemma set_visual_selection_row (v : SequenceViewerView.t)
      (row_start row_end col_start col_end : Z) (i : nat) :
  0 <= col_start -> 0 <= col_end ->
  nth_error (SequenceViewerView.sequence_items
               (SequenceViewerView.set_visual_selection v row_start row_end
                  col_start col_end)) i
    = option_map
        (fun item =>
           if (row_start <=? Z.of_nat i) && (Z.of_nat i <=? row_end)
           then SequenceGraphicsItem.set_selection item col_start col_end
           else SequenceGraphicsItem.clear_selection item)
        (nth_error (SequenceViewerView.sequence_items v) i).
Proof.
  intros H1 H2. unfold SequenceViewerView.set_visual_selection.
  cbn [SequenceViewerView.sequence_items SequenceViewerView.with_items].
  rewrite map_enumerate_nth. rewrite Z.add_0_l.
  replace (col_start >=? 0) with true by lia.
  replace (col_end >=? 0) with true by lia.
  rewrite !andb_true_r. reflexivity.
Qed.

(** A row keeps one selected cell of a click, if it has that column. *)
Lemma single_cell_selection (item : SequenceItemModel.t) (col : Z) :
  0 <= col ->
  SequenceItemModel.selection_range
    (SequenceGraphicsItem.set_selection item col col)
    = if col <? SequenceItemModel.length item then Some (col, col + 1)
      else None.
Proof.
  intros Hc. unfold SequenceGraphicsItem.set_selection,
               SequenceItemModel.set_selection.
  rewrite Z.min_id, Z.max_id.
  destruct (col <? SequenceItemModel.length item) eqn:E.
  - replace (Z.max 0 col >=? Z.min (SequenceItemModel.length item) (col + 1))
      with false by lia.
    cbn. f_equal. f_equal; lia.
  - replace (Z.max 0 col >=? Z.min (SequenceItemModel.length item) (col + 1))
      with true by lia.
    reflexivity.
Qed.

(** X14.  A click selects one cell.  A left press on a cell of an existing row
    (content not empty) is taken, starts a drag, puts the anchor on that
    cell and selects the single column [min(col, max_length - 1)]; on the
    canvas the clicked row shows that one cell -- nothing if the row is
    shorter -- and every other row shows no selection. *)
Theorem press_selects_one_cell :
  forall (c : t) (model : SequenceViewerModel.t)
         (view : SequenceViewerView.t) (event : QMouseEvent) (row col : Z),
    left_button event = true ->
    SequenceViewerView.scene_pos_to_row_col view (scene_x event)
                                            (scene_y event)
      = Some (row, col) ->
    0 <= row < SequenceViewerModel.get_row_count model ->
    0 <= col ->
    0 < SequenceViewerModel.max_sequence_length model ->
    let cell := Z.min col (SequenceViewerModel.max_sequence_length model - 1) in
    exists (c' : t) (model' : SequenceViewerModel.t)
           (view' : SequenceViewerView.t),
      handle_mouse_press c model view event = Some (true, c', model', view') /\
      _is_selecting c' = true /\
      SequenceViewerModel.selection_start_row model' = Some row /\
      SequenceViewerModel.selection_start_col model' = Some col /\
      SequenceViewerModel.get_selection_column_range model'
        = Some (cell, cell) /\
      forall (i : nat) (item : SequenceItemModel.t),
        nth_error (SequenceViewerView.sequence_items view) i = Some item ->
        exists item' : SequenceItemModel.t,
          nth_error (SequenceViewerView.sequence_items view') i = Some item' /\
          SequenceItemModel.selection_range item'
            = if (Z.of_nat i =? row) && (cell <? SequenceItemModel.length item)
              then Some (cell, cell + 1) else None.
Proof.
  intros c model view event row col Hleft Hpos Hrow Hcol Hlen cell.
  unfold handle_mouse_press. rewrite Hleft. cbn [negb].
  replace (SequenceViewerModel.get_row_count model =? 0) with false by lia.
  rewrite Hpos.
  replace ((0 <=? row) && (row <? SequenceViewerModel.get_row_count model)
           && (col >=? 0)) with true
    by (symmetry; rewrite !andb_true_iff; repeat split; lia).
  unfold SequenceViewerModel.start_selection.
  replace (SequenceViewerModel.get_row_count model =? 0) with false by lia.
  replace ((row <? 0) || (row >=? SequenceViewerModel.get_row_count model)
           || (col <? 0)) with false
    by (symmetry; rewrite !orb_false_iff; repeat split; lia).
  unfold SequenceViewerModel.update_selection,
    SequenceViewerModel._clamp_column_index.
  cbn [SequenceViewerModel.selection_start_row
       SequenceViewerModel.selection_start_col
       SequenceViewerModel.max_sequence_length].
  replace (SequenceViewerModel.max_sequence_length model <=? 0) with false
    by lia.
  unfold SequenceViewerModel.get_row_count in *.
  cbn [SequenceViewerModel._sequences].
  replace (Z.of_nat (List.length (SequenceViewerModel._sequences model)) =? 0)
    with false by lia.
  assert (Hcell : Z.max 0 (Z.min col
                    (SequenceViewerModel.max_sequence_length model - 1))
                  = cell) by (unfold cell; lia).
  rewrite Hcell, Z.min_id, Z.max_id, !Z.min_id, !Z.max_id.
  replace ((cell >=? 0) && (cell >=? 0)) with true
    by (symmetry; apply andb_true_iff; unfold cell; lia).
  do 3 eexists. split; [reflexivity|].
  split; [reflexivity|]. split; [reflexivity|]. split; [reflexivity|].
  split; [reflexivity|].
  intros i item Hitem. unfold show_range.
  assert (Hcell0 : 0 <= cell) by (unfold cell; lia).
  rewrite set_visual_selection_row by exact Hcell0.
  rewrite Hitem. cbn [option_map]. eexists. split; [reflexivity|].
  replace (Z.max 0 row) with row by lia.
  replace (Z.min (Z.of_nat (List.length (SequenceViewerModel._sequences model))
                  - 1) row) with row by lia.
  replace ((row <=? Z.of_nat i) && (Z.of_nat i <=? row))
    with (Z.of_nat i =? row) by lia.
  destruct (Z.of_nat i =? row).
  - rewrite single_cell_selection by exact Hcell0. reflexivity.
  - reflexivity.
Qed.

(** X15.  A click beside the rows clears.  A left press whose scene point is
    above, below or left of the cells of a non-empty content is taken; it
    clears the anchor and the column range of the store, removes the
    highlight from every row, and ends any drag, so that a following mouse
    move is declined. *)
Theorem press_outside_clears_selection :
  forall (c : t) (model : SequenceViewerModel.t)
         (view : SequenceViewerView.t) (event : QMouseEvent) (row col : Z),
    left_button event = true ->
    0 < SequenceViewerModel.get_row_count model ->
    SequenceViewerView.scene_pos_to_row_col view (scene_x event)
                                            (scene_y event)
      = Some (row, col) ->
    row < 0 \/ SequenceViewerModel.get_row_count model <= row \/ col < 0 ->
    exists (c' : t) (view' : SequenceViewerView.t),
      handle_mouse_press c model view event
        = Some (true, c', SequenceViewerModel.clear_selection model, view') /\
      _is_selecting c' = false /\
      SequenceViewerModel.get_selection_column_range
        (SequenceViewerModel.clear_selection model) = None /\
      SequenceViewerModel.get_selection_center_nt
        (SequenceViewerModel.clear_selection model) = None /\
      List.length (SequenceViewerView.sequence_items view')
        = List.length (SequenceViewerView.sequence_items view) /\
      (forall item' : SequenceItemModel.t,
         In item' (SequenceViewerView.sequence_items view') ->
         SequenceItemModel.selection_range item' = None) /\
      forall e2 : QMouseEvent,
        handle_mouse_move c' (SequenceViewerModel.clear_selection model)
                          view' e2
          = Some (false, c', SequenceViewerModel.clear_selection model, view').
Proof.
  intros c model view event row col Hleft Hrows Hpos Hout.
  unfold handle_mouse_press. rewrite Hleft. cbn [negb].
  replace (SequenceViewerModel.get_row_count model =? 0) with false by lia.
  rewrite Hpos.
  replace ((0 <=? row) && (row <? SequenceViewerModel.get_row_count model)
           && (col >=? 0)) with false
    by (symmetry; rewrite !andb_false_iff; lia).
  do 2 eexists. split; [reflexivity|].
  split; [reflexivity|]. split; [reflexivity|]. split; [reflexivity|].
  split; [|split].
  - unfold SequenceViewerView.clear_visual_selection.
    cbn [SequenceViewerView.sequence_items SequenceViewerView.with_items].
    apply length_map.
  - intros item' Hin.
    unfold SequenceViewerView.clear_visual_selection in Hin.
    cbn [SequenceViewerView.sequence_items SequenceViewerView.with_items]
      in Hin.
    apply in_map_iff in Hin as (item & <- & _). reflexivity.
  - intros e2. reflexivity.
Qed.

(** X16.  A drag follows the pointer until the button is released.  While a
    drag is on (anchor present, content not empty) a mouse move is taken,
    keeps the anchor, stores the column range between the bounded anchor
    and pointer columns, and highlights that range in exactly the rows
    between the anchor row and the pointer row (bounded to the rows), the
    other rows showing nothing; after the left button is released every
    further move is declined and changes nothing. *)
Theorem drag_follows_pointer_until_release :
  forall (c : t) (model : SequenceViewerModel.t)
         (view : SequenceViewerView.t) (event release : QMouseEvent)
         (row col anchor_row anchor_col : Z),
    _is_selecting c = true ->
    SequenceViewerModel.selection_start_row model = Some anchor_row ->
    SequenceViewerModel.selection_start_col model = Some anchor_col ->
    SequenceViewerModel.anchor_ok model ->
    0 < SequenceViewerModel.max_sequence_length model ->
    SequenceViewerView.scene_pos_to_row_col view (scene_x event)
                                            (scene_y event)
      = Some (row, col) ->
    left_button release = true ->
    let clamp x :=
      Z.max 0 (Z.min x (SequenceViewerModel.max_sequence_length model - 1)) in
    let row_start := Z.max 0 (Z.min anchor_row row) in
    let row_end := Z.min (SequenceViewerModel.get_row_count model - 1)
                         (Z.max anchor_row row) in
    let col_start := Z.min (clamp anchor_col) (clamp col) in
    let col_end := Z.max (clamp anchor_col) (clamp col) in
    exists (model' : SequenceViewerModel.t) (view' : SequenceViewerView.t),
      handle_mouse_move c model view event = Some (true, c, model', view') /\
      SequenceViewerModel.selection_start_row model' = Some anchor_row /\
      SequenceViewerModel.selection_start_col model' = Some anchor_col /\
      SequenceViewerModel.get_selection_column_range model'
        = Some (col_start, col_end) /\
      (forall (i : nat) (item : SequenceItemModel.t),
         nth_error (SequenceViewerView.sequence_items view) i = Some item ->
         exists item' : SequenceItemModel.t,
           nth_error (SequenceViewerView.sequence_items view') i
             = Some item' /\
           SequenceItemModel.selection_range item'
             = if (row_start <=? Z.of_nat i) && (Z.of_nat i <=? row_end)
               then SequenceItemModel.selection_range
                      (SequenceItemModel.set_selection item col_start col_end)
               else None) /\
      fst (handle_mouse_release c release) = true /\
      _is_selecting (snd (handle_mouse_release c release)) = false /\
      forall (m2 : SequenceViewerModel.t) (v2 : SequenceViewerView.t)
             (e2 : QMouseEvent),
        handle_mouse_move (snd (handle_mouse_release c release)) m2 v2 e2
          = Some (false, snd (handle_mouse_release c release), m2, v2).
Proof.
  intros c model view event release row col ar ac Hsel Hr Hc [Hrow Hcolok]
         Hlen Hpos Hleft clamp rs re cs ce.
  specialize (Hrow ar Hr). specialize (Hcolok ac Hc).
  unfold handle_mouse_move. rewrite Hsel, Hr, Hpos.
  unfold SequenceViewerModel.update_selection,
    SequenceViewerModel._clamp_column_index.
  rewrite Hr, Hc.
  replace (SequenceViewerModel.max_sequence_length model <=? 0) with false
    by lia.
  replace (SequenceViewerModel.get_row_count model =? 0) with false by lia.
  fold (clamp ac) (clamp col). fold cs ce rs re.
  assert (Hcs : 0 <= cs) by (unfold cs, clamp; lia).
  assert (Hce : 0 <= ce) by (unfold ce, clamp; lia).
  replace ((cs >=? 0) && (ce >=? 0)) with true
    by (symmetry; apply andb_true_iff; lia).
  do 2 eexists. split; [reflexivity|].
  split; [reflexivity|]. split; [reflexivity|]. split; [reflexivity|].
  split.
  - intros i item Hitem. unfold show_range.
    rewrite set_visual_selection_row by assumption.
    rewrite Hitem. cbn [option_map]. eexists. split; [reflexivity|].
    destruct ((rs <=? Z.of_nat i) && (Z.of_nat i <=? re)); reflexivity.
  - unfold handle_mouse_release. rewrite Hleft, Hsel. cbn.
    repeat split.
Qed.

(** A left press at the scene point (66, 5) of the 1000-column canvas:
    row 0, column 5. *)
Lemma press_selects_one_cell_witness :
  left_button Inputs.press_in_cell = true /\
  SequenceViewerView.scene_pos_to_row_col Inputs.canvas_1000
    (scene_x Inputs.press_in_cell) (scene_y Inputs.press_in_cell)
    = Some (0, 5) /\
  0 <= 0 < SequenceViewerModel.get_row_count Inputs.store_1000 /\
  0 <= 5 /\
  0 < SequenceViewerModel.max_sequence_length Inputs.store_1000 /\
  exists (c' : t) (model' : SequenceViewerModel.t)
         (view' : SequenceViewerView.t),
    handle_mouse_press init Inputs.store_1000 Inputs.canvas_1000
                       Inputs.press_in_cell
      = Some (true, c', model', view') /\
    _is_selecting c' = true /\
    SequenceViewerModel.get_selection_column_range model' = Some (5, 5).
Proof.
  assert (H1 : left_button Inputs.press_in_cell = true) by reflexivity.
  assert (H2 : SequenceViewerView.scene_pos_to_row_col Inputs.canvas_1000
                 (scene_x Inputs.press_in_cell) (scene_y Inputs.press_in_cell)
               = Some (0, 5)) by (vm_compute; reflexivity).
  assert (H3 : 0 <= 0 < SequenceViewerModel.get_row_count Inputs.store_1000)
    by (vm_compute; split; [discriminate | reflexivity]).
  assert (H4 : 0 <= 5) by discriminate.
  assert (H5 : 0 < SequenceViewerModel.max_sequence_length Inputs.store_1000)
    by reflexivity.
  do 5 (split; [assumption|]).
  destruct (press_selects_one_cell init Inputs.store_1000
              Inputs.canvas_1000 Inputs.press_in_cell 0 5 H1 H2 H3 H4 H5)
    as (c' & model' & view' & E & S & _ & _ & R & _).
  exists c', model', view'. split; [exact E|]. split; [exact S | exact R].
Defined.

(** A left press at the scene point (66, 40), below the only row. *)
Lemma press_outside_clears_selection_witness :
  left_button Inputs.press_below_rows = true /\
  0 < SequenceViewerModel.get_row_count Inputs.pressed_model /\
  SequenceViewerView.scene_pos_to_row_col Inputs.canvas_1000
    (scene_x Inputs.press_below_rows) (scene_y Inputs.press_below_rows)
    = Some (2, 5) /\
  (2 < 0 \/ SequenceViewerModel.get_row_count Inputs.pressed_model <= 2
   \/ 5 < 0) /\
  exists (c' : t) (view' : SequenceViewerView.t),
    handle_mouse_press Inputs.dragging Inputs.pressed_model Inputs.canvas_1000
                       Inputs.press_below_rows
      = Some (true, c',
              SequenceViewerModel.clear_selection Inputs.pressed_model,
              view') /\
    _is_selecting c' = false.
Proof.
  assert (H1 : left_button Inputs.press_below_rows = true) by reflexivity.
  assert (H2 : 0 < SequenceViewerModel.get_row_count Inputs.pressed_model)
    by reflexivity.
  assert (H3 : SequenceViewerView.scene_pos_to_row_col Inputs.canvas_1000
                 (scene_x Inputs.press_below_rows)
                 (scene_y Inputs.press_below_rows)
               = Some (2, 5)) by (vm_compute; reflexivity).
  assert (H4 : 2 < 0
               \/ SequenceViewerModel.get_row_count Inputs.pressed_model <= 2
               \/ 5 < 0)
    by (right; left; vm_compute; discriminate).
  do 4 (split; [assumption|]).
  destruct (press_outside_clears_selection Inputs.dragging
              Inputs.pressed_model Inputs.canvas_1000 Inputs.press_below_rows
              2 5 H1 H2 H3 H4)
    as (c' & view' & E & S & _).
  exists c', view'. split; [exact E | exact S].
Defined.

(** Pressed at column 500, dragged to the scene point (30, 5), column 2,
    then released. *)
Lemma drag_follows_pointer_until_release_witness :
  _is_selecting Inputs.dragging = true /\
  SequenceViewerModel.selection_start_row Inputs.pressed_model = Some 0 /\
  SequenceViewerModel.selection_start_col Inputs.pressed_model = Some 500 /\
  SequenceViewerModel.anchor_ok Inputs.pressed_model /\
  0 < SequenceViewerModel.max_sequence_length Inputs.pressed_model /\
  SequenceViewerView.scene_pos_to_row_col Inputs.canvas_1000
    (scene_x Inputs.drag_to_col_2) (scene_y Inputs.drag_to_col_2)
    = Some (0, 2) /\
  left_button Inputs.drag_to_col_2 = true /\
  exists (model' : SequenceViewerModel.t) (view' : SequenceViewerView.t),
    handle_mouse_move Inputs.dragging Inputs.pressed_model Inputs.canvas_1000
                      Inputs.drag_to_col_2
      = Some (true, Inputs.dragging, model', view') /\
    SequenceViewerModel.get_selection_column_range model' = Some (2, 500).
Proof.
  assert (H1 : _is_selecting Inputs.dragging = true) by reflexivity.
  assert (H2 : SequenceViewerModel.selection_start_row Inputs.pressed_model
               = Some 0) by reflexivity.
  assert (H3 : SequenceViewerModel.selection_start_col Inputs.pressed_model
               = Some 500) by reflexivity.
  assert (H4 : SequenceViewerModel.anchor_ok Inputs.pressed_model)
    by (split; intros ? H; vm_compute in H; injection H as <-; vm_compute;
        try split; congruence).
  assert (H5 : 0 < SequenceViewerModel.max_sequence_length
                     Inputs.pressed_model) by reflexivity.
  assert (H6 : SequenceViewerView.scene_pos_to_row_col Inputs.canvas_1000
                 (scene_x Inputs.drag_to_col_2) (scene_y Inputs.drag_to_col_2)
               = Some (0, 2)) by (vm_compute; reflexivity).
  assert (H7 : left_button Inputs.drag_to_col_2 = true) by reflexivity.
  do 7 (split; [assumption|]).
  destruct (drag_follows_pointer_until_release Inputs.dragging
              Inputs.pressed_model Inputs.canvas_1000 Inputs.drag_to_col_2
              Inputs.drag_to_col_2 0 2 0 500 H1 H2 H3 H4 H5 H6 H7)
    as (model' & view' & E & _ & _ & R & _).
  exists model', view'. split; [exact E | exact R].
Defined.

End MouseFacts.

(* ------------------------------------------------------------------ *)
(** ** Navigation ruler: cached length and pixel positions *)
(* ------------------------------------------------------------------ *)

Module NavigationFacts.
Import NavigationRulerModel FloatFacts.
Local Open Scope Q_scope.

Lemma fold_item_len_max (items : list SequenceGraphicsItem.t) (acc : Z) :
  (0 <= acc)%Z ->
  fold_left (fun a it => Z.max a (SequenceViewerView.item_len it)) items acc
    = Z.max acc (SequenceViewerModel.max_len_of
                   (map SequenceItemModel.sequence items)).
Proof.
  revert acc. unfold SequenceViewerModel.max_len_of.
  induction items as [|it items IH]; intros acc Hacc;
    cbn [fold_left map fold_right].
  - lia.
  - assert (0 <= SequenceViewerView.item_len it)%Z
      by (unfold SequenceViewerView.item_len; lia).
    rewrite IH by lia.
    unfold SequenceViewerView.item_len, SequenceViewerModel.len. lia.
Qed.

(** X17.  The minimap's cache cannot go stale: whatever the cache held,
    [recompute_max_len_if_needed] returns the maximum of the current row
    lengths (0 for no rows) and leaves exactly that maximum and the current
    row count in the cache; a second call changes nothing. *)
Theorem recompute_max_len_is_current :
  forall (m : t) (items : list SequenceGraphicsItem.t),
    let m' := fst (recompute_max_len_if_needed m items) in
    let longest :=
      SequenceViewerModel.max_len_of (map SequenceItemModel.sequence items) in
    snd (recompute_max_len_if_needed m items) = longest /\
    _cached_max_len m' = longest /\
    _last_seq_count m' = Z.of_nat (List.length items) /\
    recompute_max_len_if_needed m' items = (m', longest).
Proof.
  intros m items m' longest.
  assert (Hnew : match items with
                 | [] => 0%Z
                 | first :: others =>
                     fold_left
                       (fun acc it => Z.max acc (SequenceViewerView.item_len it))
                       others (SequenceViewerView.item_len first)
                 end = longest).
  { unfold longest. destruct items as [|first others]; [reflexivity|].
    rewrite fold_item_len_max by (unfold SequenceViewerView.item_len; lia).
    cbn [map SequenceViewerModel.max_len_of fold_right].
    unfold SequenceViewerView.item_len, SequenceViewerModel.len.
    reflexivity. }
  assert (Hm' : _cached_max_len m' = longest /\
                _last_seq_count m' = Z.of_nat (List.length items)).
  { unfold m', recompute_max_len_if_needed. cbn [fst]. rewrite Hnew.
    destruct (Z.of_nat (List.length items) =? _last_seq_count m)%Z eqn:E1;
      destruct (longest =? _cached_max_len m)%Z eqn:E2;
      cbn [negb orb _cached_max_len _last_seq_count]; try (split; reflexivity).
    apply Z.eqb_eq in E1, E2. split; congruence. }
  destruct Hm' as [Hc Hl].
  split; [|split; [exact Hc|split; [exact Hl|]]].
  - unfold recompute_max_len_if_needed. cbn [snd]. fold m'.
    unfold recompute_max_len_if_needed in m'. cbn [fst] in m'.
    exact Hc.
  - unfold recompute_max_len_if_needed at 1. rewrite Hnew, Hc, Hl.
    rewrite !Z.eqb_refl. cbn [negb orb]. rewrite Hc. reflexivity.
Qed.

(** X18.  Pixel to position on the minimap: for content and a positive width
    [x_to_nt] stays within [0, max_len], is 0 at and left of pixel 0,
    [max_len] at and right of the last pixel, [x * max_len / width] in
    between, and never decreases as [x] grows. *)
Theorem x_to_nt_bounds :
  forall (m : t) (x x' pixel_width : Z),
    (0 < _cached_max_len m)%Z -> (0 < pixel_width)%Z ->
    0 <= x_to_nt m x pixel_width <= inject_Z (_cached_max_len m) /\
    ((x <= 0)%Z -> x_to_nt m x pixel_width == 0) /\
    ((pixel_width <= x)%Z ->
     x_to_nt m x pixel_width == inject_Z (_cached_max_len m)) /\
    ((0 <= x <= pixel_width)%Z ->
     x_to_nt m x pixel_width
     == inject_Z x * inject_Z (_cached_max_len m) / inject_Z pixel_width) /\
    ((x <= x')%Z -> x_to_nt m x pixel_width <= x_to_nt m x' pixel_width).
Proof.
  intros m x x' w Hlen Hw.
  assert (Hlq : 0 < inject_Z (_cached_max_len m))
    by (change 0 with (inject_Z 0); rewrite <- Zlt_Qlt; exact Hlen).
  assert (Hwq : 0 < inject_Z w)
    by (change 0 with (inject_Z 0); rewrite <- Zlt_Qlt; exact Hw).
  assert (Hinv : 0 < / inject_Z w) by (apply Qinv_lt_0_compat; exact Hwq).
  assert (Hone : inject_Z w * / inject_Z w == 1) by (field; lra).
  assert (Hunf : forall y : Z,
    x_to_nt m y w
    = Float.min (Float.max (inject_Z y / inject_Z w) 0.0) 1.0
      * inject_Z (_cached_max_len m)).
  { intros y. unfold x_to_nt.
    replace ((_cached_max_len m <=? 0)%Z || (w <=? 0)%Z) with false
      by (symmetry; apply orb_false_iff; split; lia).
    reflexivity. }
  assert (Hratio : forall y : Z,
    let r := Float.min (Float.max (inject_Z y / inject_Z w) 0.0) 1.0 in
    0 <= r <= 1 /\
    ((y <= 0)%Z -> r == 0) /\ ((w <= y)%Z -> r == 1) /\
    ((0 <= y <= w)%Z -> r == inject_Z y * / inject_Z w)).
  { intros y r. unfold r, Qdiv.
    set (q := inject_Z y * / inject_Z w).
    assert (Hq0 : (y <= 0)%Z -> q <= 0).
    { intros H. rewrite Zle_Qle in H. change (inject_Z 0) with 0 in H.
      unfold q. nra. }
    assert (Hq0' : (0 <= y)%Z -> 0 <= q).
    { intros H. rewrite Zle_Qle in H. change (inject_Z 0) with 0 in H.
      unfold q. nra. }
    assert (Hq1 : (w <= y)%Z -> 1 <= q).
    { intros H. rewrite Zle_Qle in H. unfold q. nra. }
    assert (Hq1' : (y <= w)%Z -> q <= 1).
    { intros H. rewrite Zle_Qle in H. unfold q. nra. }
    clearbody q.
    destruct (max_spec q 0.0) as [[A ->]|[A ->]];
      match goal with
      | |- context [Float.min ?a ?b] =>
          destruct (min_spec a b) as [[B ->]|[B ->]]
      end; repeat split; intros; try lra;
      try (specialize (Hq0 ltac:(lia))); try (specialize (Hq1 ltac:(lia)));
      try (specialize (Hq0' ltac:(lia))); try (specialize (Hq1' ltac:(lia)));
      lra. }
  rewrite !Hunf.
  destruct (Hratio x) as (R1 & R2 & R3 & R4). cbv zeta in R1, R2, R3, R4.
  set (r := Float.min (Float.max (inject_Z x / inject_Z w) 0.0) 1.0) in *.
  split; [split; nra|].
  split; [intros H; rewrite (R2 H); lra|].
  split; [intros H; rewrite (R3 H); lra|].
  split; [intros H; rewrite (R4 H); field; lra|].
  intros Hxx.
  (* monotone: the ratio is monotone *)
  assert (Hmono : r <= Float.min (Float.max (inject_Z x' / inject_Z w) 0.0) 1.0).
  { unfold r.
    assert (Hq : inject_Z x / inject_Z w <= inject_Z x' / inject_Z w).
    { rewrite Zle_Qle in Hxx. unfold Qdiv. nra. }
    set (q := inject_Z x / inject_Z w) in *.
    set (q' := inject_Z x' / inject_Z w) in *. clearbody q q'.
    destruct (max_spec q 0.0) as [[A ->]|[A ->]];
      destruct (max_spec q' 0.0) as [[A' ->]|[A' ->]];
      repeat match goal with
      | |- context [Float.min ?a ?b] =>
          destruct (min_spec a b) as [[? ->]|[? ->]]
      end; lra. }
  nra.
Qed.

(** Content of 1000 columns on a minimap of 500 px, pixels 250 and 300. *)
Lemma x_to_nt_bounds_witness :
  (0 < _cached_max_len Inputs.minimap_1000)%Z /\ (0 < 500)%Z /\
  0 <= x_to_nt Inputs.minimap_1000 250 500
    <= inject_Z (_cached_max_len Inputs.minimap_1000).
Proof.
  assert (H1 : (0 < _cached_max_len Inputs.minimap_1000)%Z) by reflexivity.
  assert (H2 : (0 < 500)%Z) by reflexivity.
  split; [exact H1|]. split; [exact H2|].
  exact (proj1 (x_to_nt_bounds Inputs.minimap_1000 250 300 500
                  H1 H2)).
Defined.

End NavigationFacts.

(* ------------------------------------------------------------------ *)
(** ** Navigation ruler: tick labels *)
(* ------------------------------------------------------------------ *)

Module LabelFacts.
Import NavigationRulerModel FloatFacts.
Local Open Scope Z_scope.

Lemma str_injective (a b : Z) : str a = str b -> a = b.
Proof.
  unfold str. intros H.
  assert (Hnn : forall z : Z, Z.to_int z <> Decimal.Pos Decimal.Nil /\
                              Z.to_int z <> Decimal.Neg Decimal.Nil).
  { intros [|p|p]; cbn; split; try discriminate; intros E; injection E as E;
      exact (DecimalPos.Unsigned.to_uint_nonnil p E). }
  assert (Ha := NilZero.isi (Z.to_int a) (proj1 (Hnn a)) (proj2 (Hnn a))).
  assert (Hb := NilZero.isi (Z.to_int b) (proj1 (Hnn b)) (proj2 (Hnn b))).
  rewrite H in Ha. rewrite Ha in Hb. injection Hb as Hb.
  apply DecimalZ.to_int_inj. exact Hb.
Qed.

Lemma length_append (s1 s2 : string) :
  String.length (s1 ++ s2) = (String.length s1 + String.length s2)%nat.
Proof.
  induction s1 as [|c s1 IH]; [reflexivity|]. cbn. rewrite IH. reflexivity.
Qed.

Lemma append_inv_tail (s1 s2 t : string) :
  (s1 ++ t)%string = (s2 ++ t)%string -> s1 = s2.
Proof.
  revert s2. induction s1 as [|c s1 IH]; intros s2 H.
  - destruct s2 as [|c2 s2]; [reflexivity|].
    apply (f_equal String.length) in H. cbn in H.
    rewrite length_append in H. lia.
  - destruct s2 as [|c2 s2].
    + apply (f_equal String.length) in H. cbn in H.
      rewrite length_append in H. lia.
    + cbn in H. injection H as -> H. f_equal. apply IH. exact H.
Qed.

Lemma round_of_integer (x : Q) (z : Z) : (x == inject_Z z)%Q -> Float.round x = z.
Proof.
  intros H. unfold Float.round. rewrite (Qfloor_comp _ _ H), Qfloor_Z.
  replace (Float.ltb (x - inject_Z z) (1 # 2)) with true; [reflexivity|].
  symmetry. apply ltb_true. lra.
Qed.

(** X19.  Tick labels.  For content of at most 1,000,000 columns a label is the
    plain decimal of the value (the special case for 1 changes nothing),
    so different values never share a label.  For longer content the value
    1 is still written 1, every other value is written in thousands with a
    K, a multiple [1000 * k] exactly as [k] followed by K, and different
    multiples of 1000 never share a label. *)
Theorem format_label_cases :
  forall (m : t) (value value' k k' : Z),
    (_cached_max_len m <= 1000000 ->
     format_label m value = str value /\
     (format_label m value = format_label m value' -> value = value')) /\
    (1000000 < _cached_max_len m ->
     format_label m 1 = "1"%string /\
     (value <> 1 ->
      format_label m value
      = (str (Float.round (inject_Z value / 1000.0)) ++ "K")%string) /\
     format_label m (1000 * k) = (str k ++ "K")%string /\
     (format_label m (1000 * k) = format_label m (1000 * k') -> k = k')).
Proof.
  intros m value value' k k'.
  assert (Hplain : forall v : Z,
             _cached_max_len m <= 1000000 -> format_label m v = str v).
  { intros v H. unfold format_label.
    destruct (v =? 1) eqn:E; [apply Z.eqb_eq in E; subst v; reflexivity|].
    replace (_cached_max_len m >? 1000000) with false by lia. reflexivity. }
  assert (Hk : forall j : Z,
             1000000 < _cached_max_len m ->
             format_label m (1000 * j) = (str j ++ "K")%string).
  { intros j H. unfold format_label.
    replace (1000 * j =? 1) with false by lia.
    replace (_cached_max_len m >? 1000000) with true by lia.
    rewrite (round_of_integer _ j); [reflexivity|].
    rewrite inject_Z_mult. change (inject_Z 1000) with 1000%Q. field. }
  split.
  - intros H. split; [apply Hplain; exact H|].
    rewrite !Hplain by exact H. apply str_injective.
  - intros H. split; [reflexivity|]. split; [|split].
    + intros Hv. unfold format_label.
      replace (value =? 1) with false by lia.
      replace (_cached_max_len m >? 1000000) with true by lia. reflexivity.
    + apply Hk. exact H.
    + rewrite !Hk by exact H. intros E.
      apply str_injective. apply (append_inv_tail _ _ "K"). exact E.
Qed.

End LabelFacts.

(* ------------------------------------------------------------------ *)
(** ** Navigation ruler: the tick grid *)
(* ------------------------------------------------------------------ *)

Module TickGridFacts.
Import NavigationRulerModel FloatFacts.
Local Open Scope Z_scope.

Lemma grid_empty (nt step max_nt : Z) :
  1 <= step -> max_nt < nt -> grid nt step max_nt = [].
Proof.
  intros Hs Hlt. unfold grid.
  assert ((max_nt - nt) / step < 0) by (apply Z.div_lt_upper_bound; lia).
  replace (Z.to_nat ((max_nt - nt) / step + 1)) with 0%nat by lia.
  reflexivity.
Qed.

Lemma grid_step (nt step max_nt : Z) :
  1 <= step -> nt <= max_nt ->
  grid nt step max_nt = nt :: grid (nt + step) step max_nt.
Proof.
  intros Hs Hle. unfold grid.
  assert (Hq : (max_nt - nt) / step = (max_nt - (nt + step)) / step + 1).
  { replace (max_nt - nt) with (max_nt - (nt + step) + 1 * step) by lia.
    rewrite Z.div_add by lia. reflexivity. }
  assert (Hq0 : 0 <= (max_nt - nt) / step) by (apply Z.div_pos; lia).
  replace (Z.to_nat ((max_nt - nt) / step + 1))
    with (S (Z.to_nat ((max_nt - (nt + step)) / step + 1))) by lia.
  cbn [seq map]. f_equal; [lia|].
  rewrite <- seq_shift, map_map. apply map_ext. intros i. lia.
Qed.

Lemma tick_loop_is_grid (step max_nt : Z) (fuel : nat) :
  1 <= step ->
  forall (nt : Z) (ticks : list Z),
    Z.max 0 (max_nt - nt + 1) < Z.of_nat fuel ->
    tick_loop fuel nt step max_nt ticks = Some (ticks ++ grid nt step max_nt).
Proof.
  intros Hs. induction fuel as [|fuel IH]; intros nt ticks Hfuel; [lia|].
  cbn [tick_loop]. destruct (nt <=? max_nt) eqn:E.
  - apply Z.leb_le in E. rewrite IH by lia.
    rewrite (grid_step nt step max_nt Hs E), <- app_assoc. reflexivity.
  - apply Z.leb_gt in E. rewrite grid_empty by lia.
    rewrite app_nil_r. reflexivity.
Qed.

Lemma in_grid (step max_nt t : Z) :
  1 <= step ->
  (In t (grid 0 step max_nt) <-> 0 <= t <= max_nt /\ t mod step = 0).
Proof.
  intros Hs. unfold grid. rewrite in_map_iff. split.
  - intros (i & <- & Hi). apply in_seq in Hi.
    rewrite Z.sub_0_r in Hi.
    assert (Hq : Z.of_nat i <= max_nt / step) by lia.
    assert (Hm : Z.of_nat i * step <= max_nt).
    { pose proof (Z.mul_div_le max_nt step ltac:(lia)). nia. }
    split; [nia|]. rewrite Z.add_0_l. apply Z.mod_mul. lia.
  - intros ([H0 H1] & Hm).
    exists (Z.to_nat (t / step)). split.
    + rewrite Z2Nat.id by (apply Z.div_pos; lia).
      pose proof (Z.div_mod t step ltac:(lia)). lia.
    + apply in_seq. rewrite Z.sub_0_r.
      assert (t / step <= max_nt / step) by (apply Z.div_le_mono; lia).
      assert (0 <= t / step) by (apply Z.div_pos; lia).
      lia.
Qed.

Lemma nice_step_grid (nice k : Z) :
  nice = 1 \/ nice = 2 \/ nice = 5 \/ nice = 10 -> 0 <= k ->
  let step := nice * 10 ^ k in
  1 <= step /\ step mod Z.max (step / 5) 1 = 0.
Proof.
  intros Hn Hk step.
  assert (Hp : 1 <= 10 ^ k) by (pose proof (Z.pow_pos_nonneg 10 k); lia).
  split; [unfold step; nia|].
  destruct (Z.eq_dec k 0) as [-> | Hk0].
  - unfold step. change (10 ^ 0) with 1.
    destruct Hn as [-> | [-> | [-> | ->]]]; reflexivity.
  - assert (E : 10 ^ k = 10 * 10 ^ (k - 1)).
    { replace k with (1 + (k - 1)) at 1 by lia.
      rewrite Z.pow_add_r by lia. reflexivity. }
    assert (Hq : 1 <= 10 ^ (k - 1))
      by (pose proof (Z.pow_pos_nonneg 10 (k - 1)); lia).
    set (p := 10 ^ (k - 1)) in *.
    assert (Hdiv : step / 5 = nice * 2 * p).
    { unfold step. rewrite E.
      replace (nice * (10 * p)) with (nice * 2 * p * 5) by lia.
      apply Z.div_mul. lia. }
    rewrite Hdiv.
    replace (Z.max (nice * 2 * p) 1) with (nice * 2 * p) by nia.
    unfold step. rewrite E.
    replace (nice * (10 * p)) with (5 * (nice * 2 * p)) by lia.
    apply Z.mod_mul. nia.
Qed.

(** X20.  Minor and major ticks share one grid.  For a navigation ruler whose raw
    step is at least 1 and enough fuel for the loops, the layout exists;
    its minor ticks are exactly the multiples of [max(step / 5, 1)] from 0
    up to the content length; the minor step divides the step; and every
    major tick is the content end or lies on a minor tick. *)
Theorem major_ticks_lie_on_minor_ticks :
  forall (m : t) (pixel_width target_px : Z) (fuel : nat),
    0 < _cached_max_len m -> 0 < pixel_width ->
    (1 <= inject_Z (_cached_max_len m * target_px) / inject_Z pixel_width)%Q ->
    _cached_max_len m + 1 < Z.of_nat fuel ->
    exists layout : NavigationTickLayout,
      compute_tick_layout fuel m pixel_width target_px = Some (Some layout) /\
      let minor_step := Z.max (tick_step layout / 5) 1 in
      1 <= tick_step layout /\
      tick_step layout mod minor_step = 0 /\
      (forall t : Z,
         In t (minor_ticks layout) <->
         0 <= t <= _cached_max_len m /\ t mod minor_step = 0) /\
      (forall t : Z,
         In t (major_ticks layout) ->
         t = _cached_max_len m \/
         (0 <= t <= _cached_max_len m /\ t mod tick_step layout = 0)) /\
      (forall t : Z,
         In t (major_ticks layout) ->
         t = _cached_max_len m \/ In t (minor_ticks layout)).
Proof.
  intros m pw tp fuel HL Hpw Hraw Hfuel.
  set (L := _cached_max_len m) in *.
  set (step := _nice_tick_step L pw tp).
  (* the chosen step is nice * 10^k *)
  assert (Hform : exists nice k : Z,
             (nice = 1 \/ nice = 2 \/ nice = 5 \/ nice = 10) /\ 0 <= k /\
             step = nice * 10 ^ k).
  { destruct (TickStepFacts.decade_of_raw_step _ Hraw) as (Hk & _ & _).
    eexists _, _. split; [|split; [exact Hk|]].
    2:{ unfold step, _nice_tick_step.
        replace ((L <=? 0) || (pw <=? 0)) with false
          by (symmetry; apply orb_false_iff; split; lia).
        replace (Float.leb (inject_Z (L * tp) / inject_Z pw) 0) with false
          by (symmetry; apply leb_false;
              apply Qlt_le_trans with 1%Q; [reflexivity | exact Hraw]).
        apply TickStepFacts.scaled_nice_exact. exact Hk. }
    unfold nice_of. repeat destruct (Float.leb _ _); auto. }
  destruct Hform as (nice & k & Hnice & Hk & Hstep).
  destruct (nice_step_grid nice k Hnice Hk) as [Hs1 Hsmod].
  cbv zeta in Hs1, Hsmod. rewrite <- Hstep in Hs1, Hsmod.
  set (minor_step := Z.max (step / 5) 1) in *.
  assert (Hminor1 : 1 <= minor_step) by (unfold minor_step; lia).
  (* the loops *)
  assert (Hminor : tick_loop fuel 0 minor_step L [] = Some (grid 0 minor_step L))
    by (rewrite tick_loop_is_grid by lia; reflexivity).
  assert (Hmajor : tick_loop fuel 0 step L [] = Some (grid 0 step L))
    by (rewrite tick_loop_is_grid by lia; reflexivity).
  eexists. split.
  { unfold compute_tick_layout. fold L.
    replace ((L <=? 0) || (pw <=? 0)) with false
      by (symmetry; apply orb_false_iff; split; lia).
    cbv zeta. fold step. fold minor_step. rewrite Hminor.
    unfold major_ticks_for. rewrite Hmajor. reflexivity. }
  cbn [tick_step minor_ticks major_ticks]. fold minor_step.
  split; [exact Hs1|]. split; [exact Hsmod|].
  split; [intros t; apply in_grid; exact Hminor1|].
  assert (Hmaj : forall t : Z,
             In t (fix_last_tick (grid 0 step L) step L) ->
             t = L \/ (0 <= t <= L /\ t mod step = 0)).
  { intros t Hin. unfold fix_last_tick in Hin.
    assert (Hg : forall u, In u (grid 0 step L) ->
                           0 <= u <= L /\ u mod step = 0)
      by (intros u Hu; apply in_grid in Hu; [exact Hu | exact Hs1]).
    destruct (rev (grid 0 step L)) as [|last_nt rest] eqn:Erev.
    - right. apply Hg. exact Hin.
    - destruct (L - last_nt =? 0); [right; apply Hg; exact Hin|].
      destruct (Float.ltb _ _).
      + apply in_app_iff in Hin as [Hin | [<- | []]]; [|left; reflexivity].
        right. apply Hg.
        assert (Hsplit : grid 0 step L = rev rest ++ [last_nt]).
        { rewrite <- (rev_involutive (grid 0 step L)), Erev. reflexivity. }
        rewrite Hsplit in Hin |- *. rewrite removelast_last in Hin.
        apply in_app_iff. left. exact Hin.
      + apply in_app_iff in Hin as [Hin | [<- | []]]; [|left; reflexivity].
        right. apply Hg. exact Hin. }
  split; [exact Hmaj|].
  intros t Hin. destruct (Hmaj t Hin) as [-> | [Hr Hm]]; [left; reflexivity|].
  right. apply in_grid; [exact Hminor1|]. split; [exact Hr|].
  apply Z.mod_divide; [lia|].
  apply Z.divide_trans with step.
  - apply Z.mod_divide; [lia | exact Hsmod].
  - apply Z.mod_divide; [lia | exact Hm].
Qed.

(** Content of 1000 columns over 600 px with a target of 60 px per tick. *)
Lemma major_ticks_lie_on_minor_ticks_witness :
  0 < _cached_max_len Inputs.minimap_1000 /\ 0 < 600 /\
  (1 <= inject_Z (_cached_max_len Inputs.minimap_1000 * 60) / inject_Z 600)%Q /\
  _cached_max_len Inputs.minimap_1000 + 1 < Z.of_nat 2000 /\
  exists layout : NavigationTickLayout,
    compute_tick_layout 2000 Inputs.minimap_1000 600 60
      = Some (Some layout) /\
    1 <= tick_step layout.
Proof.
  assert (H1 : 0 < _cached_max_len Inputs.minimap_1000) by reflexivity.
  assert (H2 : 0 < 600) by reflexivity.
  assert (H3 : (1 <= inject_Z (_cached_max_len Inputs.minimap_1000 * 60)
                     / inject_Z 600)%Q) by (vm_compute; discriminate).
  assert (H4 : _cached_max_len Inputs.minimap_1000 + 1 < Z.of_nat 2000)
    by reflexivity.
  do 4 (split; [assumption|]).
  destruct (major_ticks_lie_on_minor_ticks Inputs.minimap_1000
              600 60 2000%nat H1 H2 H3 H4) as (layout & E & S & _).
  exists layout. split; [exact E | exact S].
Defined.

End TickGridFacts.

(* ------------------------------------------------------------------ *)
(** ** Position ruler: the visible window *)
(* ------------------------------------------------------------------ *)

Module PositionLayoutFacts.
Import PositionRulerModel FloatFacts.
Local Open Scope Q_scope.

Lemma choose_step_at_least_1 (cw : Q) (span : Z) :
  (1 <= _choose_step_for_zoom cw span)%Z.
Proof.
  unfold _choose_step_for_zoom.
  destruct (span <=? 0)%Z; [lia|]. cbv zeta.
  destruct (Float.leb _ _); lia.
Qed.

Lemma floor_quotient (x w : Q) :
  0 < w ->
  inject_Z (Qfloor (x / w)) * w <= x /\ x < (inject_Z (Qfloor (x / w)) + 1) * w.
Proof.
  intros Hw.
  pose proof (Qfloor_le (x / w)) as F1.
  pose proof (Qlt_floor (x / w)) as F2.
  rewrite inject_Z_plus in F2. change (inject_Z 1) with 1 in F2.
  assert (Hx : x == x / w * w) by (field; lra).
  set (q := x / w) in *. clearbody q. split; nra.
Qed.

Lemma ceiling_quotient (x w : Q) :
  0 < w ->
  x <= inject_Z (Qceiling (x / w)) * w /\
  (inject_Z (Qceiling (x / w)) - 1) * w < x.
Proof.
  intros Hw.
  pose proof (Qle_ceiling (x / w)) as C1.
  pose proof (Qceiling_lt (x / w)) as C2. unfold Z.sub in C2.
  rewrite inject_Z_plus, inject_Z_opp in C2.
  change (inject_Z 1) with 1 in C2.
  assert (Hx : x == x / w * w) by (field; lra).
  set (q := x / w) in *. clearbody q. split; nra.
Qed.

Lemma int_le_of_lt_succ (a b : Z) : inject_Z a < inject_Z b + 1 -> (a <= b)%Z.
Proof.
  change 1 with (inject_Z 1). rewrite <- inject_Z_plus, <- Zlt_Qlt. lia.
Qed.

(** X21.  The position ruler's window.  For a state with a non-negative left
    edge: there is no layout exactly when there is no content, no view
    width, no column width, or the view starts at or beyond the content
    end; a layout has [1 <= first_pos <= last_pos <= max_len], a span of
    [last_pos - first_pos + 1] and a step of at least 1, and its positions
    are exactly the columns of the content that overlap the view. *)
Theorem position_layout_is_the_visible_columns :
  forall m : t,
    0 <= view_left m ->
    (compute_layout m = None <->
     (max_sequence_length m <= 0)%Z \/ view_width m <= 0 \/ char_width m <= 0
     \/ inject_Z (max_sequence_length m) * char_width m <= view_left m) /\
    forall layout : PositionRulerLayout,
      compute_layout m = Some layout ->
      max_len layout = max_sequence_length m /\
      (1 <= first_pos layout <= last_pos layout)%Z /\
      (last_pos layout <= max_sequence_length m)%Z /\
      visible_span layout = (last_pos layout - first_pos layout + 1)%Z /\
      step layout = _choose_step_for_zoom (char_width m) (visible_span layout) /\
      (1 <= step layout)%Z /\
      forall pos : Z,
        (first_pos layout <= pos <= last_pos layout)%Z <->
        (1 <= pos <= max_sequence_length m)%Z /\
        (inject_Z pos - 1) * char_width m < view_left m + view_width m /\
        view_left m < inject_Z pos * char_width m.
Proof.
  intros m Hvl.
  unfold compute_layout.
  destruct (max_sequence_length m <=? 0)%Z eqn:Elen.
  { apply Z.leb_le in Elen.
    split; [split; [intros _; left; exact Elen | reflexivity]|].
    intros layout H. discriminate. }
  apply Z.leb_gt in Elen.
  destruct (Float.leb (view_width m) 0) eqn:Evw.
  { apply leb_true in Evw. cbn [orb].
    split; [split; [intros _; right; left; exact Evw | reflexivity]|].
    intros layout H. discriminate. }
  apply leb_false in Evw.
  destruct (Float.leb (char_width m) 0) eqn:Ecw.
  { apply leb_true in Ecw. cbn [orb].
    split; [split; [intros _; right; right; left; exact Ecw | reflexivity]|].
    intros layout H. discriminate. }
  apply leb_false in Ecw. cbn [orb]. cbv zeta.
  destruct (floor_quotient (view_left m) (char_width m) Ecw) as [F1 F2].
  destruct (ceiling_quotient (view_left m + view_width m) (char_width m) Ecw)
    as [C1 C2].
  set (fl := Qfloor (view_left m / char_width m)) in *.
  set (ce := Qceiling ((view_left m + view_width m) / char_width m)) in *.
  set (len := max_sequence_length m) in *.
  set (cw := char_width m) in *. set (vl := view_left m) in *.
  set (vw := view_width m) in *.
  assert (Hlenq : 0 < inject_Z len)
    by (change 0 with (inject_Z 0); rewrite <- Zlt_Qlt; exact Elen).
  assert (Hfl0 : (0 <= fl)%Z).
  { apply int_le_of_lt_succ. change (inject_Z 0) with 0. nra. }
  assert (Hflce : (fl < ce)%Z).
  { assert (H : (fl <= ce)%Z) by (apply int_le_of_lt_succ; nra).
    destruct (Z.eq_dec fl ce) as [E|E]; [|lia].
    rewrite E in F1. nra. }
  replace (Z.max 0 fl) with fl by lia.
  destruct (Z.min len ce <=? fl)%Z eqn:Elast.
  - apply Z.leb_le in Elast.
    split; [|intros layout H; discriminate].
    split; [intros _|reflexivity].
    right. right. right.
    assert (Hlf : (len <= fl)%Z) by lia.
    rewrite Zle_Qle in Hlf. nra.
  - apply Z.leb_gt in Elast.
    replace (Z.min len ce - (fl + 1) + 1 <=? 0)%Z with false by lia.
    split.
    + split; [destruct (selection_cols m) as [[s e]|];
              [destruct (s >? e)%Z|]; discriminate|].
      intros [H|[H|[H|H]]]; try lia; try lra.
      assert (Hlf : (fl < len)%Z) by lia.
      assert (Hlf' : inject_Z fl + 1 <= inject_Z len).
      { change 1 with (inject_Z 1). rewrite <- inject_Z_plus, <- Zle_Qle.
        lia. }
      nra.
    + intros layout Hlay.
      assert (Hl : max_len layout = len /\ first_pos layout = (fl + 1)%Z /\
                   last_pos layout = Z.min len ce /\
                   visible_span layout = (Z.min len ce - (fl + 1) + 1)%Z /\
                   step layout
                   = _choose_step_for_zoom cw (Z.min len ce - (fl + 1) + 1)).
      { destruct (selection_cols m) as [[s e]|]; [destruct (s >? e)%Z|];
          injection Hlay as <-; repeat split; reflexivity. }
      destruct Hl as (L1 & L2 & L3 & L4 & L5).
      rewrite L1, L2, L3, L4, L5.
      split; [reflexivity|]. split; [lia|]. split; [lia|].
      split; [reflexivity|]. split; [reflexivity|].
      split; [apply choose_step_at_least_1|].
      intros pos. split.
      * intros [P1 P2].
        assert (Q1 : inject_Z fl + 1 <= inject_Z pos).
        { change 1 with (inject_Z 1). rewrite <- inject_Z_plus, <- Zle_Qle.
          lia. }
        assert (Q2 : inject_Z pos <= inject_Z ce)
          by (rewrite <- Zle_Qle; lia).
        split; [lia|]. split; nra.
      * intros ([P1 P2] & P3 & P4).
        assert (A : (fl + 1 <= pos)%Z).
        { assert (H : (fl < pos)%Z); [|lia].
          rewrite Zlt_Qlt. nra. }
        assert (B : (pos <= ce)%Z).
        { assert (H : (pos - 1 < ce)%Z); [|lia].
          rewrite Zlt_Qlt. unfold Z.sub.
          rewrite inject_Z_plus, inject_Z_opp. change (inject_Z 1) with 1.
          nra. }
        lia.
Qed.

(** 1000 columns at width 12, the view 500 px wide from pixel 400. *)
Lemma position_layout_is_the_visible_columns_witness :
  0 <= view_left Inputs.ruler_1000 /\
  forall layout : PositionRulerLayout,
    compute_layout Inputs.ruler_1000 = Some layout ->
    (1 <= first_pos layout <= last_pos layout)%Z.
Proof.
  assert (H : 0 <= view_left Inputs.ruler_1000) by (vm_compute; discriminate).
  split; [exact H|].
  intros layout E.
  exact (proj1 (proj2 (proj2 (position_layout_is_the_visible_columns
                                Inputs.ruler_1000 H) layout E))).
Defined.

End PositionLayoutFacts.

(* ------------------------------------------------------------------ *)
(** ** Glyph cache *)
(* ------------------------------------------------------------------ *)

Module GlyphFacts.
Import GlyphCache.
Local Open Scope Z_scope.

Lemma key_eqb_eq (a b : key) : key_eqb a b = true <-> a = b.
Proof.
  destruct a as [[[[[[[c1 f1] s1] b1] i1] r1] g1] u1].
  destruct b as [[[[[[[c2 f2] s2] b2] i2] r2] g2] u2].
  unfold key_eqb. rewrite !andb_true_iff.
  rewrite !String.eqb_eq, !Z.eqb_eq, !Bool.eqb_true_iff.
  split.
  - intros (((((((-> & ->) & ->) & ->) & ->) & ->) & ->) & ->). reflexivity.
  - intros E. injection E as -> -> -> -> -> -> -> ->. repeat split.
Qed.

Section Cache.

Variable QPixmap : Type.
Variable render : string -> QFont -> QColor -> QPixmap.

(** X22.  The glyph cache memoizes and never forgets.  After a call of
    [get_glyph], a second call for the same character, font and colour --
    or for any font and colour with the same key, such as a point size that
    rounds to the same integer -- returns the very same pixmap, paints
    nothing and leaves the cache as it is; a pixmap is painted exactly when
    the key was absent; and whatever the cache held before is still
    returned for its key afterwards. *)
Theorem glyph_cache_memoizes :
  forall (cache : t QPixmap) (ch : string) (font : QFont) (color : QColor),
    let r := get_glyph QPixmap render cache ch font color in
    let cache1 := fst (fst r) in
    let pm := snd (fst r) in
    get QPixmap cache1 (key_of ch font color) = Some pm /\
    (snd r = true <-> get QPixmap cache (key_of ch font color) = None) /\
    (snd r = true -> pm = render ch font color) /\
    (forall (font' : QFont) (color' : QColor),
       key_of ch font' color' = key_of ch font color ->
       get_glyph QPixmap render cache1 ch font' color' = (cache1, pm, false)) /\
    (forall (k : key) (old : QPixmap),
       get QPixmap cache k = Some old -> get QPixmap cache1 k = Some old).
Proof.
  intros cache ch font color r cache1 pm.
  assert (Hrefl : key_eqb (key_of ch font color) (key_of ch font color) = true)
    by (apply key_eqb_eq; reflexivity).
  subst pm cache1 r. unfold get_glyph.
  destruct (get QPixmap cache (key_of ch font color)) as [hit|] eqn:E;
    cbn [fst snd].
  - split; [exact E|]. split; [split; discriminate|].
    split; [discriminate|]. split.
    + intros font' color' Hk. unfold get_glyph. cbv zeta.
      rewrite Hk, E. reflexivity.
    + intros k old H. exact H.
  - assert (Hget : get QPixmap
                     ((key_of ch font color, render ch font color) :: cache)
                     (key_of ch font color)
                   = Some (render ch font color))
      by (cbn [get]; rewrite Hrefl; reflexivity).
    split; [exact Hget|]. split; [split; reflexivity|].
    split; [reflexivity|]. split.
    + intros font' color' Hk. unfold get_glyph. cbv zeta.
      rewrite Hk, Hget. reflexivity.
    + intros k old H. cbn [get].
      destruct (key_eqb (key_of ch font color) k) eqn:Ek; [|exact H].
      apply key_eqb_eq in Ek. subst k. congruence.
Qed.

(** Fonts that differ only in a point size rounding to the same integer
    have the same key. *)
Lemma key_of_rounds_size (ch : string) (font font' : QFont) (color : QColor) :
  family font' = family font -> bold font' = bold font ->
  italic font' = italic font -> key_size font' = key_size font ->
  key_of ch font' color = key_of ch font color.
Proof. unfold key_of. intros -> -> -> ->. reflexivity. Qed.

End Cache.
End GlyphFacts.
